(** * cd-metadl scoring helpers: a shallow embedding

    Source: [cdmetadl/scoring_program/scoring_helpers.py].

    The scoring helpers compute on binary64 numbers through numpy, scipy and
    scikit-learn.  The embedding is written once over an arithmetic
    interface ([Arith]) and read at two instances:

    - [float_arith]: IEEE binary64 (the kernel's primitive floats), which is
      the arithmetic the program runs on;
    - [xreal_arith]: exact real arithmetic extended with the IEEE special
      values (infinities and not-a-number), i.e. binary64 without rounding
      and without overflow.  Signed zeros are not distinguished there.

    Library routines the helpers call (numpy reductions, [np.argmax],
    [np.linspace], [np.histogram], [scipy.stats.sem], the scikit-learn
    metrics) are modelled from their documented behaviour and, where the
    documentation leaves the result open (the grouping of the additions of
    a sum, empty input to a metric), from what their current releases do;
    the Student's t quantile [scipy.stats.t.ppf] is kept abstract. *)

From Stdlib Require Import PrimFloat Uint63 SpecFloat FloatOps FloatAxioms.
From Stdlib Require Import ZArith Reals Lra Lia List Permutation.
From Stdlib Require Import String Ascii.
From stdpp Require Import gmap strings list pretty.

#[local] Set Warnings "-inexact-float".

(** ** Exceptions and outcomes *)

(** The exceptions the modelled code raises.  [ScoreError fn cause] is the
    plain [Exception] the metric functions re-raise: "In <fn>, score cannot
    be computed. Detailed error: <repr cause>". *)
Inductive exn : Type :=
| AxisError (axis ndim : nat)
| ValueError (msg : string)
| KeyError (key : string)
| NotImplementedError (msg : string)
| ScoreError (fn : string) (cause : exn).

Inductive outcome (A : Type) : Type :=
| Returned (a : A)
| Raised (e : exn).
Arguments Returned {A} a.
Arguments Raised {A} e.

Definition obind {A B : Type} (c : outcome A) (k : A -> outcome B) : outcome B :=
  match c with
  | Returned a => k a
  | Raised e => Raised e
  end.

Notation "'let!' x ':=' c 'in' k" := (obind c (fun x => k))
  (at level 10, x pattern, c at level 99, k at level 200).

(** [try: c except Exception as e: raise Exception(... repr(e))] *)
Definition reraise_as_score_error {A : Type} (fn : string) (c : outcome A) : outcome A :=
  match c with
  | Returned a => Returned a
  | Raised e => Raised (ScoreError fn e)
  end.

(** ** The arithmetic interface *)

Class Arith (F : Type) : Type := {
  f_of_nat : nat -> F;
  f_add : F -> F -> F;
  f_sub : F -> F -> F;
  f_mul : F -> F -> F;
  f_div : F -> F -> F;
  f_sqrt : F -> F;
  f_eqb : F -> F -> bool;
  f_ltb : F -> F -> bool;
  f_leb : F -> F -> bool;
  f_isnan : F -> bool;
  f_inf : F;
  f_neg_inf : F
}.

(** *** Binary64 *)

#[export] Instance float_arith : Arith float := {|
  f_of_nat := fun n => PrimFloat.of_uint63 (Uint63.of_Z (Z.of_nat n));
  f_add := PrimFloat.add;
  f_sub := PrimFloat.sub;
  f_mul := PrimFloat.mul;
  f_div := PrimFloat.div;
  f_sqrt := PrimFloat.sqrt;
  f_eqb := PrimFloat.eqb;
  f_ltb := PrimFloat.ltb;
  f_leb := PrimFloat.leb;
  f_isnan := fun x => negb (PrimFloat.eqb x x);
  f_inf := PrimFloat.infinity;
  f_neg_inf := PrimFloat.neg_infinity
|}.

(** *** Exact arithmetic with the IEEE special values *)

Inductive xreal : Type :=
| Fin (r : R)
| PInf
| NInf
| NaN.

Definition R_ltb (a b : R) : bool := if Rlt_dec a b then true else false.
Definition R_leb (a b : R) : bool := if Rle_dec a b then true else false.
Definition R_eqb (a b : R) : bool := if Req_dec_T a b then true else false.

Definition xneg (x : xreal) : xreal :=
  match x with
  | Fin r => Fin (- r)
  | PInf => NInf
  | NInf => PInf
  | NaN => NaN
  end.

Definition xadd (x y : xreal) : xreal :=
  match x, y with
  | NaN, _ | _, NaN => NaN
  | Fin a, Fin b => Fin (a + b)
  | PInf, NInf | NInf, PInf => NaN
  | PInf, _ | _, PInf => PInf
  | NInf, _ | _, NInf => NInf
  end.

Definition xsub (x y : xreal) : xreal := xadd x (xneg y).

(** An infinity of sign [pos], scaled by a finite factor [r]. *)
Definition xinf_scaled (pos : bool) (r : R) : xreal :=
  if R_eqb r 0 then NaN
  else if Bool.eqb pos (R_ltb 0 r) then PInf else NInf.

Definition xmul (x y : xreal) : xreal :=
  match x, y with
  | NaN, _ | _, NaN => NaN
  | Fin a, Fin b => Fin (a * b)
  | PInf, Fin r | Fin r, PInf => xinf_scaled true r
  | NInf, Fin r | Fin r, NInf => xinf_scaled false r
  | PInf, PInf | NInf, NInf => PInf
  | PInf, NInf | NInf, PInf => NInf
  end.

Definition xdiv (x y : xreal) : xreal :=
  match x, y with
  | NaN, _ | _, NaN => NaN
  | Fin a, Fin b =>
      if R_eqb b 0 then
        if R_eqb a 0 then NaN else if R_ltb 0 a then PInf else NInf
      else Fin (a / b)
  | Fin _, PInf | Fin _, NInf => Fin 0
  | PInf, Fin r => if R_ltb r 0 then NInf else PInf
  | NInf, Fin r => if R_ltb r 0 then PInf else NInf
  | PInf, PInf | PInf, NInf | NInf, PInf | NInf, NInf => NaN
  end.

Definition xsqrt (x : xreal) : xreal :=
  match x with
  | Fin r => if R_ltb r 0 then NaN else Fin (R_sqrt.sqrt r)
  | PInf => PInf
  | NInf | NaN => NaN
  end.

Definition xeqb (x y : xreal) : bool :=
  match x, y with
  | Fin a, Fin b => R_eqb a b
  | PInf, PInf | NInf, NInf => true
  | _, _ => false
  end.

Definition xltb (x y : xreal) : bool :=
  match x, y with
  | NaN, _ | _, NaN => false
  | Fin a, Fin b => R_ltb a b
  | NInf, NInf | PInf, _ | _, NInf => false
  | NInf, _ | _, PInf => true
  end.

Definition xleb (x y : xreal) : bool :=
  match x, y with
  | NaN, _ | _, NaN => false
  | Fin a, Fin b => R_leb a b
  | NInf, _ | _, PInf => true
  | PInf, _ | _, NInf => false
  end.

Definition xisnan (x : xreal) : bool :=
  match x with NaN => true | _ => false end.

#[export] Instance xreal_arith : Arith xreal := {|
  f_of_nat := fun n => Fin (INR n);
  f_add := xadd;
  f_sub := xsub;
  f_mul := xmul;
  f_div := xdiv;
  f_sqrt := xsqrt;
  f_eqb := xeqb;
  f_ltb := xltb;
  f_leb := xleb;
  f_isnan := xisnan;
  f_inf := PInf;
  f_neg_inf := NInf
|}.


(** ** numpy and scipy reductions *)

Section Reductions.
Context {F : Type} `{Arith F}.

(** numpy's pairwise summation (the routine [pairwise_sum] of its add
    loops), which an add-reduction runs over a contiguous array.  Fewer
    than 8 elements are added from left to right.  Up to [PW_BLOCKSIZE]
    elements are added into 8 accumulators, element [i] into accumulator
    [i mod 8], as long as whole groups of 8 remain; the accumulators are
    then added in pairs, and the elements left over are added one by one.
    A longer array is cut near its middle, at a multiple of 8, and the sums
    of the two parts are added. *)
Definition PW_BLOCKSIZE : nat := 128.

(** The unrolled loop: [r[j] += a[i + j]] for [j < 8], [turns] times;
    returns the accumulators and the elements not yet read. *)
Fixpoint unrolled_sum (turns : nat) (r a : list F) : list F * list F :=
  match turns with
  | 0 => (r, a)
  | S turns' => unrolled_sum turns' (zip_with f_add r (firstn 8 a)) (skipn 8 a)
  end.

(** [((r[0] + r[1]) + (r[2] + r[3])) + ((r[4] + r[5]) + (r[6] + r[7]))] *)
Definition add_accumulators (r : list F) : F :=
  match r with
  | [r0; r1; r2; r3; r4; r5; r6; r7] =>
      f_add (f_add (f_add r0 r1) (f_add r2 r3)) (f_add (f_add r4 r5) (f_add r6 r7))
  | _ => f_of_nat 0
  end.

(** The branch for [8 <= n <= PW_BLOCKSIZE]. *)
Definition pairwise_block (a : list F) : F :=
  let n := length a in
  let (r, rest) := unrolled_sum (n / 8 - 1) (firstn 8 a) (skipn 8 a) in
  fold_left f_add rest (add_accumulators r).

(** The recursion of [pairwise_sum], bounded by [depth]; each call on more
    than [PW_BLOCKSIZE] elements recurs on two strictly shorter parts, so a
    depth of [n] is never used up ([pairwise_sum_rec_depth]). *)
Fixpoint pairwise_sum_rec (depth : nat) (a : list F) : F :=
  let n := length a in
  if Nat.ltb n 8 then fold_left f_add a (f_of_nat 0)
  else if Nat.leb n PW_BLOCKSIZE then pairwise_block a
  else
    match depth with
    | 0 => pairwise_block a
    | S depth' =>
        let n2 := n / 2 in
        let n2 := n2 - n2 mod 8 in
        f_add (pairwise_sum_rec depth' (firstn n2 a))
              (pairwise_sum_rec depth' (skipn n2 a))
    end.

Definition pairwise_sum (a : list F) : F := pairwise_sum_rec (length a) a.

(** [np.sum] over a one-dimensional array: the result starts at 0, the
    identity of the addition, and the pairwise sum of the array is added to
    it. *)
Definition np_sum (a : list F) : F := f_add (f_of_nat 0) (pairwise_sum a).

(** [np.mean]: the sum divided by the number of elements. *)
Definition np_mean (a : list F) : F := f_div (np_sum a) (f_of_nat (length a)).

(** [np.var(a, ddof=1)]: the squared deviations from the mean, summed and
    divided by [n - 1]. *)
Definition np_var_ddof1 (a : list F) : F :=
  let arrmean := np_mean a in
  let x := map (fun v => f_sub v arrmean) a in
  let x := map (fun d => f_mul d d) x in
  f_div (np_sum x) (f_of_nat (length a - 1)).

(** [np.std(a, ddof=1)]: the sample standard deviation. *)
Definition np_std_ddof1 (a : list F) : F := f_sqrt (np_var_ddof1 a).

(** [scipy.stats.sem(a)]: [np.std(a, ddof=1) / np.sqrt(n)]. *)
Definition ss_sem (a : list F) : F :=
  f_div (np_std_ddof1 a) (f_sqrt (f_of_nat (length a))).

(** The default of the [confidence] argument, 0.95. *)
Definition default_confidence : F := f_div (f_of_nat 95) (f_of_nat 100).

(** *** [mean_confidence_interval] *)

Section MeanConfidenceInterval.
(** [scipy.stats.t.ppf q df]: the quantile function of Student's t
    distribution with [df] degrees of freedom. *)
Variable ss_t_ppf : F -> nat -> F.

(** Python's [None] is the [None] of [option]. *)
Definition mean_confidence_interval (data : list F) (confidence : F)
  : option F * option F :=
  let n := length data in
  if Nat.eqb n 0 then (None, None)
  else
    if Nat.ltb 1 n then
      let mean := np_mean data in
      let se := ss_sem data in
      let conf_int :=
        f_mul se (ss_t_ppf (f_div (f_add (f_of_nat 1) confidence) (f_of_nat 2)) (n - 1)) in
      (Some mean, Some conf_int)
    else
      let mean := hd (f_of_nat 0) data in
      let conf_int := f_of_nat 0 in
      (Some mean, Some conf_int).
End MeanConfidenceInterval.
End Reductions.

(** ** Arrays and arg-max decoding *)

(** A numpy array of one or of two dimensions; [Array2 ncols rows] has shape
    [(length rows, ncols)]. *)
Inductive ndarray (F : Type) : Type :=
| Array1 (values : list F)
| Array2 (ncols : nat) (rows : list (list F)).
Arguments Array1 {F} values.
Arguments Array2 {F} ncols rows.

Section Decoding.
Context {F : Type} `{Arith F}.

(** numpy's arg-max loop over one row: [mp] is the running maximum found
    at index [best]; an entry replaces it when it is not [<= mp], and the
    scan stops at the first not-a-number. *)
Fixpoint argmax_scan (mp : F) (best i : nat) (row : list F) : nat :=
  match row with
  | [] => best
  | x :: row' =>
      if f_leb x mp then argmax_scan mp best (S i) row'
      else if f_isnan x then i
      else argmax_scan x i (S i) row'
  end.

Definition argmax_row (row : list F) : nat :=
  match row with
  | [] => 0
  | x :: row' => if f_isnan x then 0 else argmax_scan x 0 1 row'
  end.

(** [np.argmax(y_pred, axis=1)] *)
Definition np_argmax_axis1 (y_pred : ndarray F) : outcome (list nat) :=
  match y_pred with
  | Array1 _ => Raised (AxisError 1 1)
  | Array2 ncols rows =>
      if Nat.eqb ncols 0
      then Raised (ValueError "attempt to get argmax of an empty sequence")
      else Returned (map argmax_row rows)
  end.
End Decoding.

(** ** scikit-learn metrics on decoded labels *)

(** [np.unique] of the labels of both arrays: sorted, without repeats. *)
Fixpoint insert_label (z : Z) (labels : list Z) : list Z :=
  match labels with
  | [] => [z]
  | y :: labels' =>
      if Z.ltb z y then z :: labels
      else if Z.eqb z y then labels
      else y :: insert_label z labels'
  end.

Definition unique_labels (y_true y_pred : list Z) : list Z :=
  fold_right insert_label [] (y_true ++ y_pred).

Definition count_matches (y_true y_pred : list Z) : nat :=
  length (List.filter (fun tp => Z.eqb (fst tp) (snd tp)) (combine y_true y_pred)).

(** Per-class counts: true positives, predicted members, true members. *)
Definition tp_sum (label : Z) (y_true y_pred : list Z) : nat :=
  length (List.filter (fun tp => Z.eqb (fst tp) label && Z.eqb (snd tp) label)
            (combine y_true y_pred)).

Definition pred_sum (label : Z) (y_pred : list Z) : nat :=
  length (List.filter (fun p => Z.eqb p label) y_pred).

Definition true_sum (label : Z) (y_true : list Z) : nat :=
  length (List.filter (fun t => Z.eqb t label) y_true).

(** The complaint of [check_consistent_length], which lists the two
    lengths. *)
Definition inconsistent_lengths (n_true n_pred : nat) : exn :=
  ValueError ("Found input variables with inconsistent numbers of samples: ["
              ++ pretty n_true ++ ", " ++ pretty n_pred ++ "]").

Definition empty_input : exn :=
  ValueError "Found empty input array (e.g., `y_true` or `y_pred`) while a minimum of 1 sample is required.".

Section Metrics.
Context {F : Type} `{Arith F}.

(** The validation every metric begins with: [check_consistent_length]
    first, then the refusal of empty input, which current releases of
    scikit-learn raise [ValueError] for (earlier ones went on and returned
    not-a-number, the mean over no examples); then the computation. *)
Definition checked_lengths {A : Type} (y_true y_pred : list Z) (result : A) : outcome A :=
  if negb (Nat.eqb (length y_true) (length y_pred))
  then Raised (inconsistent_lengths (length y_true) (length y_pred))
  else if Nat.eqb (length y_true) 0 then Raised empty_input
  else Returned result.

(** [accuracy_score]: the mean of the indicator [y_true == y_pred]. *)
Definition accuracy_score (y_true y_pred : list Z) : outcome F :=
  checked_lengths y_true y_pred
    (f_div (f_of_nat (count_matches y_true y_pred)) (f_of_nat (length y_true))).

(** [_prf_divide] with [zero_division = 0]: a zero denominator gives 0. *)
Definition prf_divide (numerator denominator : nat) : F :=
  if Nat.eqb denominator 0 then f_of_nat 0
  else f_div (f_of_nat numerator) (f_of_nat denominator).

Definition class_precision (y_true y_pred : list Z) (label : Z) : F :=
  prf_divide (tp_sum label y_true y_pred) (pred_sum label y_pred).

Definition class_recall (y_true y_pred : list Z) (label : Z) : F :=
  prf_divide (tp_sum label y_true y_pred) (true_sum label y_true).

(** F1 of one class, the harmonic mean of precision and recall, which
    scikit-learn computes from the counts as
    [(1 + beta2) * tp_sum / (beta2 * true_sum + pred_sum)] with [beta2 = 1],
    again through [_prf_divide]. *)
Definition class_f1 (y_true y_pred : list Z) (label : Z) : F :=
  prf_divide (2 * tp_sum label y_true y_pred)
    (true_sum label y_true + pred_sum label y_pred).

(** [average = "macro"]: the unweighted mean over the classes present. *)
Definition macro_average (per_class : list Z -> list Z -> Z -> F)
    (y_true y_pred : list Z) : outcome F :=
  checked_lengths y_true y_pred
    (np_mean (map (per_class y_true y_pred) (unique_labels y_true y_pred))).

Definition precision_score := macro_average class_precision.
Definition recall_score := macro_average class_recall.
Definition f1_score := macro_average class_f1.

(** *** The score functions of the module *)

Definition decode (y_pred : ndarray F) : outcome (list Z) :=
  let! indices := np_argmax_axis1 y_pred in
  Returned (map Z.of_nat indices).

Definition accuracy (y_true : list Z) (y_pred : ndarray F) : outcome F :=
  let! y_pred := decode y_pred in
  reraise_as_score_error "accuracy" (accuracy_score y_true y_pred).

Definition macro_f1_score (y_true : list Z) (y_pred : ndarray F) : outcome F :=
  let! y_pred := decode y_pred in
  reraise_as_score_error "macro_f1_score" (f1_score y_true y_pred).

Definition macro_precision (y_true : list Z) (y_pred : ndarray F) : outcome F :=
  let! y_pred := decode y_pred in
  reraise_as_score_error "macro_precision" (precision_score y_true y_pred).

Definition macro_recall (y_true : list Z) (y_pred : ndarray F) : outcome F :=
  let! y_pred := decode y_pred in
  reraise_as_score_error "macro_recall" (recall_score y_true y_pred).

(** *** [compute_all_scores] *)

(** The [scoring] dictionary, in insertion order. *)
Definition scoring : list (string * (list Z -> ndarray F -> outcome F)) :=
  [ ("Accuracy", accuracy);
    ("Macro F1 Score", macro_f1_score);
    ("Macro Precision", macro_precision);
    ("Macro Recall", macro_recall) ].

(** One turn of the loop: [scores[key] = scoring_function(y_true, y_pred)]. *)
Definition score_one (y_true : list Z) (y_pred : ndarray F)
    (scores : outcome (gmap string F))
    (entry : string * (list Z -> ndarray F -> outcome F)) : outcome (gmap string F) :=
  let! scores := scores in
  let! value := snd entry y_true y_pred in
  Returned (<[fst entry := value]> scores).

Definition compute_all_scores (y_true : list Z) (y_pred : ndarray F)
    : outcome (gmap string F) :=
  fold_left (score_one y_true y_pred) scoring (Returned ∅).
End Metrics.

(** ** [get_score]: resolving the configured score by name *)

Inductive metric : Type :=
| Accuracy
| MacroF1Score
| MacroPrecision
| MacroRecall.

(** What a name resolves to on the module object. *)
Inductive module_attr : Type :=
| ScoreFunction (m : metric)
| HelperFunction (name : string)
| ImportedName (name : string)
| ModuleDunder (name : string)
| InheritedAttribute (name : string).

(** The names [getattr] resolves on the module [scoring_helpers]: the names
    bound at its top level, in source order (its imports and its
    functions); the attributes the import system sets on every module; and
    the attributes a module object inherits from its type and from
    [object] (those of Python 3.11).  No name occurs twice. *)
Definition module_namespace : list (string * module_attr) :=
  map (fun n => (n, ImportedName n))
    [ "os"; "shutil"; "yaml"; "base64"; "re"; "np"; "pd"; "ss"; "sns"; "plt";
      "modules"; "ls"; "accuracy_score"; "f1_score"; "precision_score";
      "recall_score"; "Tuple"; "List"; "Callable" ]
  ++ map (fun n => (n, HelperFunction n))
    [ "vprint"; "exist_dir"; "print_list"; "show_dir"; "mvdir"; "mkdir";
      "load_yaml"; "create_path_here"; "natural_sort"; "read_results_file";
      "get_score"; "mean_confidence_interval"; "create_histogram";
      "create_heatmap" ]
  ++ [ ("accuracy", ScoreFunction Accuracy);
       ("macro_f1_score", ScoreFunction MacroF1Score);
       ("macro_precision", ScoreFunction MacroPrecision);
       ("macro_recall", ScoreFunction MacroRecall);
       ("compute_all_scores", HelperFunction "compute_all_scores") ]
  ++ map (fun n => (n, ModuleDunder n))
    [ "__name__"; "__doc__"; "__package__"; "__loader__"; "__spec__";
      "__file__"; "__cached__"; "__builtins__" ]
  ++ map (fun n => (n, InheritedAttribute n))
    [ "__annotations__"; "__class__"; "__delattr__"; "__dict__"; "__dir__";
      "__eq__"; "__format__"; "__ge__"; "__getattribute__"; "__getstate__";
      "__gt__"; "__hash__"; "__init__"; "__init_subclass__"; "__le__";
      "__lt__"; "__ne__"; "__new__"; "__reduce__"; "__reduce_ex__";
      "__repr__"; "__setattr__"; "__sizeof__"; "__str__";
      "__subclasshook__" ].

(** [getattr(modules[__name__], name)]; [None] stands for [AttributeError]. *)
Fixpoint getattr (namespace : list (string * module_attr)) (name : string)
    : option module_attr :=
  match namespace with
  | [] => None
  | (n, a) :: namespace' =>
      if String.eqb n name then Some a else getattr namespace' name
  end.

(** *** String methods

    A string is a sequence of code points below 256.  The case of letters
    is modelled for the ASCII letters, which is all that [title] meets
    here: it is applied to names [getattr] has resolved. *)

(** [c.isspace()], the characters [str.strip()] removes: the ASCII white
    space and separators, the next-line character and the no-break space. *)
Definition is_space (c : ascii) : bool :=
  let n := nat_of_ascii c in
  (Nat.leb 9 n && Nat.leb n 13) || (Nat.leb 28 n && Nat.leb n 32)
  || Nat.eqb n 133 || Nat.eqb n 160.

Definition is_upper (c : ascii) : bool :=
  let n := nat_of_ascii c in Nat.leb 65 n && Nat.leb n 90.

Definition is_lower (c : ascii) : bool :=
  let n := nat_of_ascii c in Nat.leb 97 n && Nat.leb n 122.

Definition to_upper (c : ascii) : ascii :=
  if is_lower c then ascii_of_nat (nat_of_ascii c - 32) else c.

Definition to_lower (c : ascii) : ascii :=
  if is_upper c then ascii_of_nat (nat_of_ascii c + 32) else c.

(** A line ends at a line feed or at a carriage return. *)
Definition is_line_end (c : ascii) : bool :=
  Ascii.eqb c "010" || Ascii.eqb c "013".

(** [f.readline()] on a file opened in text mode, as a function of the
    text that is left to read: up to and including the first line ending,
    which is handed over as a line feed whether the file has a line feed, a
    carriage return or both there. *)
Fixpoint readline (s : string) : string :=
  match s with
  | EmptyString => EmptyString
  | String c s' =>
      if is_line_end c then String "010" EmptyString else String c (readline s')
  end.

Fixpoint lstrip (s : string) : string :=
  match s with
  | EmptyString => EmptyString
  | String c s' => if is_space c then lstrip s' else s
  end.

Fixpoint rstrip (s : string) : string :=
  match s with
  | EmptyString => EmptyString
  | String c s' =>
      match rstrip s' with
      | EmptyString => if is_space c then EmptyString else String c EmptyString
      | r => String c r
      end
  end.

(** [str.strip()] *)
Definition strip (s : string) : string := rstrip (lstrip s).

(** [str.replace("_", " ")] *)
Fixpoint replace_underscores (s : string) : string :=
  match s with
  | EmptyString => EmptyString
  | String c s' =>
      String (if Ascii.eqb c "_" then " "%char else c) (replace_underscores s')
  end.

(** [str.title()]: a letter is upper-cased when the character before it is
    not a letter, and lower-cased otherwise. *)
Fixpoint title_from (previous_is_cased : bool) (s : string) : string :=
  match s with
  | EmptyString => EmptyString
  | String c s' =>
      if is_upper c || is_lower c
      then String (if previous_is_cased then to_lower c else to_upper c)
             (title_from true s')
      else String c (title_from false s')
  end.

Definition title (s : string) : string := title_from false s.

(** [get_score], as a function of the contents of [scores.txt]. *)
Definition get_score (scores_txt : string) : outcome (string * module_attr) :=
  let score_name := strip (readline scores_txt) in
  match getattr module_namespace score_name with
  | None =>
      Raised (NotImplementedError ("In get_score, '" ++ score_name ++ "' not found"))
  | Some scoring_function =>
      let score_name := replace_underscores score_name in
      let score_name := title score_name in
      Returned (score_name, scoring_function)
  end.

(** ** [create_heatmap]: limits, shared bins and the grid of counts *)

(** What [create_heatmap] hands to the renderer.  The tick labels of the
    x-axis are the bin edges, which the renderer rounds to two decimals;
    drawing, saving and re-reading the image are outside the model: an
    outcome [Returned figure] of the modelled [create_heatmap] says that the
    function reached the plotting calls with this figure. *)
Record heatmap_figure (F : Type) : Type := {
  hm_grid : list (list Z);
  hm_bins : list F;
  hm_yticklabels : list string;
  hm_xlabel : string;
  hm_title : string;
  hm_path : string
}.
Arguments hm_grid {F} _.
Arguments hm_bins {F} _.
Arguments hm_yticklabels {F} _.
Arguments hm_xlabel {F} _.
Arguments hm_title {F} _.
Arguments hm_path {F} _.

Definition zero_size_reduction (op : string) : exn :=
  ValueError ("zero-size array to reduction operation " ++ op ++ " which has no identity").

Definition bins_not_monotonic : exn :=
  ValueError "`bins` must increase monotonically, when an array".

(** The errors numpy and dictionary look-ups raise themselves, as opposed to
    the [ScoreError] that wraps a cause. *)
Definition is_library_error (e : exn) : Prop :=
  match e with
  | ValueError _ | KeyError _ | AxisError _ _ => True
  | NotImplementedError _ | ScoreError _ _ => False
  end.

(** [np.diff] on integers. *)
Fixpoint np_diff (a : list Z) : list Z :=
  match a with
  | x :: (y :: _) as a' => (y - x)%Z :: np_diff a'
  | _ => []
  end.

Section Heatmap.
Context {F : Type} `{Arith F}.

(** Python's built-in [min(a, b)] and [max(a, b)]: the first argument
    unless the second is strictly smaller (larger). *)
Definition py_min (a b : F) : F := if f_ltb b a then b else a.
Definition py_max (a b : F) : F := if f_ltb a b then b else a.

(** [np.minimum] and [np.maximum], which propagate not-a-number. *)
Definition np_minimum (a b : F) : F := if f_leb a b || f_isnan a then a else b.
Definition np_maximum (a b : F) : F := if f_leb b a || f_isnan a then a else b.

(** [np.min] and [np.max] of a one-dimensional array. *)
Definition np_min (a : list F) : outcome F :=
  match a with
  | [] => Raised (zero_size_reduction "minimum")
  | x :: a' => Returned (fold_left np_minimum a' x)
  end.

Definition np_max (a : list F) : outcome F :=
  match a with
  | [] => Raised (zero_size_reduction "maximum")
  | x :: a' => Returned (fold_left np_maximum a' x)
  end.

(** [np.linspace(start, stop, num)] with the end point included, for
    [num >= 2]: [num] samples [start + i * step], the last one set to
    [stop]. *)
Definition np_linspace (start stop : F) (num : nat) : list F :=
  let div := f_of_nat (num - 1) in
  let y := map f_of_nat (seq 0 num) in
  let delta := f_sub stop start in
  let step := f_div delta div in
  let y :=
    if f_eqb step (f_of_nat 0)
    then map (fun v => f_mul (f_div v div) delta) y
    else map (fun v => f_mul v step) y in
  let y := map (fun v => f_add v start) y in
  removelast y ++ [stop].

(** The order numpy sorts and searches by: not-a-number comes last. *)
Definition sort_lt (x v : F) : bool :=
  f_ltb x v || (f_isnan v && negb (f_isnan x)).

(** [np.sort(a).searchsorted(v, 'left')] and [(v, 'right')]: how many
    elements come strictly before [v], and how many do not come after. *)
Definition searchsorted_left (a : list F) (v : F) : Z :=
  Z.of_nat (length (List.filter (fun x => sort_lt x v) a)).
Definition searchsorted_right (a : list F) (v : F) : Z :=
  Z.of_nat (length (List.filter (fun x => negb (sort_lt v x)) a)).

Fixpoint decreases_somewhere (bins : list F) : bool :=
  match bins with
  | x :: (y :: _) as bins' => f_ltb y x || decreases_somewhere bins'
  | _ => false
  end.

(** [np.histogram(a, bins=bins)[0]] for an array of bin edges: cumulative
    counts at the edges (the last edge inclusive), then their differences. *)
Definition np_histogram (a : list F) (bins : list F) : outcome (list Z) :=
  if decreases_somewhere bins then Raised bins_not_monotonic
  else
    let cum_n :=
      map (searchsorted_left a) (removelast bins)
      ++ map (searchsorted_right a) (skipn (length bins - 1) bins) in
    Returned (np_diff cum_n).

(** [data[key][score_name]] *)
Definition scores_of (data : gmap string (gmap string (list F)))
    (key score_name : string) : outcome (list F) :=
  match data !! key with
  | None => Raised (KeyError key)
  | Some per_score =>
      match per_score !! score_name with
      | None => Raised (KeyError score_name)
      | Some values => Returned values
      end
  end.

(** The loop over [keys] that narrows [minimum] and widens [maximum]. *)
Fixpoint heatmap_limits (data : gmap string (gmap string (list F)))
    (score_name : string) (keys : list string) (minimum maximum : F)
    : outcome (F * F) :=
  match keys with
  | [] => Returned (minimum, maximum)
  | key :: keys' =>
      let! values := scores_of data key score_name in
      let! lowest := np_min values in
      let minimum := py_min lowest minimum in
      let! values := scores_of data key score_name in
      let! highest := np_max values in
      let maximum := py_max highest maximum in
      heatmap_limits data score_name keys' minimum maximum
  end.

(** The list comprehension: one histogram per key, in the order of [keys]. *)
Fixpoint heatmap_rows (data : gmap string (gmap string (list F)))
    (score_name : string) (bins : list F) (keys : list string)
    : outcome (list (list Z)) :=
  match keys with
  | [] => Returned []
  | key :: keys' =>
      let! values := scores_of data key score_name in
      let! counts := np_histogram values bins in
      let! rows := heatmap_rows data score_name bins keys' in
      Returned (counts :: rows)
  end.

Definition create_heatmap (data : gmap string (gmap string (list F)))
    (keys : list string) (yticks : list string)
    (score_name title path : string) : outcome (heatmap_figure F) :=
  let! limits := heatmap_limits data score_name keys f_inf f_neg_inf in
  let minimum := fst limits in
  let maximum := snd limits in
  let bins := np_linspace minimum maximum 11 in
  let! heatmap := heatmap_rows data score_name bins keys in
  Returned {| hm_grid := heatmap;
              hm_bins := bins;
              hm_yticklabels := yticks;
              hm_xlabel := "Score (" ++ score_name ++ ")";
              hm_title := title;
              hm_path := path |}.
End Heatmap.

(** ** Reference functions in real arithmetic *)

(** The sum, the arithmetic mean and the sample standard deviation (with
    [n - 1] in the denominator) of a list of reals, and the standard error of
    the mean. *)
Definition Rsum (rs : list R) : R := fold_left Rplus rs 0%R.

Definition arithmetic_mean (rs : list R) : R := (Rsum rs / INR (length rs))%R.

Definition sample_variance (rs : list R) : R :=
  (Rsum (map (fun r => (r - arithmetic_mean rs) * (r - arithmetic_mean rs)) rs)
   / INR (length rs - 1))%R.

Definition sample_std (rs : list R) : R := R_sqrt.sqrt (sample_variance rs).

Definition standard_error (rs : list R) : R :=
  (sample_std rs / R_sqrt.sqrt (INR (length rs)))%R.

(** The quantile function of Student's t distribution with two degrees of
    freedom, which has the closed form [(2p - 1) / sqrt (2p (1 - p))]; it
    serves as a concrete instance of [scipy.stats.t.ppf] for samples of three
    scores. *)
Definition t_quantile_two_dof (q : xreal) (df : nat) : xreal :=
  match q with
  | Fin p => Fin ((2 * p - 1) / R_sqrt.sqrt (2 * p * (1 - p)))%R
  | _ => NaN
  end.

(** What the aggregation relies on from the t quantile: at an upper tail
    probability ([1/2 <= p < 1]) and at least one degree of freedom it is a
    finite, non-negative number. *)
Definition upper_quantile_nonneg (t_ppf : xreal -> nat -> xreal) : Prop :=
  forall (p : R) (df : nat),
    (1 / 2 <= p < 1)%R -> 1 <= df ->
    exists t, t_ppf (Fin p) df = Fin t /\ (0 <= t)%R.

(** Three scores in two orders, as binary64 numbers. *)
Definition scores_ascending : list float := [0.1; 0.2; 0.3]%float.
Definition scores_descending : list float := [0.3; 0.2; 0.1]%float.

(** A batch of four examples over two classes, as binary64 numbers; its rows
    decode to the labels 0, 1, 1, 0. *)
Definition four_examples : ndarray float :=
  Array2 2 [ [0.9; 0.1]; [0.2; 0.8]; [0.4; 0.6]; [0.7; 0.3] ]%float.

(** ** Reference predicates for decoding *)

(** [k] is the index of the first occurrence of the maximum of [row]: the
    entry at [k] bounds every entry, and strictly bounds those before it. *)
Definition is_first_argmax (row : list xreal) (k : nat) : Prop :=
  exists v,
    row !! k = Some v /\
    (forall j x, row !! j = Some x -> xleb x v = true) /\
    (forall j x, j < k -> row !! j = Some x -> xltb x v = true).

(** A row of a prediction matrix: [ncols] entries, none of them
    not-a-number. *)
Definition prediction_row (ncols : nat) (row : list xreal) : Prop :=
  length row = ncols /\ Forall (fun x => xisnan x = false) row.

(** A batch of four examples over two classes in exact arithmetic; its rows
    decode to the labels 0, 1, 1, 0. *)
Definition four_exact_rows : list (list xreal) :=
  [ [Fin 9; Fin 1]; [Fin 2; Fin 8]; [Fin 4; Fin 6]; [Fin 7; Fin 3] ].


(** Two groups of binary64 scores, keyed by data set, under the score name
    Accuracy; and a single group whose scores all coincide. *)
Definition two_groups : gmap string (gmap string (list float)) :=
  <["a" := {["Accuracy" := [0.1; 0.5]%float]}]>
    {["b" := {["Accuracy" := [0.9; 0.2; 0.3]%float]}]}.

Definition constant_group : gmap string (gmap string (list float)) :=
  {["a" := {["Accuracy" := [0.5; 0.5]%float]}]}.

Definition empty_group : gmap string (gmap string (list float)) :=
  {["a" := {["Accuracy" := []]}]}.

(** A group with a score next to a bin edge: 0.09 lies at one tenth of the
    range from 0 to 0.9. *)
Definition near_edge_group : gmap string (gmap string (list float)) :=
  {["a" := {["Accuracy" := [0; 0.09; 0.9]%float]}]}.

(** ** Reference functions for the heatmap *)

(** Edge [k] of ten bins of equal width between [lo] and [hi]. *)
Definition bin_edge (lo hi : R) (k : nat) : R := (lo + INR k * ((hi - lo) / 10))%R.

Definition shared_edges (lo hi : R) : list R := map (bin_edge lo hi) (seq 0 11).

Definition count_if (p : R -> bool) (rs : list R) : Z :=
  Z.of_nat (length (List.filter p rs)).

(** The number of scores in each bin: a bin holds the scores from its left
    edge up to, but not including, its right edge; the last bin includes its
    right edge. *)
Fixpoint bin_counts (rs : list R) (edges : list R) : list Z :=
  match edges with
  | a :: (b :: rest) as edges' =>
      match rest with
      | [] => count_if (fun r => R_leb a r && R_leb r b) rs
      | _ => count_if (fun r => R_leb a r && R_ltb r b) rs
      end :: bin_counts rs edges'
  | _ => []
  end.

Fixpoint nondecreasing (edges : list R) : Prop :=
  match edges with
  | a :: (b :: _) as edges' => (a <= b)%R /\ nondecreasing edges'
  | _ => True
  end.

(** [m] is the least (greatest) of [values]. *)
Definition is_minimum_of (m : R) (values : list R) : Prop :=
  m ∈ values /\ forall r, r ∈ values -> (m <= r)%R.
Definition is_maximum_of (m : R) (values : list R) : Prop :=
  m ∈ values /\ forall r, r ∈ values -> (r <= m)%R.

(** Group [key] holds the non-empty collection of finite scores [rs]. *)
Definition holds_scores (data : gmap string (gmap string (list xreal)))
    (score_name : string) (key : string) (rs : list R) : Prop :=
  rs <> [] /\ scores_of data key score_name = Returned (map Fin rs).

(** ** The order of an arithmetic, and counting with it *)

(** What the comparisons of an arithmetic obey, on binary64 as in exact
    arithmetic: [<=] is transitive; between two numbers [<] is the negation
    of the converse [<=], and it implies [<=]; not-a-number compares false
    with everything; nothing is above the positive infinity or below the
    negative one. *)
Record ordered_arith (F : Type) `{Arith F} : Prop := {
  f_leb_trans : forall x y z : F,
    f_leb x y = true -> f_leb y z = true -> f_leb x z = true;
  f_ltb_not_leb : forall x y : F,
    f_isnan x = false -> f_isnan y = false -> f_ltb x y = negb (f_leb y x);
  f_ltb_leb : forall x y : F, f_ltb x y = true -> f_leb x y = true;
  f_nan_unordered : forall x y : F,
    f_isnan x = true ->
    f_leb x y = false /\ f_leb y x = false /\ f_ltb x y = false /\ f_ltb y x = false;
  f_inf_greatest : forall x : F, f_ltb f_inf x = false;
  f_neg_inf_least : forall x : F, f_ltb x f_neg_inf = false
}.

(** [m] is the least (greatest) of [values] in the order of the
    arithmetic. *)
Definition least_of {F : Type} `{Arith F} (m : F) (values : list F) : Prop :=
  m ∈ values /\ forall v, v ∈ values -> f_leb m v = true.
Definition greatest_of {F : Type} `{Arith F} (m : F) (values : list F) : Prop :=
  m ∈ values /\ forall v, v ∈ values -> f_leb v m = true.

Definition count_where {F : Type} (p : F -> bool) (values : list F) : Z :=
  Z.of_nat (length (List.filter p values)).

(** The number of values in each bin, in the order of the arithmetic: a
    bin holds the values from its left edge up to, but not including, its
    right edge; the last bin includes its right edge. *)
Fixpoint counts_in {F : Type} `{Arith F} (values bins : list F) : list Z :=
  match bins with
  | a :: (b :: rest) as bins' =>
      match rest with
      | [] => count_where (fun v => f_leb a v && f_leb v b) values
      | _ => count_where (fun v => f_leb a v && f_ltb v b) values
      end :: counts_in values bins'
  | _ => []
  end.

(** Group [key] holds the non-empty collection [values] of scores, none of
    them not-a-number. *)
Definition holds_values {F : Type} `{Arith F}
    (data : gmap string (gmap string (list F)))
    (score_name : string) (key : string) (values : list F) : Prop :=
  values <> [] /\
  Forall (fun v => f_isnan v = false) values /\
  scores_of data key score_name = Returned values.

(** Two groups of scores in exact arithmetic. *)
Definition two_exact_groups : gmap string (gmap string (list xreal)) :=
  <["a" := {["Accuracy" := [Fin 1; Fin 5]]}]>
    {["b" := {["Accuracy" := [Fin 9; Fin 2; Fin 3]]}]}.

(** * Further helpers of the module *)

(** ** Predicates on strings *)

Fixpoint string_forall (p : ascii -> bool) (s : string) : bool :=
  match s with
  | EmptyString => true
  | String c s' => p c && string_forall p s'
  end.

(** White space that does not end a line: what may surround the name on
    the first line of [scores.txt]. *)
Definition is_blank (c : ascii) : bool := is_space c && negb (is_line_end c).

(** ** [natural_sort]: the key for sorting names with numbers in them *)

(** Characters are the code points below 256.  Among them [\d] of a regular
    expression matches the decimal digits 0 to 9, while [str.isdigit] also
    accepts the superscript digits (code points 178, 179 and 185), which
    [int] does not read. *)
Definition is_decimal (c : ascii) : bool :=
  let n := nat_of_ascii c in Nat.leb 48 n && Nat.leb n 57.

Definition is_superscript_digit (c : ascii) : bool :=
  let n := nat_of_ascii c in Nat.eqb n 178 || Nat.eqb n 179 || Nat.eqb n 185.

Definition is_digit_char (c : ascii) : bool :=
  is_decimal c || is_superscript_digit c.

(** [x.isdigit()]: at least one character, and digits only. *)
Definition str_isdigit (x : string) : bool :=
  match x with
  | EmptyString => false
  | _ => string_forall is_digit_char x
  end.

(** [re.split(r"(\d+)", text)]: the text cut at its maximal runs of decimal
    digits, the runs kept; the pieces alternate between text (possibly
    empty at both ends) and digits, and begin and end with text. *)
Fixpoint re_split_digits (text : string) : list string :=
  match text with
  | EmptyString => [EmptyString]
  | String c text' =>
      let pieces := re_split_digits text' in
      if is_decimal c then
        match pieces with
        | EmptyString :: digits :: pieces' =>
            EmptyString :: String c digits :: pieces'
        | _ => EmptyString :: String c EmptyString :: pieces
        end
      else
        match pieces with
        | piece :: pieces' => String c piece :: pieces'
        | [] => [String c EmptyString]
        end
  end.

Definition digit_value (c : ascii) : N := N.of_nat (nat_of_ascii c - 48).

Fixpoint int_of_decimals (acc : N) (x : string) : N :=
  match x with
  | EmptyString => acc
  | String c x' => int_of_decimals (acc * 10 + digit_value c) x'
  end.

(** The slices [s[:n]] and [s[n:]], which clamp at the end of [s]. *)
Fixpoint str_take (n : nat) (s : string) : string :=
  match n, s with
  | S n', String c s' => String c (str_take n' s')
  | _, _ => EmptyString
  end.

Fixpoint str_drop (n : nat) (s : string) : string :=
  match n, s with
  | S n', String _ s' => str_drop n' s'
  | _, _ => s
  end.

(** The limit of Python 3.11 and later on the number of digits [int]
    reads ([sys.int_info.default_max_str_digits]). *)
Definition int_max_str_digits : N := 4300.

(** [int(x)] for the strings that reach it, which pass [isdigit] and hold
    either decimal digits only or superscript digits only: the value of a
    string of decimal digits, unless it has more digits than the limit,
    and [ValueError] otherwise; the message quotes at most 200 characters
    of [repr(x)]. *)
Definition py_int (x : string) : outcome N :=
  if string_forall is_decimal x then
    let digits := N.of_nat (String.length x) in
    if N.ltb int_max_str_digits digits then
      Raised (ValueError
                ("Exceeds the limit (4300 digits) for integer string conversion: value has "
                 ++ pretty digits
                 ++ " digits; use sys.set_int_max_str_digits() to increase the limit"))
    else Returned (int_of_decimals 0 x)
  else
    Raised (ValueError ("invalid literal for int() with base 10: "
                        ++ str_take 200 ("'" ++ x ++ "'"))).

(** An element of the key: a piece of text, or the number of a digit run. *)
Inductive key_item : Type :=
| KeyText (s : string)
| KeyInt (n : N).

(** [atoi = lambda x: int(x) if x.isdigit() else x] *)
Definition atoi (x : string) : outcome key_item :=
  if str_isdigit x
  then let! n := py_int x in Returned (KeyInt n)
  else Returned (KeyText x).

(** The list comprehension [[atoi(c) for c in pieces]]. *)
Fixpoint atoi_each (pieces : list string) : outcome (list key_item) :=
  match pieces with
  | [] => Returned []
  | c :: pieces' =>
      let! item := atoi c in
      let! items := atoi_each pieces' in
      Returned (item :: items)
  end.

Definition natural_sort (text : string) : outcome (list key_item) :=
  atoi_each (re_split_digits text).

(** *** Comparing keys, as [sorted] does *)

(** The outcome of [a < b] in Python: a truth value, or [TypeError] when a
    string meets an integer. *)
Inductive comparison_outcome : Type :=
| Compared (b : bool)
| CompareTypeError.

(** [a < b] on strings: by code points, a proper prefix first. *)
Fixpoint str_ltb (a b : string) : bool :=
  match a, b with
  | _, EmptyString => false
  | EmptyString, String _ _ => true
  | String x a', String y b' =>
      if Nat.ltb (nat_of_ascii x) (nat_of_ascii y) then true
      else if Ascii.eqb x y then str_ltb a' b'
      else false
  end.

(** [x == y] on elements: a string and an integer are never equal. *)
Definition item_eqb (x y : key_item) : bool :=
  match x, y with
  | KeyText s, KeyText t => String.eqb s t
  | KeyInt m, KeyInt n => N.eqb m n
  | _, _ => false
  end.

Definition item_lt (x y : key_item) : comparison_outcome :=
  match x, y with
  | KeyText s, KeyText t => Compared (str_ltb s t)
  | KeyInt m, KeyInt n => Compared (N.ltb m n)
  | _, _ => CompareTypeError
  end.

(** [a < b] on lists: the first pair of unequal elements decides; without
    one, the shorter list is the smaller. *)
Fixpoint key_lt (a b : list key_item) : comparison_outcome :=
  match a, b with
  | _, [] => Compared false
  | [], _ :: _ => Compared true
  | x :: a', y :: b' => if item_eqb x y then key_lt a' b' else item_lt x y
  end.

(** The shape of a key: text, number, text, ..., text, the texts free of
    decimal digits. *)
Fixpoint key_shape (key : list key_item) : bool :=
  match key with
  | [KeyText s] => string_forall (fun c => negb (is_decimal c)) s
  | KeyText s :: KeyInt _ :: key' =>
      string_forall (fun c => negb (is_decimal c)) s && key_shape key'
  | _ => false
  end.

(** The text does not begin with a decimal digit. *)
Definition no_leading_decimal (s : string) : bool :=
  match s with
  | EmptyString => true
  | String c _ => negb (is_decimal c)
  end.

(** The pieces [re.split] returns, as strings: text, digits, text, ...,
    text; the texts free of decimal digits, the runs of digits not empty. *)
Fixpoint pieces_shape (pieces : list string) : bool :=
  match pieces with
  | [t] => string_forall (fun c => negb (is_decimal c)) t
  | t :: d :: pieces' =>
      string_forall (fun c => negb (is_decimal c)) t
      && string_forall is_decimal d && negb (String.eqb d EmptyString)
      && pieces_shape pieces'
  | _ => false
  end.

(** The number of decimal digits the text begins with. *)
Fixpoint leading_digits (s : string) : nat :=
  match s with
  | EmptyString => 0
  | String c s' => if is_decimal c then S (leading_digits s') else 0
  end.

(** No run of decimal digits in the text is longer than [limit]: from no
    position on does the text go on with more than [limit] digits. *)
Fixpoint digit_runs_within (limit : N) (s : string) : bool :=
  match s with
  | EmptyString => true
  | String _ s' =>
      N.leb (N.of_nat (leading_digits s)) limit && digit_runs_within limit s'
  end.

(** The character [c], [n] times. *)
Fixpoint string_repeat (c : ascii) (n : nat) : string :=
  match n with
  | 0 => EmptyString
  | S n' => String c (string_repeat c n')
  end.

(** ** Reference functions for the counts of the heatmap *)

Definition Zsum (counts : list Z) : Z := fold_right Z.add 0%Z counts.

(** ** [create_histogram]: the range of the x-axis *)

Section HistogramAxis.
Context {F : Type} `{Arith F}.

(** [np.abs] *)
Definition f_abs (x : F) : F :=
  if f_ltb x (f_of_nat 0) then f_sub (f_of_nat 0) x else x.

(** [np.isfinite] *)
Definition np_isfinite (x : F) : bool :=
  negb (f_isnan x) && negb (f_eqb x f_inf) && negb (f_eqb x f_neg_inf).

(** The powers of ten, which are exact on binary64 up to [10 ^ 22]. *)
Fixpoint f_pow10 (k : nat) : F :=
  match k with
  | 0 => f_of_nat 1
  | S k' => f_mul (f_of_nat 10) (f_pow10 k')
  end.

(** The default tolerances of [np.isclose]: [rtol = 1e-05], [atol = 1e-08]. *)
Definition isclose_rtol : F := f_div (f_of_nat 1) (f_pow10 5).
Definition isclose_atol : F := f_div (f_of_nat 1) (f_pow10 8).

(** [np.isclose(a, b)] on two numbers: [|a - b| <= atol + rtol * |b|] with
    [b] finite, or [a == b]. *)
Definition np_isclose (a b : F) : bool :=
  (f_leb (f_abs (f_sub a b)) (f_add isclose_atol (f_mul isclose_rtol (f_abs b)))
   && np_isfinite b)
  || f_eqb a b.

(** The "Format axes" step of [create_histogram]:
    [x_min, x_max = np.min(data), np.max(data)], and the limits handed to
    [ax.set_xlim] unless the two are close ([None] when the axis is left
    alone).  The plotting calls around it are outside the model. *)
Definition histogram_xlim (data : list F) : outcome (option (F * F)) :=
  let! x_min := np_min data in
  let! x_max := np_max data in
  if negb (np_isclose x_min x_max)
  then Returned (Some (x_min, x_max))
  else Returned None.
End HistogramAxis.

(** The tolerance test of [np.isclose] over the reals. *)
Definition close_reals (a b : R) : Prop :=
  (Rabs (a - b) <= 1 / 100000000 + 1 / 100000 * Rabs b)%R.

(** * The packaging utility: [zipdir]

    Source: [starting_kit/zip_utils.py].  The directory tree is what
    [os.walk] reports, given as a list of directories, each with the names
    of its files; the model returns what [zipdir] writes to the archive.
    Paths are POSIX paths ([os.sep] is the slash). *)

Definition is_sep (c : ascii) : bool := Ascii.eqb c "/".

Definition starts_with_sep (s : string) : bool :=
  match s with
  | EmptyString => false
  | String c _ => is_sep c
  end.

Fixpoint ends_with_sep (s : string) : bool :=
  match s with
  | EmptyString => false
  | String c EmptyString => is_sep c
  | String _ s' => ends_with_sep s'
  end.

(** [os.path.join(a, b)] on two components. *)
Definition path_join (a b : string) : string :=
  if starts_with_sep b then b
  else if String.eqb a EmptyString || ends_with_sep a then (a ++ b)%string
  else (a ++ String "/" b)%string.

(** [s.endswith(suffix)] *)
Fixpoint str_endswith (s suffix : string) : bool :=
  String.eqb s suffix
  || match s with
     | EmptyString => false
     | String _ s' => str_endswith s' suffix
     end.

(** How the run of [zipdir] ends. *)
Inductive zip_status : Type :=
| Completed
| AssertionFailed
| IndexOutOfRange.

(** The effect of [zipdir]: no archive at all, or an archive with the
    entries written to it, each a file path and its name in the archive,
    and the way the run ended (entries written before an error stay in the
    archive, which is closed on the way out). *)
Inductive zip_result : Type :=
| NotOpened
| Archive (entries : list (string * string)) (status : zip_status).

(** The body of the inner loop for one file; [written] holds the entries so
    far, latest first. *)
Definition zip_file (basedir root fn : string) (written : list (string * string))
    : list (string * string) * zip_status :=
  if negb (str_endswith fn ".zip") then
    let absfn := path_join root fn in
    let zfn := str_drop (String.length basedir) absfn in
    if negb (String.eqb (str_take (String.length basedir) absfn) basedir)
    then (written, AssertionFailed)
    else
      match zfn with
      | EmptyString => (written, IndexOutOfRange)
      | String c zfn' =>
          let zfn := if is_sep c then zfn' else zfn in
          ((absfn, zfn) :: written, Completed)
      end
  else (written, Completed).

Fixpoint zip_files (basedir root : string) (files : list string)
    (written : list (string * string)) : list (string * string) * zip_status :=
  match files with
  | [] => (written, Completed)
  | fn :: files' =>
      match zip_file basedir root fn written with
      | (written', Completed) => zip_files basedir root files' written'
      | stopped => stopped
      end
  end.

Fixpoint zip_walk (basedir : string) (walk : list (string * list string))
    (written : list (string * string)) : list (string * string) * zip_status :=
  match walk with
  | [] => (written, Completed)
  | (root, files) :: walk' =>
      match zip_files basedir root files written with
      | (written', Completed) => zip_walk basedir walk' written'
      | stopped => stopped
      end
  end.

(** [zipdir(archivename, basedir)], with [basedir_is_dir] for
    [os.path.isdir(basedir)] and [walk] for what [os.walk(basedir)] yields. *)
Definition zipdir (basedir_is_dir : bool) (archivename basedir : string)
    (walk : list (string * list string)) : zip_result :=
  if negb basedir_is_dir then NotOpened
  else
    let (written, status) := zip_walk basedir walk [] in
    Archive (rev written) status.

(** What [os.walk(basedir)] yields: [basedir] itself or a directory below
    it, with file names that are not empty and hold no separator. *)
Definition below_basedir (basedir root : string) : Prop :=
  root = basedir \/
  exists rel, rel <> EmptyString /\ starts_with_sep rel = false /\
              root = path_join basedir rel.

Definition file_name (fn : string) : Prop :=
  fn <> EmptyString /\ string_forall (fun c => negb (is_sep c)) fn = true.

Definition walked_from (basedir : string) (walk : list (string * list string)) : Prop :=
  Forall (fun entry => below_basedir basedir (fst entry) /\ Forall file_name (snd entry)) walk.

(** The files [zipdir] is to archive, in the order of the walk. *)
Definition files_to_archive (walk : list (string * list string)) : list string :=
  flat_map (fun entry =>
              map (path_join (fst entry))
                (List.filter (fun fn => negb (str_endswith fn ".zip")) (snd entry)))
    walk.

(** The separator [os.path.join] puts after a first component. *)
Definition sep_after (a : string) : string :=
  if String.eqb a EmptyString || ends_with_sep a then EmptyString else "/".

(** * Resolved score functions and the scores of [compute_all_scores] *)

(** The function of the module a [ScoreFunction] attribute stands for. *)
Definition metric_function {F : Type} `{Arith F} (m : metric)
    : list Z -> ndarray F -> outcome F :=
  match m with
  | Accuracy => accuracy
  | MacroF1Score => macro_f1_score
  | MacroPrecision => macro_precision
  | MacroRecall => macro_recall
  end.

(** * Properties *)

(** ** Exact arithmetic: comparisons and finite sums *)

(** Unfolds the operations of the interface at the exact instance. *)
Ltac xreal_ops :=
  cbn [f_of_nat f_add f_sub f_mul f_div f_sqrt f_eqb f_ltb f_leb f_isnan
       f_inf f_neg_inf xreal_arith] in *.

Lemma R_ltb_true a b : R_ltb a b = true <-> (a < b)%R.
Proof. unfold R_ltb. destruct (Rlt_dec a b); split; intros; try discriminate; auto; contradiction. Qed.

Lemma R_leb_true a b : R_leb a b = true <-> (a <= b)%R.
Proof. unfold R_leb. destruct (Rle_dec a b); split; intros; try discriminate; auto; contradiction. Qed.

Lemma R_eqb_true a b : R_eqb a b = true <-> a = b.
Proof. unfold R_eqb. destruct (Req_dec_T a b); split; intros; try discriminate; auto; contradiction. Qed.

Lemma R_ltb_false a b : R_ltb a b = false <-> (b <= a)%R.
Proof.
  unfold R_ltb. destruct (Rlt_dec a b); split; intros; try discriminate; auto; lra.
Qed.

Lemma R_leb_false a b : R_leb a b = false <-> (b < a)%R.
Proof.
  unfold R_leb. destruct (Rle_dec a b); split; intros; try discriminate; auto; lra.
Qed.

Lemma R_eqb_false a b : R_eqb a b = false <-> a <> b.
Proof.
  unfold R_eqb. destruct (Req_dec_T a b); split; intros; try discriminate; auto; contradiction.
Qed.

Lemma xdiv_fin a b : b <> 0%R -> xdiv (Fin a) (Fin b) = Fin (a / b).
Proof. intros Hb. unfold xdiv. apply R_eqb_false in Hb. now rewrite Hb. Qed.

Lemma xsqrt_fin a : (0 <= a)%R -> xsqrt (Fin a) = Fin (R_sqrt.sqrt a).
Proof. intros Ha. unfold xsqrt. apply R_ltb_false in Ha. now rewrite Ha. Qed.

Lemma INR_pos_nonzero n : 0 < n -> INR n <> 0%R.
Proof. intros Hn. apply not_0_INR. lia. Qed.

(** *** Pairwise summation *)

Lemma pairwise_cut_bounds n :
  PW_BLOCKSIZE < n -> 0 < n / 2 - (n / 2) mod 8 < n.
Proof.
  unfold PW_BLOCKSIZE. intros Hn.
  pose proof (Nat.div_mod_eq n 2) as H2.
  pose proof (Nat.mod_upper_bound n 2 ltac:(lia)) as H2'.
  pose proof (Nat.mod_upper_bound (n / 2) 8 ltac:(lia)) as H8.
  lia.
Qed.

(** The recursion never runs out of depth: any two depths that are at least
    the length of the array give the same sum. *)
Lemma pairwise_sum_rec_depth {F : Type} `{Arith F} (d d' : nat) (a : list F) :
  length a <= d -> length a <= d' -> pairwise_sum_rec d a = pairwise_sum_rec d' a.
Proof.
  revert d' a. induction d as [|d IH]; intros d' a Hd Hd'.
  - destruct a; [| simpl in Hd; lia]. destruct d'; reflexivity.
  - destruct d' as [|d'].
    + destruct a; [| simpl in Hd'; lia]. reflexivity.
    + cbn [pairwise_sum_rec].
      destruct (Nat.ltb (length a) 8); [reflexivity |].
      destruct (Nat.leb_spec (length a) PW_BLOCKSIZE) as [_|Hn]; [reflexivity |].
      pose proof (pairwise_cut_bounds (length a) Hn) as Hcut.
      f_equal; apply IH; rewrite ?length_firstn, ?length_skipn; lia.
Qed.

(** An array of more than [PW_BLOCKSIZE] elements is summed as its two
    parts. *)
Lemma pairwise_sum_split {F : Type} `{Arith F} (a : list F) :
  PW_BLOCKSIZE < length a ->
  let n2 := length a / 2 - (length a / 2) mod 8 in
  pairwise_sum a = f_add (pairwise_sum (firstn n2 a)) (pairwise_sum (skipn n2 a)).
Proof.
  intros Hn n2. unfold pairwise_sum at 1.
  pose proof (pairwise_cut_bounds (length a) Hn) as Hcut.
  destruct (length a) as [|d] eqn:Hlen; [unfold PW_BLOCKSIZE in Hn; lia |].
  cbn [pairwise_sum_rec]. rewrite Hlen.
  destruct (Nat.ltb_spec (S d) 8) as [E|_]; [unfold PW_BLOCKSIZE in Hn; lia |].
  destruct (Nat.leb_spec (S d) PW_BLOCKSIZE) as [E|_]; [lia |].
  fold n2. unfold pairwise_sum.
  f_equal; apply pairwise_sum_rec_depth;
    rewrite ?length_firstn, ?length_skipn; subst n2; lia.
Qed.

(** In exact arithmetic the grouping of the additions is immaterial: the
    pairwise sum is the sum from left to right. *)
Lemma xadd_comm x y : xadd x y = xadd y x.
Proof. destruct x, y; simpl; try reflexivity. f_equal. lra. Qed.

Lemma xadd_assoc x y z : xadd (xadd x y) z = xadd x (xadd y z).
Proof. destruct x, y, z; simpl; try reflexivity. f_equal. lra. Qed.

Lemma xadd_0_l x : xadd (Fin 0) x = x.
Proof. destruct x; simpl; try reflexivity. f_equal. lra. Qed.

Lemma fold_xadd_shift (a : list xreal) (acc : xreal) :
  fold_left xadd a acc = xadd acc (fold_left xadd a (Fin 0)).
Proof.
  revert acc. induction a as [|x a IH]; intros acc; cbn [fold_left].
  - rewrite xadd_comm. symmetry. apply xadd_0_l.
  - rewrite (IH (xadd acc x)), (IH (xadd (Fin 0) x)), xadd_0_l. apply xadd_assoc.
Qed.

Lemma fold_xadd_app (a b : list xreal) :
  fold_left xadd (a ++ b) (Fin 0)
  = xadd (fold_left xadd a (Fin 0)) (fold_left xadd b (Fin 0)).
Proof. rewrite fold_left_app. apply fold_xadd_shift. Qed.

Lemma fold_xadd_zip_with (r b : list xreal) :
  length r = length b ->
  fold_left xadd (zip_with xadd r b) (Fin 0)
  = xadd (fold_left xadd r (Fin 0)) (fold_left xadd b (Fin 0)).
Proof.
  revert b. induction r as [|x r IH]; intros [|y b] Hlen; simpl in Hlen; try lia.
  - cbn [zip_with fold_left]. symmetry. apply xadd_0_l.
  - cbn [zip_with fold_left].
    rewrite (fold_xadd_shift _ (xadd (Fin 0) (xadd x y))),
      (fold_xadd_shift r (xadd (Fin 0) x)), (fold_xadd_shift b (xadd (Fin 0) y)),
      (IH b) by lia.
    rewrite !xadd_0_l, !xadd_assoc. f_equal.
    rewrite <- !xadd_assoc. f_equal. apply xadd_comm.
Qed.

Lemma add_accumulators_exact (r : list xreal) :
  length r = 8 -> add_accumulators r = fold_left xadd r (Fin 0).
Proof.
  intros Hlen.
  destruct r as [|r0 [|r1 [|r2 [|r3 [|r4 [|r5 [|r6 [|r7 [|r8 r]]]]]]]]];
    simpl in Hlen; try lia.
  cbn [add_accumulators fold_left]. xreal_ops.
  rewrite xadd_0_l, !xadd_assoc. reflexivity.
Qed.

Lemma unrolled_sum_exact (turns : nat) (r a : list xreal) :
  length r = 8 -> 8 * turns <= length a ->
  length (fst (unrolled_sum turns r a)) = 8 /\
  xadd (fold_left xadd (fst (unrolled_sum turns r a)) (Fin 0))
       (fold_left xadd (snd (unrolled_sum turns r a)) (Fin 0))
  = xadd (fold_left xadd r (Fin 0)) (fold_left xadd a (Fin 0)).
Proof.
  revert r a. induction turns as [|turns IH]; intros r a Hr Ha.
  - split; [exact Hr | reflexivity].
  - cbn [unrolled_sum]. xreal_ops.
    assert (Hblock : length (firstn 8 a) = 8) by (rewrite length_firstn; lia).
    destruct (IH (zip_with xadd r (firstn 8 a)) (skipn 8 a)) as [Hlen Hsum].
    + rewrite length_zip_with. lia.
    + rewrite length_skipn. lia.
    + split; [exact Hlen |]. rewrite Hsum.
      rewrite fold_xadd_zip_with by lia.
      rewrite xadd_assoc, <- fold_xadd_app, firstn_skipn. reflexivity.
Qed.

Lemma pairwise_block_exact (a : list xreal) :
  8 <= length a -> pairwise_block a = fold_left xadd a (Fin 0).
Proof.
  intros Hn. unfold pairwise_block.
  pose proof (Nat.div_mod_eq (length a) 8) as Hdiv.
  destruct (unrolled_sum_exact (length a / 8 - 1) (firstn 8 a) (skipn 8 a))
    as [Hlen Hsum].
  - rewrite length_firstn. lia.
  - rewrite length_skipn. lia.
  - destruct (unrolled_sum (length a / 8 - 1) (firstn 8 a) (skipn 8 a)) as [r rest].
    cbn [fst snd] in Hlen, Hsum. xreal_ops.
    rewrite fold_xadd_shift, add_accumulators_exact, Hsum by assumption.
    rewrite <- fold_xadd_app, firstn_skipn. reflexivity.
Qed.

Lemma pairwise_sum_rec_exact (depth : nat) (a : list xreal) :
  pairwise_sum_rec depth a = fold_left xadd a (Fin 0).
Proof.
  revert a. induction depth as [|depth IH]; intros a; cbn [pairwise_sum_rec].
  - destruct (Nat.ltb_spec (length a) 8) as [_|Hn]; [reflexivity |].
    destruct (Nat.leb (length a) PW_BLOCKSIZE); now apply pairwise_block_exact.
  - destruct (Nat.ltb_spec (length a) 8) as [_|Hn]; [reflexivity |].
    destruct (Nat.leb (length a) PW_BLOCKSIZE); [now apply pairwise_block_exact |].
    rewrite !IH. xreal_ops. rewrite <- fold_xadd_app, firstn_skipn. reflexivity.
Qed.

Lemma np_sum_exact (a : list xreal) : np_sum a = fold_left xadd a (Fin 0).
Proof.
  unfold np_sum, pairwise_sum. rewrite pairwise_sum_rec_exact. xreal_ops.
  apply xadd_0_l.
Qed.

Lemma fold_xadd_fin rs a :
  fold_left xadd (map Fin rs) (Fin a) = Fin (fold_left Rplus rs a).
Proof. revert a. induction rs as [|r rs IH]; intros a; simpl; [reflexivity | apply IH]. Qed.

Lemma np_sum_fin rs : np_sum (map Fin rs) = Fin (Rsum rs).
Proof. rewrite np_sum_exact. apply fold_xadd_fin. Qed.

Lemma np_mean_fin rs :
  rs <> [] -> np_mean (map Fin rs) = Fin (arithmetic_mean rs).
Proof.
  intros Hne. unfold np_mean, arithmetic_mean. rewrite np_sum_fin, length_map.
  xreal_ops. apply xdiv_fin, INR_pos_nonzero. destruct rs; [congruence | simpl; lia].
Qed.

Lemma fold_Rplus_shift rs a : fold_left Rplus rs a = (a + fold_left Rplus rs 0)%R.
Proof.
  revert a. induction rs as [|r rs IH]; intros a; simpl; [lra |].
  rewrite (IH (a + r)%R), (IH (0 + r)%R). lra.
Qed.

Lemma Rsum_cons r rs : Rsum (r :: rs) = (r + Rsum rs)%R.
Proof. unfold Rsum. simpl. rewrite fold_Rplus_shift. lra. Qed.

Lemma Rsum_nonneg rs : Forall (fun r => 0 <= r)%R rs -> (0 <= Rsum rs)%R.
Proof.
  induction 1 as [|r rs Hr _ IH]; [unfold Rsum; simpl; lra |].
  rewrite Rsum_cons. lra.
Qed.

Lemma Rsum_bounds rs :
  Forall (fun r => 0 <= r <= 1)%R rs -> (0 <= Rsum rs <= INR (length rs))%R.
Proof.
  induction 1 as [|r rs Hr _ IH]; [unfold Rsum; simpl; lra |].
  rewrite Rsum_cons. change (length (r :: rs)) with (S (length rs)). rewrite S_INR. lra.
Qed.

Lemma sample_variance_nonneg rs : 1 < length rs -> (0 <= sample_variance rs)%R.
Proof.
  intros Hn. unfold sample_variance. apply Rmult_le_pos.
  - apply Rsum_nonneg. apply List.Forall_forall. intros x Hx.
    apply in_map_iff in Hx. destruct Hx as [r [<- _]]. apply Rle_0_sqr.
  - left. apply Rinv_0_lt_compat. apply lt_0_INR. lia.
Qed.

Lemma np_var_fin rs :
  1 < length rs -> np_var_ddof1 (map Fin rs) = Fin (sample_variance rs).
Proof.
  intros Hn. unfold np_var_ddof1, sample_variance.
  rewrite np_mean_fin by (destruct rs; [simpl in Hn; lia | congruence]).
  rewrite !map_map. xreal_ops. cbn [xsub xadd xneg xmul].
  change (fun x : R => Fin ((x + - arithmetic_mean rs) * (x + - arithmetic_mean rs)))
    with (fun x : R => Fin ((fun r => (r + - arithmetic_mean rs) * (r + - arithmetic_mean rs))%R x)).
  rewrite <- (map_map (fun r => (r + - arithmetic_mean rs) * (r + - arithmetic_mean rs))%R Fin).
  rewrite np_sum_fin, !length_map.
  rewrite xdiv_fin by (apply INR_pos_nonzero; lia). reflexivity.
Qed.

Lemma ss_sem_fin rs :
  1 < length rs -> ss_sem (map Fin rs) = Fin (standard_error rs).
Proof.
  intros Hn. unfold ss_sem, np_std_ddof1, standard_error, sample_std.
  rewrite np_var_fin by assumption. xreal_ops.
  rewrite xsqrt_fin by (apply sample_variance_nonneg; assumption).
  rewrite length_map, xsqrt_fin by apply pos_INR.
  apply xdiv_fin. apply Rgt_not_eq, sqrt_lt_R0, lt_0_INR. lia.
Qed.

Lemma standard_error_nonneg rs : 1 < length rs -> (0 <= standard_error rs)%R.
Proof.
  intros Hn. unfold standard_error. apply Rmult_le_pos; [apply sqrt_pos |].
  left. apply Rinv_0_lt_compat, sqrt_lt_R0, lt_0_INR. lia.
Qed.

(** ** [mean_confidence_interval] *)

(** In exact arithmetic the components for [n > 1] are the arithmetic mean
    and the standard error of the scores, scaled by the quantile. *)
Lemma mean_confidence_interval_exact ss_t_ppf (rs : list R) (confidence : xreal) :
  1 < length rs ->
  mean_confidence_interval ss_t_ppf (map Fin rs) confidence =
    (Some (Fin (arithmetic_mean rs)),
     Some (xmul (Fin (standard_error rs))
             (ss_t_ppf (xdiv (xadd (Fin 1) confidence) (Fin 2)) (length rs - 1)))).
Proof.
  intros Hn. unfold mean_confidence_interval. rewrite length_map.
  destruct (Nat.eqb_spec (length rs) 0) as [E|_]; [lia |].
  destruct (Nat.ltb_spec 1 (length rs)) as [_|E]; [| lia].
  rewrite np_mean_fin by (destruct rs; [simpl in Hn; lia | congruence]).
  rewrite ss_sem_fin by assumption. reflexivity.
Qed.

(** C1. [mean_confidence_interval] splits on the length [n] of the data.
    On any arithmetic, for [n = 0] both components are absent, and for
    [n = 1] it returns the single element and 0.  For [n > 1] finite scores
    it returns, in exact arithmetic, the arithmetic mean of the scores (their
    sum over [n]) and the standard error, which is the sample standard
    deviation (the square root of the sum of the squared deviations from the
    mean over [n - 1]) over the square root of [n], times the t quantile at
    the tail probability [(1 + confidence) / 2] with [n - 1] degrees of
    freedom. *)
Theorem mean_confidence_interval_cases :
  (forall (F : Type) (A : Arith F) (ss_t_ppf : F -> nat -> F)
          (data : list F) (confidence : F),
      let result := mean_confidence_interval ss_t_ppf data confidence in
      (length data = 0 -> result = (None, None)) /\
      (length data = 1 ->
       exists x, data = [x] /\ result = (Some x, Some (f_of_nat 0)))) /\
  (forall (ss_t_ppf : xreal -> nat -> xreal) (rs : list R) (confidence : R),
      let n := length rs in
      1 < n ->
      mean_confidence_interval ss_t_ppf (map Fin rs) (Fin confidence) =
        (Some (Fin (Rsum rs / INR n)),
         Some (xmul (Fin (sample_std rs / R_sqrt.sqrt (INR n)))
                 (ss_t_ppf (Fin ((1 + confidence) / 2)) (n - 1))))).
Proof.
  split.
  - intros F A ss_t_ppf data confidence result. subst result.
    unfold mean_confidence_interval. split.
    + intros Hn. destruct data; [reflexivity | discriminate].
    + intros Hn. destruct data as [|x [|y data]]; simpl in Hn; try lia.
      exists x. split; reflexivity.
  - intros ss_t_ppf rs confidence n Hn. subst n.
    rewrite mean_confidence_interval_exact by assumption.
    cbn [xadd]. rewrite xdiv_fin by lra. reflexivity.
Qed.

Lemma mean_confidence_interval_cases_witness :
  mean_confidence_interval t_quantile_two_dof (map Fin [1; 2; 3]%R) (Fin (95 / 100)) =
    (Some (Fin (Rsum [1; 2; 3]%R / INR 3)),
     Some (xmul (Fin (sample_std [1; 2; 3]%R / R_sqrt.sqrt (INR 3)))
             (t_quantile_two_dof (Fin ((1 + 95 / 100) / 2)) 2))).
Proof.
  apply (proj2 mean_confidence_interval_cases t_quantile_two_dof [1; 2; 3]%R (95 / 100)%R).
  simpl. lia.
Defined.

Example mean_of_one_two_three : arithmetic_mean [1; 2; 3]%R = 2%R.
Proof. unfold arithmetic_mean, Rsum. simpl. lra. Qed.

Lemma default_tail_probability :
  xdiv (xadd (Fin 1) default_confidence) (Fin 2) = Fin (975 / 1000).
Proof.
  unfold default_confidence. xreal_ops.
  rewrite xdiv_fin by (apply INR_pos_nonzero; lia). cbn [xadd].
  rewrite xdiv_fin by lra. f_equal.
  rewrite !INR_IZR_INZ.
  change (Z.of_nat 95) with 95%Z. change (Z.of_nat 100) with 100%Z. lra.
Qed.

Lemma t_quantile_two_dof_nonneg : upper_quantile_nonneg t_quantile_two_dof.
Proof.
  intros p df [Hlo Hhi] _. eexists. split; [reflexivity |].
  apply Rmult_le_pos; [lra |].
  left. apply Rinv_0_lt_compat, sqrt_lt_R0. nra.
Qed.

(** The literal 0.95 of the source is the binary64 number [95 / 100]. *)
Example default_confidence_binary64 : @default_confidence float _ = 0.95%float.
Proof. vm_compute. reflexivity. Qed.

(** A single score on binary64: the score itself and 0.0, whatever the
    quantile function. *)
Example single_score_binary64 (ss_t_ppf : float -> nat -> float) :
  mean_confidence_interval ss_t_ppf [5%float] default_confidence
    = (Some 5%float, Some 0%float).
Proof. reflexivity. Qed.

Example three_scores_mean_binary64 (ss_t_ppf : float -> nat -> float) :
  fst (mean_confidence_interval ss_t_ppf [1; 2; 3]%float default_confidence)
    = Some 2%float.
Proof. vm_compute. reflexivity. Qed.

Lemma sample_variance_one_two_three : sample_variance [1; 2; 3]%R = 1%R.
Proof.
  unfold sample_variance. rewrite mean_of_one_two_three.
  unfold Rsum. simpl. lra.
Qed.

(** The scores 1, 2, 3 in exact arithmetic, with the t quantile for two
    degrees of freedom: mean 2 and a positive finite half-width. *)
Example three_scores_exact :
  exists h,
    mean_confidence_interval t_quantile_two_dof [Fin 1; Fin 2; Fin 3] default_confidence
      = (Some (Fin 2), Some (Fin h)) /\ (0 < h)%R.
Proof.
  change [Fin 1; Fin 2; Fin 3] with (map Fin [1; 2; 3]%R).
  rewrite mean_confidence_interval_exact by (simpl; lia).
  rewrite default_tail_probability, mean_of_one_two_three.
  eexists. split; [reflexivity |].
  apply Rmult_lt_0_compat.
  - unfold standard_error, sample_std. rewrite sample_variance_one_two_three, sqrt_1.
    apply Rmult_lt_0_compat; [lra |].
    apply Rinv_0_lt_compat, sqrt_lt_R0. simpl. lra.
  - apply Rmult_lt_0_compat; [lra |].
    apply Rinv_0_lt_compat, sqrt_lt_R0. lra.
Qed.

(** C4. For finite scores and the default confidence level (with a t
    quantile that is finite and non-negative on upper tail probabilities),
    the half-width is a finite number greater than or equal to 0; it is
    exactly 0 for a single score; mean and half-width are both absent for
    the empty list. *)
Theorem half_width_nonneg :
  forall (ss_t_ppf : xreal -> nat -> xreal) (scores : list R),
    upper_quantile_nonneg ss_t_ppf ->
    let result := mean_confidence_interval ss_t_ppf (map Fin scores) default_confidence in
    (scores = [] -> result = (None, None)) /\
    (length scores = 1 -> snd result = Some (Fin 0)) /\
    (scores <> [] -> exists h, snd result = Some (Fin h) /\ (0 <= h)%R).
Proof.
  intros ss_t_ppf scores Ht result. subst result. repeat split.
  - intros ->. reflexivity.
  - intros Hn. destruct scores as [|x [|y scores]]; simpl in Hn; try lia. reflexivity.
  - intros Hne. destruct scores as [|x [|y scores]]; [congruence | |].
    + exists 0%R. split; [reflexivity | lra].
    + set (rs := x :: y :: scores).
      assert (Hn : 1 < length rs) by (simpl; lia).
      rewrite mean_confidence_interval_exact by assumption.
      rewrite default_tail_probability.
      destruct (Ht (975 / 1000)%R (length rs - 1)) as [t [Et Htpos]]; [lra | lia |].
      rewrite Et. exists (standard_error rs * t)%R. split; [reflexivity |].
      apply Rmult_le_pos; [apply standard_error_nonneg; assumption | assumption].
Qed.

Lemma half_width_nonneg_witness :
  exists h,
    snd (mean_confidence_interval t_quantile_two_dof (map Fin [1; 2; 3]%R) default_confidence)
      = Some (Fin h) /\ (0 <= h)%R.
Proof.
  apply (half_width_nonneg t_quantile_two_dof [1; 2; 3]%R t_quantile_two_dof_nonneg).
  discriminate.
Defined.

(** *** Order of the scores *)

Lemma fold_xadd_permutation (a b : list xreal) :
  Permutation a b -> forall acc, fold_left xadd a acc = fold_left xadd b acc.
Proof.
  induction 1 as [| x a b _ IH | x y a | a b c _ IH1 _ IH2]; intros acc; simpl.
  - reflexivity.
  - apply IH.
  - f_equal. rewrite !xadd_assoc. f_equal. apply xadd_comm.
  - rewrite IH1. apply IH2.
Qed.

Lemma np_sum_permutation (a b : list xreal) :
  Permutation a b -> np_sum a = np_sum b.
Proof. intros Hp. rewrite !np_sum_exact. now apply fold_xadd_permutation. Qed.

Lemma np_mean_permutation (a b : list xreal) :
  Permutation a b -> np_mean a = np_mean b.
Proof.
  intros Hp. unfold np_mean.
  now rewrite (np_sum_permutation a b Hp), (Permutation_length Hp).
Qed.

Lemma ss_sem_permutation (a b : list xreal) :
  Permutation a b -> ss_sem a = ss_sem b.
Proof.
  intros Hp. unfold ss_sem, np_std_ddof1, np_var_ddof1.
  rewrite (np_mean_permutation a b Hp), (Permutation_length Hp).
  do 3 f_equal. apply np_sum_permutation. now do 2 apply Permutation_map.
Qed.

(** C9, as amended. In exact arithmetic, [mean_confidence_interval] returns
    the same (mean, half-width) pair on every permutation of the scores. *)
Theorem mean_confidence_interval_permutation :
  forall (ss_t_ppf : xreal -> nat -> xreal) (data data' : list xreal)
         (confidence : xreal),
    Permutation data data' ->
    mean_confidence_interval ss_t_ppf data confidence =
    mean_confidence_interval ss_t_ppf data' confidence.
Proof.
  intros ss_t_ppf data data' confidence Hp. unfold mean_confidence_interval.
  rewrite <- (Permutation_length Hp).
  destruct (Nat.eqb (length data) 0); [reflexivity |].
  destruct (Nat.ltb_spec 1 (length data)) as [_|Hn].
  - now rewrite (np_mean_permutation data data' Hp), (ss_sem_permutation data data' Hp).
  - destruct data as [|x [|y data]]; simpl in Hn; try lia.
    + apply Permutation_nil in Hp. now subst.
    + apply Permutation_length_1_inv in Hp. now subst.
Qed.

Lemma mean_confidence_interval_permutation_witness :
  mean_confidence_interval t_quantile_two_dof [Fin 1; Fin 2; Fin 3] default_confidence =
  mean_confidence_interval t_quantile_two_dof [Fin 3; Fin 2; Fin 1] default_confidence.
Proof.
  apply (mean_confidence_interval_permutation t_quantile_two_dof
           [Fin 1; Fin 2; Fin 3] [Fin 3; Fin 2; Fin 1] default_confidence).
  apply Permutation_sym, (Permutation_rev [Fin 3; Fin 2; Fin 1]).
Defined.

(** On binary64 the order of the scores shows in the result: the scores
    0.1, 0.2, 0.3 have mean 0.20000000000000004, and in the reverse order
    0.19999999999999998. *)
Lemma mean_confidence_interval_order_binary64 :
  Permutation scores_ascending scores_descending /\
  forall ss_t_ppf : float -> nat -> float,
    mean_confidence_interval ss_t_ppf scores_ascending default_confidence <>
    mean_confidence_interval ss_t_ppf scores_descending default_confidence.
Proof.
  split.
  - apply (Permutation_rev scores_ascending).
  - intros ss_t_ppf Heq.
    apply (f_equal (fun r => match fst r with
                             | Some m => PrimFloat.eqb m 0.20000000000000004%float
                             | None => false
                             end)) in Heq.
    vm_compute in Heq. discriminate.
Qed.

(** Lists of at most one score have a single order, on any arithmetic. *)
Lemma mean_confidence_interval_permutation_short
    (F : Type) (A : Arith F) (ss_t_ppf : F -> nat -> F)
    (data data' : list F) (confidence : F) :
  length data <= 1 -> Permutation data data' ->
  mean_confidence_interval ss_t_ppf data confidence =
  mean_confidence_interval ss_t_ppf data' confidence.
Proof.
  intros Hn Hp. destruct data as [|x [|y data]]; simpl in Hn; try lia.
  - apply Permutation_nil in Hp. now subst.
  - apply Permutation_length_1_inv in Hp. now subst.
Qed.

(** ** The score functions *)

(** C10. In each score function the arg-max decoding comes before the
    guarded region: a one-dimensional [y_pred] makes the function raise the
    decoding error itself, while a length mismatch found after decoding is
    re-raised as the function's "score cannot be computed" error, which
    carries the cause. *)
Theorem decoding_precedes_error_wrapping :
  forall (F : Type) (A : Arith F) (y_true : list Z),
    (forall values : list F,
        accuracy y_true (Array1 values) = Raised (AxisError 1 1) /\
        macro_f1_score y_true (Array1 values) = Raised (AxisError 1 1) /\
        macro_precision y_true (Array1 values) = Raised (AxisError 1 1) /\
        macro_recall y_true (Array1 values) = Raised (AxisError 1 1)) /\
    (forall (y_pred : ndarray F) (labels : list Z),
        decode y_pred = Returned labels ->
        length y_true <> length labels ->
        accuracy y_true y_pred
          = Raised (ScoreError "accuracy"
                      (inconsistent_lengths (length y_true) (length labels))) /\
        macro_f1_score y_true y_pred
          = Raised (ScoreError "macro_f1_score"
                      (inconsistent_lengths (length y_true) (length labels))) /\
        macro_precision y_true y_pred
          = Raised (ScoreError "macro_precision"
                      (inconsistent_lengths (length y_true) (length labels))) /\
        macro_recall y_true y_pred
          = Raised (ScoreError "macro_recall"
                      (inconsistent_lengths (length y_true) (length labels)))).
Proof.
  intros F A y_true. split.
  - intros values. repeat split; reflexivity.
  - intros y_pred labels Hdec Hlen.
    unfold accuracy, macro_f1_score, macro_precision, macro_recall.
    rewrite Hdec. cbn [obind].
    unfold accuracy_score, f1_score, precision_score, recall_score,
      macro_average, checked_lengths.
    destruct (Nat.eqb_spec (length y_true) (length labels)) as [E|_]; [contradiction |].
    repeat split; reflexivity.
Qed.

Example accuracy_length_mismatch_binary64 :
  accuracy [0; 1; 1]%Z four_examples
    = Raised (ScoreError "accuracy"
                (ValueError "Found input variables with inconsistent numbers of samples: [3, 4]")).
Proof. vm_compute. reflexivity. Qed.

Example accuracy_one_dimensional_binary64 :
  accuracy [0]%Z (Array1 [0.5]%float) = Raised (AxisError 1 1).
Proof. reflexivity. Qed.

(** ** [compute_all_scores] *)

(** C5. When none of the four score functions fails on [(y_true, y_pred)],
    [compute_all_scores] returns a mapping whose keys are exactly Accuracy,
    Macro F1 Score, Macro Precision and Macro Recall, each bound to the
    value of its score function. *)
Theorem compute_all_scores_keys :
  forall (F : Type) (A : Arith F) (y_true : list Z) (y_pred : ndarray F)
         (a f p r : F),
    accuracy y_true y_pred = Returned a ->
    macro_f1_score y_true y_pred = Returned f ->
    macro_precision y_true y_pred = Returned p ->
    macro_recall y_true y_pred = Returned r ->
    exists scores : gmap string F,
      compute_all_scores y_true y_pred = Returned scores /\
      dom scores =
        ({["Accuracy"; "Macro F1 Score"; "Macro Precision"; "Macro Recall"]} : gset string) /\
      scores !! "Accuracy" = Some a /\
      scores !! "Macro F1 Score" = Some f /\
      scores !! "Macro Precision" = Some p /\
      scores !! "Macro Recall" = Some r.
Proof.
  intros F A y_true y_pred a f p r Ha Hf Hp Hr.
  unfold compute_all_scores, scoring, score_one. cbn [fold_left fst snd obind].
  rewrite Ha. cbn [obind]. rewrite Hf. cbn [obind].
  rewrite Hp. cbn [obind]. rewrite Hr. cbn [obind].
  eexists. split; [reflexivity |].
  split; [| repeat split; by simplify_map_eq].
  rewrite !dom_insert_L, dom_empty_L. set_solver.
Qed.

Lemma compute_all_scores_keys_witness :
  exists scores : gmap string float,
    compute_all_scores [0; 1; 1; 0]%Z four_examples = Returned scores /\
    dom scores =
      ({["Accuracy"; "Macro F1 Score"; "Macro Precision"; "Macro Recall"]} : gset string) /\
    scores !! "Accuracy" = Some 1%float /\
    scores !! "Macro F1 Score" = Some 1%float /\
    scores !! "Macro Precision" = Some 1%float /\
    scores !! "Macro Recall" = Some 1%float.
Proof.
  apply (compute_all_scores_keys float float_arith [0; 1; 1; 0]%Z four_examples);
    vm_compute; reflexivity.
Defined.

(** A failing score function stops the loop: the error of the first one that
    fails is the outcome. *)
Lemma compute_all_scores_propagates
    (F : Type) (A : Arith F) (y_true : list Z) (y_pred : ndarray F) (e : exn) :
  accuracy y_true y_pred = Raised e ->
  compute_all_scores y_true y_pred = Raised e.
Proof.
  intros Ha. unfold compute_all_scores, scoring, score_one.
  cbn [fold_left fst snd obind]. rewrite Ha. reflexivity.
Qed.

(** ** Arg-max decoding *)

Ltac xorder :=
  repeat match goal with x : xreal |- _ => destruct x end;
  simpl in *; try discriminate; try reflexivity;
  rewrite ?R_ltb_true, ?R_leb_true in *;
  repeat match goal with
         | H : R_leb _ _ = false |- _ => apply R_leb_false in H
         | H : R_ltb _ _ = false |- _ => apply R_ltb_false in H
         | H : R_leb _ _ = true |- _ => apply R_leb_true in H
         | H : R_ltb _ _ = true |- _ => apply R_ltb_true in H
         end;
  try lra.

Lemma xleb_refl x : xisnan x = false -> xleb x x = true.
Proof. intros. xorder. Qed.

Lemma xleb_false_xltb x y :
  xisnan x = false -> xisnan y = false -> xleb x y = false -> xltb y x = true.
Proof. intros. xorder. Qed.

Lemma xleb_xltb_trans x y z : xleb x y = true -> xltb y z = true -> xltb x z = true.
Proof. intros. xorder. Qed.

Lemma xltb_xleb x y : xltb x y = true -> xleb x y = true.
Proof. intros. xorder. Qed.

Lemma argmax_scan_first (rest : list xreal) :
  forall (pre : list xreal) (mp : xreal) (best : nat),
    Forall (fun x => xisnan x = false) rest ->
    pre !! best = Some mp ->
    (forall j x, pre !! j = Some x -> xleb x mp = true) ->
    (forall j x, j < best -> pre !! j = Some x -> xltb x mp = true) ->
    is_first_argmax (pre ++ rest) (argmax_scan mp best (length pre) rest).
Proof.
  induction rest as [|x rest IH]; intros pre mp best Hnn Hbest Hle Hlt.
  - rewrite app_nil_r. exists mp. auto.
  - apply Forall_cons in Hnn. destruct Hnn as [Hx Hnn].
    assert (Hlen : S (length pre) = length (pre ++ [x]))
      by (rewrite length_app; simpl; lia).
    rewrite (cons_middle x pre rest), app_assoc.
    cbn [argmax_scan]. xreal_ops. rewrite Hlen.
    destruct (xleb x mp) eqn:Exm.
    + apply IH; [assumption | | |].
      * apply lookup_app_l_Some. assumption.
      * intros j y Hj. apply lookup_app_Some in Hj.
        destruct Hj as [Hj | [_ Hj]]; [eauto |].
        apply list_lookup_singleton_Some in Hj. destruct Hj as [_ <-]. assumption.
      * intros j y Hjb Hj. apply lookup_app_Some in Hj.
        destruct Hj as [Hj | [Hge _]]; [eauto |].
        apply lookup_lt_Some in Hbest. lia.
    + rewrite Hx.
      assert (Hmp : xisnan mp = false).
      { destruct mp; try reflexivity. specialize (Hle _ _ Hbest). discriminate. }
      pose proof (xleb_false_xltb x mp Hx Hmp Exm) as Hgt.
      apply IH; [assumption | | |].
      * rewrite lookup_app_r by lia. now rewrite Nat.sub_diag.
      * intros j y Hj. apply lookup_app_Some in Hj.
        destruct Hj as [Hj | [_ Hj]].
        -- apply xltb_xleb. eapply xleb_xltb_trans; eauto.
        -- apply list_lookup_singleton_Some in Hj. destruct Hj as [_ <-].
           now apply xleb_refl.
      * intros j y Hjb Hj. apply lookup_app_Some in Hj.
        destruct Hj as [Hj | [Hge _]]; [| lia].
        eapply xleb_xltb_trans; eauto.
Qed.

Lemma argmax_row_first (row : list xreal) :
  row <> [] -> Forall (fun x => xisnan x = false) row ->
  is_first_argmax row (argmax_row row).
Proof.
  intros Hne Hnn. destruct row as [|x row]; [congruence |].
  apply Forall_cons in Hnn. destruct Hnn as [Hx Hnn].
  unfold argmax_row. xreal_ops. rewrite Hx.
  apply (argmax_scan_first row [x] x 0 Hnn); [reflexivity | |].
  - intros [|j] y Hj; simpl in Hj; [| discriminate].
    injection Hj as <-. now apply xleb_refl.
  - intros j y Hj. lia.
Qed.

Lemma argmax_rows_first (ncols : nat) (rows : list (list xreal)) :
  0 < ncols -> Forall (prediction_row ncols) rows ->
  Forall2 is_first_argmax rows (map argmax_row rows).
Proof.
  intros Hc. induction 1 as [|row rows [Hlen Hnn] _ IH]; simpl; constructor; [| exact IH].
  apply argmax_row_first; [| assumption].
  destruct row; [simpl in Hlen; lia | congruence].
Qed.


Lemma count_matches_same (labels : list Z) :
  count_matches labels labels = length labels.
Proof.
  unfold count_matches. induction labels as [|l labels IH]; simpl; [reflexivity |].
  rewrite Z.eqb_refl. simpl. now rewrite IH.
Qed.

Lemma checked_lengths_valid {A : Type} (y_true y_pred : list Z) (result : A) :
  length y_true = length y_pred -> y_true <> [] ->
  checked_lengths y_true y_pred result = Returned result.
Proof.
  intros Hlen Hne. unfold checked_lengths. rewrite <- Hlen, Nat.eqb_refl.
  destruct y_true; [congruence | reflexivity].
Qed.

Lemma checked_lengths_empty {A : Type} (result : A) :
  checked_lengths [] [] result = Raised empty_input.
Proof. reflexivity. Qed.

Lemma accuracy_score_exact (y_true y_pred : list Z) :
  length y_true = length y_pred -> y_true <> [] ->
  accuracy_score y_true y_pred
    = Returned (Fin (INR (count_matches y_true y_pred) / INR (length y_true))).
Proof.
  intros Hlen Hne. unfold accuracy_score.
  rewrite checked_lengths_valid by assumption. xreal_ops. f_equal.
  apply xdiv_fin, INR_pos_nonzero. destruct y_true; [congruence | simpl; lia].
Qed.

(** C6. Every score function first decodes [y_pred] row by row to the index
    of the first occurrence of the row's maximum, and passes the decoded
    labels on; accuracy is then the number of examples whose decoded label
    equals the true label over the number of examples.  Decoded labels
    0, 1, 1, 0 against the same true labels give accuracy 1, and decoded
    labels 1, 0 against true labels 0, 1 give accuracy 0. *)
Theorem decoding_and_accuracy :
  forall (y_true : list Z) (ncols : nat) (rows : list (list xreal)),
    0 < ncols ->
    Forall (prediction_row ncols) rows ->
    exists indices : list nat,
      let labels := map Z.of_nat indices in
      let y_pred := Array2 ncols rows in
      decode y_pred = Returned labels /\
      Forall2 is_first_argmax rows indices /\
      accuracy y_true y_pred
        = reraise_as_score_error "accuracy" (accuracy_score y_true labels) /\
      macro_f1_score y_true y_pred
        = reraise_as_score_error "macro_f1_score" (f1_score y_true labels) /\
      macro_precision y_true y_pred
        = reraise_as_score_error "macro_precision" (precision_score y_true labels) /\
      macro_recall y_true y_pred
        = reraise_as_score_error "macro_recall" (recall_score y_true labels) /\
      (length y_true = length rows -> y_true <> [] ->
       accuracy y_true y_pred
         = Returned (Fin (INR (count_matches y_true labels) / INR (length y_true)))) /\
      (y_true = [0; 1; 1; 0]%Z -> labels = [0; 1; 1; 0]%Z ->
       accuracy y_true y_pred = Returned (Fin 1)) /\
      (y_true = [0; 1]%Z -> labels = [1; 0]%Z ->
       accuracy y_true y_pred = Returned (Fin 0)).
Proof.
  intros y_true ncols rows Hc Hrows.
  exists (map argmax_row rows). cbn zeta.
  assert (Hdec : decode (Array2 ncols rows)
                 = Returned (map Z.of_nat (map argmax_row rows))).
  { unfold decode, np_argmax_axis1.
    destruct (Nat.eqb_spec ncols 0) as [E|_]; [lia | reflexivity]. }
  assert (Hacc : accuracy y_true (Array2 ncols rows)
                 = reraise_as_score_error "accuracy"
                     (accuracy_score y_true (map Z.of_nat (map argmax_row rows)))).
  { unfold accuracy. now rewrite Hdec. }
  split; [exact Hdec |].
  split; [now apply argmax_rows_first with ncols |].
  split; [exact Hacc |].
  split; [unfold macro_f1_score; now rewrite Hdec |].
  split; [unfold macro_precision; now rewrite Hdec |].
  split; [unfold macro_recall; now rewrite Hdec |].
  rewrite Hacc. split; [| split].
  - intros Hlen Hne.
    rewrite accuracy_score_exact by (rewrite ?length_map; assumption). reflexivity.
  - intros -> Hl. rewrite Hl. rewrite accuracy_score_exact by (reflexivity || discriminate).
    cbn [reraise_as_score_error]. do 2 f_equal.
    change (count_matches _ _) with 4. change (length _) with 4.
    apply Rinv_r, INR_pos_nonzero. lia.
  - intros -> Hl. rewrite Hl. rewrite accuracy_score_exact by (reflexivity || discriminate).
    cbn [reraise_as_score_error]. do 2 f_equal.
    change (count_matches _ _) with 0. change (INR 0) with 0%R. lra.
Qed.

Lemma R_leb_intro a b : (a <= b)%R -> R_leb a b = true.
Proof. apply R_leb_true. Qed.

Lemma R_leb_intro_false a b : (b < a)%R -> R_leb a b = false.
Proof. apply R_leb_false. Qed.

(** Evaluates the comparisons of an arg-max over finite literals. *)
Ltac xargmax :=
  unfold argmax_row;
  repeat (xreal_ops; cbn [xisnan argmax_scan xleb];
          try first [ rewrite R_leb_intro by lra | rewrite R_leb_intro_false by lra ]).

Example decode_four_exact_rows :
  decode (Array2 2 four_exact_rows) = Returned [0; 1; 1; 0]%Z.
Proof.
  unfold decode, np_argmax_axis1, four_exact_rows. cbn [Nat.eqb map obind].
  xargmax. reflexivity.
Qed.

(** Of two equal maxima the first is taken. *)
Example argmax_first_of_ties_exact :
  argmax_row [Fin 2; Fin 5; Fin 5; Fin 1] = 1.
Proof. xargmax. reflexivity. Qed.

Lemma decoding_and_accuracy_witness :
  exists indices : list nat,
    decode (Array2 2 four_exact_rows) = Returned (map Z.of_nat indices) /\
    Forall2 is_first_argmax four_exact_rows indices /\
    accuracy [0; 1; 1; 0]%Z (Array2 2 four_exact_rows) = Returned (Fin 1).
Proof.
  destruct (decoding_and_accuracy [0; 1; 1; 0]%Z 2 four_exact_rows) as
    [indices [Hdec [Hfirst [_ [_ [_ [_ [_ [Hone _]]]]]]]]].
  - lia.
  - repeat constructor.
  - exists indices. split; [exact Hdec |]. split; [exact Hfirst |].
    apply Hone; [reflexivity |].
    rewrite decode_four_exact_rows in Hdec. now injection Hdec as <-.
Defined.

Example accuracy_all_right_binary64 :
  decode four_examples = Returned [0; 1; 1; 0]%Z /\
  accuracy [0; 1; 1; 0]%Z four_examples = Returned 1%float.
Proof. split; vm_compute; reflexivity. Qed.

Example accuracy_all_wrong_binary64 :
  decode (Array2 2 [[0.2; 0.8]; [0.6; 0.4]]%float) = Returned [1; 0]%Z /\
  accuracy [0; 1]%Z (Array2 2 [[0.2; 0.8]; [0.6; 0.4]]%float) = Returned 0%float.
Proof. split; vm_compute; reflexivity. Qed.

Example argmax_first_of_ties_binary64 :
  argmax_row [0.25; 0.5; 0.5; 0.1]%float = 1.
Proof. vm_compute. reflexivity. Qed.

(** ** The range of the scores *)








Lemma unique_labels_nonempty (y_true y_pred : list Z) :
  y_true <> [] -> unique_labels y_true y_pred <> [].
Proof.
  intros Hne. unfold unique_labels.
  destruct y_true as [|t y_true]; [congruence |]. simpl.
  generalize (fold_right insert_label [] (y_true ++ y_pred)). intros labels.
  destruct labels as [|y labels]; simpl; [discriminate |].
  destruct (Z.ltb t y); [discriminate |]. destruct (Z.eqb t y); discriminate.
Qed.


Lemma arithmetic_mean_unit rs :
  rs <> [] -> Forall (fun r => 0 <= r <= 1)%R rs -> (0 <= arithmetic_mean rs <= 1)%R.
Proof.
  intros Hne Hrs. pose proof (Rsum_bounds rs Hrs) as Hb.
  assert (Hn : (0 < INR (length rs))%R).
  { apply lt_0_INR. destruct rs; [congruence | simpl; lia]. }
  unfold arithmetic_mean. split.
  - apply Rmult_le_pos; [lra | left; now apply Rinv_0_lt_compat].
  - apply Rmult_le_reg_r with (INR (length rs)); [exact Hn |].
    unfold Rdiv. rewrite Rmult_assoc, Rinv_l by lra. lra.
Qed.





(** A class that is never predicted: label 2 occurs among the true labels
    only, and contributes precision 0 to the macro average over the three
    classes (the other two have precision 1/2). *)
Example macro_precision_unpredicted_class_binary64 :
  macro_precision [0; 1; 0; 2]%Z four_examples = Returned (1 / 3)%float.
Proof. vm_compute. reflexivity. Qed.

(** ** [get_score] *)

Lemma get_score_unknown (scores_txt : string) :
  getattr module_namespace (strip (readline scores_txt)) = None ->
  get_score scores_txt
    = Raised (NotImplementedError
                ("In get_score, '" ++ strip (readline scores_txt) ++ "' not found")).
Proof. intros Hnone. unfold get_score. now rewrite Hnone. Qed.

Lemma get_score_bound (scores_txt : string) (a : module_attr) :
  getattr module_namespace (strip (readline scores_txt)) = Some a ->
  get_score scores_txt
    = Returned (title (replace_underscores (strip (readline scores_txt))), a).
Proof. intros Hsome. unfold get_score. now rewrite Hsome. Qed.

(** Only the first line of the file counts, without the white space around
    it. *)
Example get_score_first_line :
  get_score ("  macro_recall " ++ String "010" "accuracy")
    = Returned ("Macro Recall", ScoreFunction MacroRecall).
Proof. vm_compute. reflexivity. Qed.

(** The four score functions resolve by their exact names; the label is the
    name with underscores replaced by spaces, in title case. *)
Example get_score_known :
  get_score "accuracy" = Returned ("Accuracy", ScoreFunction Accuracy) /\
  get_score "macro_f1_score" = Returned ("Macro F1 Score", ScoreFunction MacroF1Score) /\
  get_score "macro_precision" = Returned ("Macro Precision", ScoreFunction MacroPrecision) /\
  get_score "macro_recall" = Returned ("Macro Recall", ScoreFunction MacroRecall).
Proof. repeat split; vm_compute; reflexivity. Qed.

(** Names are matched exactly: another capitalisation, or a name that is
    bound nowhere in the module, is refused. *)
Example get_score_no_fuzzy_matching :
  get_score "Accuracy" = Raised (NotImplementedError "In get_score, 'Accuracy' not found") /\
  get_score "f1" = Raised (NotImplementedError "In get_score, 'f1' not found") /\
  get_score "" = Raised (NotImplementedError "In get_score, '' not found").
Proof. repeat split; vm_compute; reflexivity. Qed.

(** C3. The lookup goes through every name bound in the module, not through
    the four score functions only: with [mkdir] or [accuracy_score] (the
    scikit-learn function the module imports) as the configured name,
    [get_score] returns that object as the scoring function and raises
    nothing. *)
Theorem get_score_resolves_any_module_name :
  get_score "mkdir" = Returned ("Mkdir", HelperFunction "mkdir") /\
  get_score "accuracy_score" = Returned ("Accuracy Score", ImportedName "accuracy_score").
Proof. split; vm_compute; reflexivity. Qed.

(** ** [create_heatmap] *)

Lemma heatmap_limits_empty_collection
    (F : Type) (A : Arith F) (data : gmap string (gmap string (list F)))
    (score_name : string) (keys : list string) :
  forall minimum maximum : F,
    (forall key, key ∈ keys -> exists values, scores_of data key score_name = Returned values) ->
    (exists key, key ∈ keys /\ scores_of data key score_name = Returned []) ->
    heatmap_limits data score_name keys minimum maximum
      = Raised (zero_size_reduction "minimum").
Proof.
  induction keys as [|key keys IH]; intros minimum maximum Hall [empty [Hin Hempty]].
  - inversion Hin.
  - cbn [heatmap_limits].
    destruct (Hall key) as [values Hvalues]; [left |].
    rewrite Hvalues. cbn [obind].
    destruct values as [|v values]; [reflexivity |]. cbn [np_min np_max obind].
    apply IH.
    + intros k Hk. apply Hall. now right.
    + exists empty. split; [| exact Hempty].
      apply elem_of_cons in Hin. destruct Hin as [-> | Hin]; [| exact Hin].
      rewrite Hvalues in Hempty. discriminate.
Qed.

Lemma scores_of_raises_library_error
    (F : Type) (A : Arith F) (data : gmap string (gmap string (list F)))
    (key score_name : string) (e : exn) :
  scores_of data key score_name = Raised e -> is_library_error e.
Proof.
  unfold scores_of. destruct (data !! key) as [per_score|]; [| now intros [= <-]].
  destruct (per_score !! score_name); [discriminate | now intros [= <-]].
Qed.

Lemma heatmap_limits_raises_library_error
    (F : Type) (A : Arith F) (data : gmap string (gmap string (list F)))
    (score_name : string) (keys : list string) :
  forall (minimum maximum : F) (e : exn),
    heatmap_limits data score_name keys minimum maximum = Raised e ->
    is_library_error e.
Proof.
  induction keys as [|key keys IH]; intros minimum maximum e; [discriminate |].
  cbn [heatmap_limits].
  destruct (scores_of data key score_name) as [values|e'] eqn:Hscores.
  - cbn [obind]. destruct values as [|v values]; [now intros [= <-] |].
    cbn [np_min np_max obind]. apply IH.
  - cbn [obind]. intros [= <-].
    now apply (scores_of_raises_library_error F A data key score_name).
Qed.

Lemma heatmap_rows_raises_library_error
    (F : Type) (A : Arith F) (data : gmap string (gmap string (list F)))
    (score_name : string) (bins : list F) (keys : list string) :
  forall e : exn,
    heatmap_rows data score_name bins keys = Raised e -> is_library_error e.
Proof.
  induction keys as [|key keys IH]; intros e; [discriminate |].
  cbn [heatmap_rows].
  destruct (scores_of data key score_name) as [values|e'] eqn:Hscores.
  - cbn [obind]. unfold np_histogram.
    destruct (decreases_somewhere bins); [now intros [= <-] |].
    cbn [obind]. destruct (heatmap_rows data score_name bins keys) as [rows|e'].
    + discriminate.
    + cbn [obind]. intros [= <-]. now apply IH.
  - cbn [obind]. intros [= <-].
    now apply (scores_of_raises_library_error F A data key score_name).
Qed.

(** C7, as amended. [create_heatmap] has no guard for this case and wraps no
    error.  With an empty list of keys the bounds stay at
    (+infinity, -infinity) and the function goes on to the bins and an empty
    grid, which it hands to the renderer; when the collection of a listed
    group is empty, the minimum raises numpy's zero-size reduction error;
    and whatever is raised on the way to the renderer is the error of numpy
    or of the dictionary look-up itself. *)
Theorem create_heatmap_unguarded :
  forall (F : Type) (A : Arith F) (data : gmap string (gmap string (list F)))
         (yticks : list string) (score_name title path : string),
    (heatmap_limits data score_name [] f_inf f_neg_inf = Returned (f_inf, f_neg_inf) /\
     exists figure,
       create_heatmap data [] yticks score_name title path = Returned figure /\
       hm_grid figure = [] /\
       hm_bins figure = np_linspace f_inf f_neg_inf 11) /\
    (forall keys : list string,
        (forall key, key ∈ keys ->
                     exists values, scores_of data key score_name = Returned values) ->
        (exists key, key ∈ keys /\ scores_of data key score_name = Returned []) ->
        create_heatmap data keys yticks score_name title path
          = Raised (zero_size_reduction "minimum")) /\
    (forall (keys : list string) (e : exn),
        create_heatmap data keys yticks score_name title path = Raised e ->
        is_library_error e).
Proof.
  intros F A data yticks score_name title path. split; [| split].
  - split; [reflexivity |]. eexists. split; [reflexivity |]. split; reflexivity.
  - intros keys Hall Hempty. unfold create_heatmap.
    now rewrite (heatmap_limits_empty_collection F A data score_name keys).
  - intros keys e. unfold create_heatmap.
    destruct (heatmap_limits data score_name keys f_inf f_neg_inf) as [limits|e'] eqn:Hl.
    + cbn [obind].
      destruct (heatmap_rows data score_name (np_linspace (fst limits) (snd limits) 11) keys)
        as [rows|e'] eqn:Hr; [discriminate |].
      cbn [obind]. intros [= <-].
      now apply (heatmap_rows_raises_library_error F A data score_name
                   (np_linspace (fst limits) (snd limits) 11) keys).
    + cbn [obind]. intros [= <-].
      now apply (heatmap_limits_raises_library_error F A data score_name keys f_inf f_neg_inf).
Qed.

(** On binary64, with no group at all: the bounds are the inverted pair
    (+infinity, -infinity), the bin edges are not-a-number up to the last
    one, and the function reaches the renderer with them and an empty grid;
    it has signalled no error. *)
Lemma create_heatmap_inverted_bounds_binary64 :
  heatmap_limits (∅ : gmap string (gmap string (list float))) "Accuracy" [] f_inf f_neg_inf
    = Returned (infinity, neg_infinity) /\
  exists figure,
    create_heatmap (∅ : gmap string (gmap string (list float))) [] []
      "Accuracy" "Frequency heatmap" "heatmap"
      = Returned figure /\
    hm_grid figure = [] /\
    map f_isnan (hm_bins figure)
      = [true; true; true; true; true; true; true; true; true; true; false].
Proof.
  split; [reflexivity |]. eexists. split; [reflexivity |].
  split; [reflexivity |]. vm_compute. reflexivity.
Qed.

(** An empty collection under a listed key: numpy's error, not wrapped. *)
Example create_heatmap_empty_collection_binary64 :
  create_heatmap empty_group ["a"] ["A"] "Accuracy" "Frequency heatmap" "heatmap"
    = Raised (ValueError
                "zero-size array to reduction operation minimum which has no identity").
Proof. vm_compute. reflexivity. Qed.

(** A group whose scores all coincide: minimum and maximum are equal, all
    bin edges coincide, the scores are counted in the last bin, and the
    function reaches the renderer. *)
Example create_heatmap_constant_group_binary64 :
  exists figure,
    create_heatmap constant_group ["a"] ["A"] "Accuracy" "Frequency heatmap" "heatmap"
      = Returned figure /\
    hm_bins figure = repeat 0.5%float 11 /\
    hm_grid figure = [[0; 0; 0; 0; 0; 0; 0; 0; 0; 2]%Z].
Proof.
  eexists. split; [vm_compute; reflexivity |]. split; vm_compute; reflexivity.
Qed.

Example create_heatmap_two_groups_binary64 :
  exists figure,
    create_heatmap two_groups ["a"; "b"] ["A"; "B"] "Accuracy" "Frequency heatmap" "heatmap"
      = Returned figure /\
    hm_grid figure = [ [1; 0; 0; 0; 0; 1; 0; 0; 0; 0];
                       [0; 1; 1; 0; 0; 0; 0; 0; 0; 1] ]%Z.
Proof. eexists. split; vm_compute; reflexivity. Qed.

(** On any arithmetic, binary64 included: when [create_heatmap] reaches the
    renderer, the bin edges are the eleven samples of [np.linspace] between
    the limits the loop found, and row [i] of the grid is the histogram of
    the collection of key [i] against those same edges. *)
Lemma heatmap_rows_in_key_order
    (F : Type) (A : Arith F) (data : gmap string (gmap string (list F)))
    (score_name : string) (bins : list F) (keys : list string) :
  forall rows : list (list Z),
    heatmap_rows data score_name bins keys = Returned rows ->
    Forall2 (fun key row =>
               exists values,
                 scores_of data key score_name = Returned values /\
                 np_histogram values bins = Returned row) keys rows.
Proof.
  induction keys as [|key keys IH]; intros rows.
  - intros [= <-]. constructor.
  - cbn [heatmap_rows].
    destruct (scores_of data key score_name) as [values|e] eqn:Hvalues; [| discriminate].
    cbn [obind]. destruct (np_histogram values bins) as [row|e] eqn:Hrow; [| discriminate].
    cbn [obind]. destruct (heatmap_rows data score_name bins keys) as [rows'|e]; [| discriminate].
    cbn [obind]. intros [= <-]. constructor; [| now apply IH].
    exists values. now split.
Qed.

Lemma create_heatmap_structure
    (F : Type) (A : Arith F) (data : gmap string (gmap string (list F)))
    (keys yticks : list string) (score_name title path : string)
    (figure : heatmap_figure F) :
  create_heatmap data keys yticks score_name title path = Returned figure ->
  exists minimum maximum,
    heatmap_limits data score_name keys f_inf f_neg_inf = Returned (minimum, maximum) /\
    hm_bins figure = np_linspace minimum maximum 11 /\
    length (hm_bins figure) = 11 /\
    Forall2 (fun key row =>
               exists values,
                 scores_of data key score_name = Returned values /\
                 np_histogram values (hm_bins figure) = Returned row)
      keys (hm_grid figure).
Proof.
  unfold create_heatmap.
  destruct (heatmap_limits data score_name keys f_inf f_neg_inf) as [[lo hi]|e];
    [| discriminate].
  cbn [obind fst snd].
  destruct (heatmap_rows data score_name (np_linspace lo hi 11) keys) as [rows|e] eqn:Hrows;
    [| discriminate].
  cbn [obind]. intros [= <-]. exists lo, hi. cbn [hm_bins hm_grid].
  split; [reflexivity |]. split; [reflexivity |]. split.
  - unfold np_linspace. destruct (f_eqb _ _); cbn; reflexivity.
  - now apply heatmap_rows_in_key_order.
Qed.

(** *** Limits in exact arithmetic *)

Lemma np_minimum_fin a b : np_minimum (Fin a) (Fin b) = Fin (Rmin a b).
Proof.
  unfold np_minimum, Rmin. xreal_ops. cbn [xleb xisnan]. unfold R_leb.
  destruct (Rle_dec a b); reflexivity.
Qed.

Lemma np_maximum_fin a b : np_maximum (Fin a) (Fin b) = Fin (Rmax a b).
Proof.
  unfold np_maximum, Rmax. xreal_ops. cbn [xleb xisnan]. unfold R_leb.
  destruct (Rle_dec b a) as [Hba|Hba], (Rle_dec a b) as [Hab|Hab];
    cbn [orb]; try reflexivity; f_equal; lra.
Qed.

Lemma fold_np_minimum_fin rs a :
  fold_left np_minimum (map Fin rs) (Fin a) = Fin (fold_left Rmin rs a).
Proof.
  revert a. induction rs as [|r rs IH]; intros a; simpl; [reflexivity |].
  now rewrite np_minimum_fin, IH.
Qed.

Lemma fold_np_maximum_fin rs a :
  fold_left np_maximum (map Fin rs) (Fin a) = Fin (fold_left Rmax rs a).
Proof.
  revert a. induction rs as [|r rs IH]; intros a; simpl; [reflexivity |].
  now rewrite np_maximum_fin, IH.
Qed.

Lemma fold_Rmin_least rs a :
  let m := fold_left Rmin rs a in
  (m <= a)%R /\ (forall r, r ∈ rs -> (m <= r)%R) /\ (m = a \/ m ∈ rs).
Proof.
  revert a. induction rs as [|x rs IH]; intros a; simpl.
  - split; [lra |]. split; [intros r Hr; inversion Hr | now left].
  - destruct (IH (Rmin a x)) as [Hle [Hall Hin]].
    pose proof (Rmin_l a x). pose proof (Rmin_r a x).
    split; [lra |]. split.
    + intros r Hr. apply elem_of_cons in Hr. destruct Hr as [-> | Hr]; [lra | auto].
    + destruct Hin as [Hin | Hin]; [| right; now right].
      rewrite Hin. unfold Rmin. destruct (Rle_dec a x); [now left | right; now left].
Qed.

Lemma fold_Rmax_greatest rs a :
  let m := fold_left Rmax rs a in
  (a <= m)%R /\ (forall r, r ∈ rs -> (r <= m)%R) /\ (m = a \/ m ∈ rs).
Proof.
  revert a. induction rs as [|x rs IH]; intros a; simpl.
  - split; [lra |]. split; [intros r Hr; inversion Hr | now left].
  - destruct (IH (Rmax a x)) as [Hle [Hall Hin]].
    pose proof (Rmax_l a x). pose proof (Rmax_r a x).
    split; [lra |]. split.
    + intros r Hr. apply elem_of_cons in Hr. destruct Hr as [-> | Hr]; [lra | auto].
    + destruct Hin as [Hin | Hin]; [| right; now right].
      rewrite Hin. unfold Rmax. destruct (Rle_dec a x); [right; now left | now left].
Qed.

Lemma py_min_fin a b : py_min (Fin a) (Fin b) = Fin (Rmin a b).
Proof.
  unfold py_min, Rmin. xreal_ops. cbn [xltb]. unfold R_ltb.
  destruct (Rlt_dec b a), (Rle_dec a b); try reflexivity; f_equal; lra.
Qed.

Lemma py_max_fin a b : py_max (Fin a) (Fin b) = Fin (Rmax a b).
Proof.
  unfold py_max, Rmax. xreal_ops. cbn [xltb]. unfold R_ltb.
  destruct (Rlt_dec a b), (Rle_dec a b); try reflexivity; f_equal; lra.
Qed.

(** One turn of the loop on a non-empty finite collection. *)
Lemma heatmap_limits_step data score_name key keys (rs : list R) minimum maximum :
  holds_scores data score_name key rs ->
  exists a b,
    is_minimum_of a rs /\ is_maximum_of b rs /\
    heatmap_limits data score_name (key :: keys) minimum maximum
      = heatmap_limits data score_name keys (py_min (Fin a) minimum) (py_max (Fin b) maximum).
Proof.
  intros [Hne Hscores]. destruct rs as [|r rs]; [congruence |].
  exists (fold_left Rmin rs r), (fold_left Rmax rs r).
  destruct (fold_Rmin_least rs r) as [Hle [Hall Hin]].
  destruct (fold_Rmax_greatest rs r) as [Hge [Hall' Hin']].
  split; [| split].
  - split.
    + destruct Hin as [-> | Hin]; [now left | now right].
    + intros x Hx. apply elem_of_cons in Hx. destruct Hx as [-> | Hx]; auto.
  - split.
    + destruct Hin' as [-> | Hin']; [now left | now right].
    + intros x Hx. apply elem_of_cons in Hx. destruct Hx as [-> | Hx]; auto.
  - cbn [heatmap_limits]. rewrite Hscores. cbn [obind map np_min np_max].
    now rewrite fold_np_minimum_fin, fold_np_maximum_fin.
Qed.

Lemma heatmap_limits_finite data score_name keys (collections : list (list R)) :
  Forall2 (holds_scores data score_name) keys collections ->
  forall lo0 hi0 : R,
    exists lo hi,
      heatmap_limits data score_name keys (Fin lo0) (Fin hi0) = Returned (Fin lo, Fin hi) /\
      (lo <= lo0)%R /\ (forall r, r ∈ concat collections -> (lo <= r)%R) /\
      (lo = lo0 \/ lo ∈ concat collections) /\
      (hi0 <= hi)%R /\ (forall r, r ∈ concat collections -> (r <= hi)%R) /\
      (hi = hi0 \/ hi ∈ concat collections).
Proof.
  induction 1 as [|key rs keys collections Hkey _ IH]; intros lo0 hi0.
  - exists lo0, hi0. cbn [heatmap_limits concat].
    repeat split; try lra; try (intros r Hr; inversion Hr); now left.
  - destruct (heatmap_limits_step data score_name key keys rs (Fin lo0) (Fin hi0) Hkey)
      as [a [b [[Ha Hamin] [[Hb Hbmax] ->]]]].
    rewrite py_min_fin, py_max_fin.
    destruct (IH (Rmin a lo0) (Rmax b hi0))
      as [lo [hi [-> [Hlo [Hlo_all [Hlo_in [Hhi [Hhi_all Hhi_in]]]]]]]].
    pose proof (Rmin_l a lo0). pose proof (Rmin_r a lo0).
    pose proof (Rmax_l b hi0). pose proof (Rmax_r b hi0).
    exists lo, hi. cbn [concat]. split; [reflexivity |].
    split; [lra |]. split; [| split; [| split; [lra | split]]].
    + intros r Hr. apply elem_of_app in Hr. destruct Hr as [Hr | Hr]; [| auto].
      specialize (Hamin r Hr). lra.
    + destruct Hlo_in as [-> | Hin]; [| right; apply elem_of_app; now right].
      unfold Rmin. destruct (Rle_dec a lo0); [right; apply elem_of_app; now left | now left].
    + intros r Hr. apply elem_of_app in Hr. destruct Hr as [Hr | Hr]; [| auto].
      specialize (Hbmax r Hr). lra.
    + destruct Hhi_in as [-> | Hin]; [| right; apply elem_of_app; now right].
      unfold Rmax. destruct (Rle_dec b hi0); [now left | right; apply elem_of_app; now left].
Qed.

(** From the initial bounds, with at least one group: the limits are the
    least and the greatest of all the scores of the listed groups. *)
Lemma heatmap_limits_global data score_name keys (collections : list (list R)) :
  keys <> [] ->
  Forall2 (holds_scores data score_name) keys collections ->
  exists lo hi,
    heatmap_limits data score_name keys f_inf f_neg_inf = Returned (Fin lo, Fin hi) /\
    is_minimum_of lo (concat collections) /\
    is_maximum_of hi (concat collections).
Proof.
  intros Hne Hall. destruct Hall as [|key rs keys collections Hkey Hrest]; [congruence |].
  destruct (heatmap_limits_step data score_name key keys rs f_inf f_neg_inf Hkey)
    as [a [b [[Ha Hamin] [[Hb Hbmax] ->]]]].
  change (py_min (Fin a) f_inf) with (Fin a).
  change (py_max (Fin b) f_neg_inf) with (Fin b).
  destruct (heatmap_limits_finite data score_name keys collections Hrest a b)
    as [lo [hi [-> [Hlo [Hlo_all [Hlo_in [Hhi [Hhi_all Hhi_in]]]]]]]].
  exists lo, hi. cbn [concat]. split; [reflexivity |]. split; split.
  - apply elem_of_app. destruct Hlo_in as [-> | Hin]; [now left | now right].
  - intros r Hr. apply elem_of_app in Hr. destruct Hr as [Hr | Hr]; [| auto].
    specialize (Hamin r Hr). lra.
  - apply elem_of_app. destruct Hhi_in as [-> | Hin]; [now left | now right].
  - intros r Hr. apply elem_of_app in Hr. destruct Hr as [Hr | Hr]; [| auto].
    specialize (Hbmax r Hr). lra.
Qed.

(** *** Shared bins and counts in exact arithmetic *)

(** Turns [INR] of a literal into the real literal. *)
Ltac inr_literals :=
  rewrite ?INR_IZR_INZ in *; cbv [Z.of_nat Pos.of_succ_nat Pos.succ] in *.

Lemma np_linspace_edges (lo hi : R) :
  np_linspace (Fin lo) (Fin hi) 11 = map Fin (shared_edges lo hi).
Proof.
  unfold np_linspace, shared_edges. xreal_ops.
  cbn [seq map Nat.sub xsub xneg xadd].
  rewrite (xdiv_fin (hi + - lo) (INR 10)) by (apply INR_pos_nonzero; lia).
  destruct (xeqb _ _).
  - rewrite !xdiv_fin by (apply INR_pos_nonzero; lia).
    cbn [map xmul xadd removelast app]. unfold bin_edge. inr_literals.
    repeat (apply (f_equal2 cons); [apply (f_equal Fin); lra |]). reflexivity.
  - cbn [map xmul xadd removelast app]. unfold bin_edge. inr_literals.
    repeat (apply (f_equal2 cons); [apply (f_equal Fin); lra |]). reflexivity.
Qed.

Lemma bin_edge_first lo hi : bin_edge lo hi 0 = lo.
Proof. unfold bin_edge. simpl. lra. Qed.

Lemma bin_edge_last lo hi : bin_edge lo hi 10 = hi.
Proof. unfold bin_edge. inr_literals. lra. Qed.

Lemma bin_edge_width lo hi k :
  (bin_edge lo hi (S k) - bin_edge lo hi k = (hi - lo) / 10)%R.
Proof. unfold bin_edge. rewrite S_INR. lra. Qed.

Lemma shared_edges_nondecreasing lo hi : (lo <= hi)%R -> nondecreasing (shared_edges lo hi).
Proof.
  intros Hle. unfold shared_edges. cbn [seq map nondecreasing].
  assert (Hw : (0 <= (hi - lo) / 10)%R) by lra.
  repeat split; pose proof bin_edge_width lo hi as Hk;
    match goal with
    | |- (bin_edge _ _ ?k <= bin_edge _ _ (S ?k))%R => specialize (Hk k); lra
    end.
Qed.

Lemma searchsorted_left_fin rs e :
  searchsorted_left (map Fin rs) (Fin e) = count_if (fun r => R_ltb r e) rs.
Proof.
  unfold searchsorted_left, count_if. f_equal.
  induction rs as [|r rs IH]; simpl; [reflexivity |].
  unfold sort_lt at 1. xreal_ops. cbn [xltb xisnan andb]. rewrite orb_false_r.
  destruct (R_ltb r e); simpl; now rewrite IH.
Qed.

Lemma searchsorted_right_fin rs e :
  searchsorted_right (map Fin rs) (Fin e) = count_if (fun r => R_leb r e) rs.
Proof.
  unfold searchsorted_right, count_if. f_equal.
  induction rs as [|r rs IH]; simpl; [reflexivity |].
  unfold sort_lt at 1. xreal_ops. cbn [xltb xisnan andb]. rewrite orb_false_r.
  assert (E : negb (R_ltb e r) = R_leb r e).
  { unfold R_ltb, R_leb. destruct (Rlt_dec e r), (Rle_dec r e); try reflexivity; lra. }
  rewrite E. destruct (R_leb r e); simpl; now rewrite IH.
Qed.

Lemma count_if_cons p r rs :
  count_if p (r :: rs) = ((if p r then 1 else 0) + count_if p rs)%Z.
Proof. unfold count_if. simpl. destruct (p r); simpl; lia. Qed.

Lemma count_half_open rs a b :
  (a <= b)%R ->
  (count_if (fun r => R_ltb r b) rs - count_if (fun r => R_ltb r a) rs)%Z
  = count_if (fun r => R_leb a r && R_ltb r b) rs.
Proof.
  intros Hab. induction rs as [|r rs IH]; [reflexivity |].
  rewrite !count_if_cons, <- IH.
  destruct (R_ltb r b) eqn:Eb, (R_ltb r a) eqn:Ea, (R_leb a r) eqn:El; simpl;
    try lia; exfalso; xorder.
Qed.

Lemma count_closed rs a b :
  (a <= b)%R ->
  (count_if (fun r => R_leb r b) rs - count_if (fun r => R_ltb r a) rs)%Z
  = count_if (fun r => R_leb a r && R_leb r b) rs.
Proof.
  intros Hab. induction rs as [|r rs IH]; [reflexivity |].
  rewrite !count_if_cons, <- IH.
  destruct (R_leb r b) eqn:Eb, (R_ltb r a) eqn:Ea, (R_leb a r) eqn:El; simpl;
    try lia; exfalso; xorder.
Qed.

Lemma decreases_somewhere_fin (edges : list R) :
  nondecreasing edges -> decreases_somewhere (map Fin edges) = false.
Proof.
  induction edges as [|a [|b edges] IH]; intros Hnd; try reflexivity.
  destruct Hnd as [Hab Hnd]. specialize (IH Hnd).
  change (decreases_somewhere (map Fin (a :: b :: edges)))
    with (f_ltb (Fin b) (Fin a) || decreases_somewhere (map Fin (b :: edges))).
  rewrite IH. xreal_ops. cbn [xltb]. rewrite orb_false_r. now apply R_ltb_false.
Qed.

Lemma cumulative_counts_cons (rs : list xreal) (a b : xreal) (edges : list xreal) :
  map (searchsorted_left rs) (removelast (a :: b :: edges))
    ++ map (searchsorted_right rs) (skipn (length (a :: b :: edges) - 1) (a :: b :: edges))
  = searchsorted_left rs a ::
      (map (searchsorted_left rs) (removelast (b :: edges))
         ++ map (searchsorted_right rs) (skipn (length (b :: edges) - 1) (b :: edges))).
Proof.
  change (removelast (a :: b :: edges)) with (a :: removelast (b :: edges)).
  cbn [length Nat.sub skipn map app]. now rewrite Nat.sub_0_r.
Qed.

Lemma np_diff_cons (x y : Z) (t : list Z) :
  np_diff (x :: y :: t) = (y - x)%Z :: np_diff (y :: t).
Proof. reflexivity. Qed.

Lemma np_histogram_counts (rs : list R) (edges : list R) :
  nondecreasing edges ->
  np_histogram (map Fin rs) (map Fin edges) = Returned (bin_counts rs edges).
Proof.
  intros Hnd. unfold np_histogram. rewrite decreases_somewhere_fin by assumption.
  f_equal. induction edges as [|a [|b edges] IH].
  - reflexivity.
  - reflexivity.
  - destruct Hnd as [Hab Hnd]. specialize (IH Hnd).
    change (map Fin (a :: b :: edges)) with (Fin a :: Fin b :: map Fin edges).
    rewrite cumulative_counts_cons.
    destruct edges as [|c edges].
    + cbn. rewrite searchsorted_left_fin, searchsorted_right_fin.
      now rewrite count_closed.
    + change (bin_counts rs (a :: b :: c :: edges))
        with (count_if (fun r => R_leb a r && R_ltb r b) rs
                :: bin_counts rs (b :: c :: edges)).
      rewrite <- IH. cbn [map].
      rewrite !(cumulative_counts_cons (map Fin rs) (Fin b) (Fin c)), np_diff_cons.
      f_equal. rewrite !searchsorted_left_fin. now apply count_half_open.
Qed.

Lemma heatmap_rows_counts data score_name keys (collections : list (list R)) edges :
  nondecreasing edges ->
  Forall2 (holds_scores data score_name) keys collections ->
  heatmap_rows data score_name (map Fin edges) keys
    = Returned (map (fun rs => bin_counts rs edges) collections).
Proof.
  intros Hnd. induction 1 as [|key rs keys collections [_ Hscores] _ IH].
  - reflexivity.
  - cbn [heatmap_rows]. rewrite Hscores. cbn [obind].
    rewrite np_histogram_counts by assumption. cbn [obind].
    rewrite IH. reflexivity.
Qed.

(** *** The order of binary64 and of exact arithmetic *)

Ltac sf_compare :=
  repeat match goal with
         | |- context [(?a ?= ?b)%Z] => destruct (Z.compare_spec a b)
         | H : context [(?a ?= ?b)%Z] |- _ => destruct (Z.compare_spec a b)
         | |- context [Pos.compare_cont Eq ?a ?b] =>
             change (Pos.compare_cont Eq a b) with (Pos.compare a b);
             destruct (Pos.compare_spec a b)
         | H : context [Pos.compare_cont Eq ?a ?b] |- _ =>
             change (Pos.compare_cont Eq a b) with (Pos.compare a b) in H;
             destruct (Pos.compare_spec a b)
         end;
  cbn in *; try discriminate; try reflexivity; try lia.

Lemma SFleb_trans x y z : SFleb x y = true -> SFleb y z = true -> SFleb x z = true.
Proof.
  unfold SFleb.
  destruct x as [[]|[]| |[] m1 e1], y as [[]|[]| |[] m2 e2], z as [[]|[]| |[] m3 e3];
    cbn; try discriminate; try reflexivity; intros H1 H2; sf_compare.
Qed.

Lemma SFltb_SFleb x y :
  SFeqb x x = true -> SFeqb y y = true -> SFltb x y = negb (SFleb y x).
Proof.
  unfold SFltb, SFleb, SFeqb.
  destruct x as [[]|[]| |[] m1 e1], y as [[]|[]| |[] m2 e2];
    cbn; try discriminate; try reflexivity; intros _ _; sf_compare.
Qed.

Lemma SFcompare_nan x y :
  SFeqb x x = false ->
  SFleb x y = false /\ SFleb y x = false /\ SFltb x y = false /\ SFltb y x = false.
Proof.
  unfold SFltb, SFleb, SFeqb.
  destruct x as [[]|[]| |[] m1 e1]; cbn; try discriminate.
  - intros _. destruct y as [[]|[]| |[] m2 e2]; repeat split; reflexivity.
  - rewrite Z.compare_refl. change (Pos.compare_cont Eq m1 m1) with (Pos.compare m1 m1).
    rewrite Pos.compare_refl. discriminate.
  - rewrite Z.compare_refl. change (Pos.compare_cont Eq m1 m1) with (Pos.compare m1 m1).
    rewrite Pos.compare_refl. discriminate.
Qed.

Lemma SFltb_weaken x y : SFltb x y = true -> SFleb x y = true.
Proof. unfold SFltb, SFleb. destruct (SFcompare x y) as [[]|]; congruence. Qed.

Lemma ordered_binary64 : ordered_arith float.
Proof.
  split; cbn [f_leb f_ltb f_isnan f_inf f_neg_inf float_arith].
  - intros x y z. rewrite !FloatAxioms.leb_spec. apply SFleb_trans.
  - intros x y Hx Hy. apply negb_false_iff in Hx, Hy. rewrite FloatAxioms.eqb_spec in Hx, Hy.
    rewrite FloatAxioms.ltb_spec, FloatAxioms.leb_spec. now apply SFltb_SFleb.
  - intros x y. rewrite FloatAxioms.ltb_spec, FloatAxioms.leb_spec. apply SFltb_weaken.
  - intros x y Hx. apply negb_true_iff in Hx. rewrite FloatAxioms.eqb_spec in Hx.
    rewrite !FloatAxioms.ltb_spec, !FloatAxioms.leb_spec. now apply SFcompare_nan.
  - intros x. rewrite FloatAxioms.ltb_spec. change (Prim2SF infinity) with (S754_infinity false).
    unfold SFltb. destruct (Prim2SF x) as [[]|[]| |[] m e]; reflexivity.
  - intros x. rewrite FloatAxioms.ltb_spec. change (Prim2SF neg_infinity) with (S754_infinity true).
    unfold SFltb. destruct (Prim2SF x) as [[]|[]| |[] m e]; reflexivity.
Qed.

Lemma ordered_exact : ordered_arith xreal.
Proof.
  split; cbn [f_leb f_ltb f_isnan f_inf f_neg_inf xreal_arith].
  - intros [a| | |] [b| | |] [c| | |]; cbn; try discriminate; try reflexivity.
    rewrite !R_leb_true. lra.
  - intros [a| | |] [b| | |]; cbn; try discriminate; try reflexivity. intros _ _.
    destruct (R_leb b a) eqn:E; cbn.
    + apply R_leb_true in E. apply R_ltb_false. exact E.
    + apply R_leb_false in E. apply R_ltb_true. exact E.
  - intros [a| | |] [b| | |]; cbn; try discriminate; try reflexivity.
    rewrite R_ltb_true, R_leb_true. lra.
  - intros [a| | |] y; cbn; try discriminate. intros _.
    destruct y; repeat split; reflexivity.
  - intros [a| | |]; reflexivity.
  - intros [a| | |]; reflexivity.
Qed.

(** *** Limits and counts in the order of the arithmetic *)

Section OrderedHeatmap.
Context {F : Type} `{Arith F} (Hord : ordered_arith F).

Lemma f_leb_total (x y : F) :
  f_isnan x = false -> f_isnan y = false -> f_leb x y = true \/ f_leb y x = true.
Proof.
  intros Hx Hy. destruct (f_leb y x) eqn:E; [now right | left].
  apply (f_ltb_leb F Hord). rewrite (f_ltb_not_leb F Hord) by assumption.
  now rewrite E.
Qed.

Lemma f_leb_refl (x : F) : f_isnan x = false -> f_leb x x = true.
Proof. intros Hx. now destruct (f_leb_total x x Hx Hx). Qed.

Lemma np_minimum_least (a b : F) :
  f_isnan a = false -> f_isnan b = false ->
  (np_minimum a b = a \/ np_minimum a b = b) /\
  f_leb (np_minimum a b) a = true /\ f_leb (np_minimum a b) b = true.
Proof.
  intros Ha Hb. unfold np_minimum. rewrite Ha, orb_false_r.
  destruct (f_leb a b) eqn:E.
  - split; [now left |]. split; [now apply f_leb_refl | exact E].
  - split; [now right |]. split; [| now apply f_leb_refl].
    destruct (f_leb_total a b Ha Hb); congruence.
Qed.

Lemma np_maximum_greatest (a b : F) :
  f_isnan a = false -> f_isnan b = false ->
  (np_maximum a b = a \/ np_maximum a b = b) /\
  f_leb a (np_maximum a b) = true /\ f_leb b (np_maximum a b) = true.
Proof.
  intros Ha Hb. unfold np_maximum. rewrite Ha, orb_false_r.
  destruct (f_leb b a) eqn:E.
  - split; [now left |]. split; [now apply f_leb_refl | exact E].
  - split; [now right |]. split; [| now apply f_leb_refl].
    destruct (f_leb_total a b Ha Hb); congruence.
Qed.

Lemma fold_np_minimum_least (values : list F) :
  forall acc : F,
    f_isnan acc = false -> Forall (fun v => f_isnan v = false) values ->
    least_of (fold_left np_minimum values acc) (acc :: values).
Proof.
  induction values as [|b values IH]; intros acc Hacc Hvalues; cbn [fold_left].
  - split; [apply list_elem_of_here |].
    intros v Hv. apply list_elem_of_singleton in Hv. subst v. now apply f_leb_refl.
  - apply Forall_cons in Hvalues. destruct Hvalues as [Hb Hvalues].
    destruct (np_minimum_least acc b Hacc Hb) as [Hin [Hle_acc Hle_b]].
    assert (Hnan : f_isnan (np_minimum acc b) = false) by (destruct Hin as [-> | ->]; assumption).
    destruct (IH (np_minimum acc b) Hnan Hvalues) as [Hmem Hleast].
    split.
    + apply elem_of_cons in Hmem. destruct Hmem as [-> | Hmem].
      * destruct Hin as [-> | ->]; [apply list_elem_of_here |].
        apply list_elem_of_further, list_elem_of_here.
      * now do 2 apply list_elem_of_further.
    + intros v Hv.
      assert (Hfirst : f_leb (fold_left np_minimum values (np_minimum acc b))
                         (np_minimum acc b) = true)
        by (apply Hleast, list_elem_of_here).
      apply elem_of_cons in Hv. destruct Hv as [-> | Hv].
      * exact (f_leb_trans F Hord _ _ _ Hfirst Hle_acc).
      * apply elem_of_cons in Hv. destruct Hv as [-> | Hv].
        -- exact (f_leb_trans F Hord _ _ _ Hfirst Hle_b).
        -- now apply Hleast, list_elem_of_further.
Qed.

Lemma fold_np_maximum_greatest (values : list F) :
  forall acc : F,
    f_isnan acc = false -> Forall (fun v => f_isnan v = false) values ->
    greatest_of (fold_left np_maximum values acc) (acc :: values).
Proof.
  induction values as [|b values IH]; intros acc Hacc Hvalues; cbn [fold_left].
  - split; [apply list_elem_of_here |].
    intros v Hv. apply list_elem_of_singleton in Hv. subst v. now apply f_leb_refl.
  - apply Forall_cons in Hvalues. destruct Hvalues as [Hb Hvalues].
    destruct (np_maximum_greatest acc b Hacc Hb) as [Hin [Hle_acc Hle_b]].
    assert (Hnan : f_isnan (np_maximum acc b) = false) by (destruct Hin as [-> | ->]; assumption).
    destruct (IH (np_maximum acc b) Hnan Hvalues) as [Hmem Hgreatest].
    split.
    + apply elem_of_cons in Hmem. destruct Hmem as [-> | Hmem].
      * destruct Hin as [-> | ->]; [apply list_elem_of_here |].
        apply list_elem_of_further, list_elem_of_here.
      * now do 2 apply list_elem_of_further.
    + intros v Hv.
      assert (Hfirst : f_leb (np_maximum acc b)
                         (fold_left np_maximum values (np_maximum acc b)) = true)
        by (apply Hgreatest, list_elem_of_here).
      apply elem_of_cons in Hv. destruct Hv as [-> | Hv].
      * exact (f_leb_trans F Hord _ _ _ Hle_acc Hfirst).
      * apply elem_of_cons in Hv. destruct Hv as [-> | Hv].
        -- exact (f_leb_trans F Hord _ _ _ Hle_b Hfirst).
        -- now apply Hgreatest, list_elem_of_further.
Qed.

Lemma np_min_least (values : list F) :
  values <> [] -> Forall (fun v => f_isnan v = false) values ->
  exists m, np_min values = Returned m /\ least_of m values.
Proof.
  intros Hne Hvalues. destruct values as [|x values]; [congruence |].
  apply Forall_cons in Hvalues. destruct Hvalues as [Hx Hvalues].
  eexists. split; [reflexivity |]. now apply fold_np_minimum_least.
Qed.

Lemma np_max_greatest (values : list F) :
  values <> [] -> Forall (fun v => f_isnan v = false) values ->
  exists m, np_max values = Returned m /\ greatest_of m values.
Proof.
  intros Hne Hvalues. destruct values as [|x values]; [congruence |].
  apply Forall_cons in Hvalues. destruct Hvalues as [Hx Hvalues].
  eexists. split; [reflexivity |]. now apply fold_np_maximum_greatest.
Qed.

Lemma least_of_number (m : F) (values : list F) :
  Forall (fun v => f_isnan v = false) values -> least_of m values -> f_isnan m = false.
Proof.
  intros Hvalues [Hm _]. rewrite List.Forall_forall in Hvalues.
  apply Hvalues. now apply list_elem_of_In.
Qed.

Lemma greatest_of_number (m : F) (values : list F) :
  Forall (fun v => f_isnan v = false) values -> greatest_of m values -> f_isnan m = false.
Proof.
  intros Hvalues [Hm _]. rewrite List.Forall_forall in Hvalues.
  apply Hvalues. now apply list_elem_of_In.
Qed.

(** One turn of the loop keeps [minimum] the least and [maximum] the
    greatest of the scores seen so far. *)
Lemma py_min_least (lowest minimum : F) (values seen : list F) :
  Forall (fun v => f_isnan v = false) values ->
  Forall (fun v => f_isnan v = false) seen ->
  least_of lowest values -> least_of minimum seen ->
  least_of (py_min lowest minimum) (seen ++ values).
Proof.
  intros Hvalues Hseen Hlow Hmin.
  pose proof (least_of_number _ _ Hvalues Hlow) as Hlow_n.
  pose proof (least_of_number _ _ Hseen Hmin) as Hmin_n.
  destruct Hlow as [Hlow_in Hlow], Hmin as [Hmin_in Hmin].
  unfold py_min. destruct (f_ltb minimum lowest) eqn:E.
  - apply (f_ltb_leb F Hord) in E. split; [apply elem_of_app; now left |].
    intros v Hv. apply elem_of_app in Hv. destruct Hv as [Hv | Hv]; [now apply Hmin |].
    exact (f_leb_trans F Hord _ _ _ E (Hlow v Hv)).
  - rewrite (f_ltb_not_leb F Hord) in E by assumption. apply negb_false_iff in E.
    split; [apply elem_of_app; now right |].
    intros v Hv. apply elem_of_app in Hv. destruct Hv as [Hv | Hv]; [| now apply Hlow].
    exact (f_leb_trans F Hord _ _ _ E (Hmin v Hv)).
Qed.

Lemma py_max_greatest (highest maximum : F) (values seen : list F) :
  Forall (fun v => f_isnan v = false) values ->
  Forall (fun v => f_isnan v = false) seen ->
  greatest_of highest values -> greatest_of maximum seen ->
  greatest_of (py_max highest maximum) (seen ++ values).
Proof.
  intros Hvalues Hseen Hhigh Hmax.
  pose proof (greatest_of_number _ _ Hvalues Hhigh) as Hhigh_n.
  pose proof (greatest_of_number _ _ Hseen Hmax) as Hmax_n.
  destruct Hhigh as [Hhigh_in Hhigh], Hmax as [Hmax_in Hmax].
  unfold py_max. destruct (f_ltb highest maximum) eqn:E.
  - apply (f_ltb_leb F Hord) in E. split; [apply elem_of_app; now left |].
    intros v Hv. apply elem_of_app in Hv. destruct Hv as [Hv | Hv]; [now apply Hmax |].
    exact (f_leb_trans F Hord _ _ _ (Hhigh v Hv) E).
  - rewrite (f_ltb_not_leb F Hord) in E by assumption. apply negb_false_iff in E.
    split; [apply elem_of_app; now right |].
    intros v Hv. apply elem_of_app in Hv. destruct Hv as [Hv | Hv]; [| now apply Hhigh].
    exact (f_leb_trans F Hord _ _ _ (Hmax v Hv) E).
Qed.

Lemma heatmap_limits_seen data score_name keys (collections : list (list F)) :
  Forall2 (holds_values data score_name) keys collections ->
  forall (minimum maximum : F) (seen : list F),
    Forall (fun v => f_isnan v = false) seen ->
    least_of minimum seen -> greatest_of maximum seen ->
    exists lo hi,
      heatmap_limits data score_name keys minimum maximum = Returned (lo, hi) /\
      least_of lo (seen ++ concat collections) /\
      greatest_of hi (seen ++ concat collections).
Proof.
  induction 1 as [|key values keys collections [Hne [Hvalues Hscores]] _ IH];
    intros minimum maximum seen Hseen Hmin Hmax.
  - exists minimum, maximum. cbn [concat]. rewrite app_nil_r.
    split; [reflexivity | split; assumption].
  - cbn [heatmap_limits concat]. rewrite Hscores. cbn [obind].
    destruct (np_min_least values Hne Hvalues) as [lowest [-> Hlow]].
    destruct (np_max_greatest values Hne Hvalues) as [highest [-> Hhigh]].
    cbn [obind]. rewrite app_assoc. apply IH.
    + apply Forall_app. now split.
    + now apply py_min_least.
    + now apply py_max_greatest.
Qed.

(** From the infinities the loop starts with, the first group sets both
    limits; with at least one key the limits are the least and the greatest
    of all the scores of the listed groups. *)
Lemma heatmap_limits_ordered data score_name keys (collections : list (list F)) :
  keys <> [] ->
  Forall2 (holds_values data score_name) keys collections ->
  exists lo hi,
    heatmap_limits data score_name keys f_inf f_neg_inf = Returned (lo, hi) /\
    least_of lo (concat collections) /\
    greatest_of hi (concat collections).
Proof.
  intros Hkeys Hall.
  destruct Hall as [|key values keys collections [Hne [Hvalues Hscores]] Hall];
    [congruence |].
  cbn [heatmap_limits concat]. rewrite Hscores. cbn [obind].
  destruct (np_min_least values Hne Hvalues) as [lowest [-> Hlow]].
  destruct (np_max_greatest values Hne Hvalues) as [highest [-> Hhigh]].
  cbn [obind].
  assert (Emin : py_min lowest f_inf = lowest)
    by (unfold py_min; now rewrite (f_inf_greatest F Hord)).
  assert (Emax : py_max highest f_neg_inf = highest)
    by (unfold py_max; now rewrite (f_neg_inf_least F Hord)).
  rewrite Emin, Emax.
  now apply (heatmap_limits_seen data score_name keys collections Hall).
Qed.
End OrderedHeatmap.

Section OrderedCounts.
Context {F : Type} `{Arith F} (Hord : ordered_arith F).

Lemma count_where_cons (p : F -> bool) (v : F) (values : list F) :
  count_where p (v :: values) = ((if p v then 1 else 0) + count_where p values)%Z.
Proof. unfold count_where. cbn [List.filter]. destruct (p v); cbn [length]; lia. Qed.

Lemma searchsorted_left_count (values : list F) (e : F) :
  f_isnan e = false ->
  searchsorted_left values e = count_where (fun v => f_ltb v e) values.
Proof.
  intros He. unfold searchsorted_left, count_where. do 2 f_equal.
  apply List.filter_ext. intros v. unfold sort_lt. rewrite He. apply orb_false_r.
Qed.

Lemma searchsorted_right_count (values : list F) (e : F) :
  Forall (fun v => f_isnan v = false) values -> f_isnan e = false ->
  searchsorted_right values e = count_where (fun v => f_leb v e) values.
Proof.
  intros Hvalues He. unfold searchsorted_right, count_where. do 2 f_equal.
  apply List.filter_ext_in. intros v Hv.
  rewrite List.Forall_forall in Hvalues. specialize (Hvalues v Hv).
  unfold sort_lt. rewrite Hvalues. cbn [andb]. rewrite orb_false_r.
  rewrite (f_ltb_not_leb F Hord) by assumption. apply negb_involutive.
Qed.

Lemma count_half_open_where (values : list F) (a b : F) :
  Forall (fun v => f_isnan v = false) values ->
  f_isnan a = false -> f_isnan b = false -> f_ltb b a = false ->
  (count_where (fun v => f_ltb v b) values - count_where (fun v => f_ltb v a) values)%Z
  = count_where (fun v => f_leb a v && f_ltb v b) values.
Proof.
  intros Hvalues Ha Hb Hab.
  rewrite (f_ltb_not_leb F Hord) in Hab by assumption. apply negb_false_iff in Hab.
  induction Hvalues as [|v values Hv _ IH]; [reflexivity |].
  rewrite !count_where_cons, <- IH.
  rewrite !(f_ltb_not_leb F Hord v) by assumption.
  destruct (f_leb a v) eqn:Ea, (f_leb b v) eqn:Eb; cbn [negb andb]; try lia.
  exfalso. pose proof (f_leb_trans F Hord _ _ _ Hab Eb). congruence.
Qed.

Lemma count_closed_where (values : list F) (a b : F) :
  Forall (fun v => f_isnan v = false) values ->
  f_isnan a = false -> f_isnan b = false -> f_ltb b a = false ->
  (count_where (fun v => f_leb v b) values - count_where (fun v => f_ltb v a) values)%Z
  = count_where (fun v => f_leb a v && f_leb v b) values.
Proof.
  intros Hvalues Ha Hb Hab.
  rewrite (f_ltb_not_leb F Hord) in Hab by assumption. apply negb_false_iff in Hab.
  induction Hvalues as [|v values Hv _ IH]; [reflexivity |].
  rewrite !count_where_cons, <- IH.
  rewrite !(f_ltb_not_leb F Hord v) by assumption.
  destruct (f_leb a v) eqn:Ea, (f_leb v b) eqn:Eb; cbn [negb andb]; try lia.
  exfalso. destruct (f_leb_total Hord a v Ha Hv) as [E|E]; [congruence |].
  pose proof (f_leb_trans F Hord _ _ _ E Hab). congruence.
Qed.

Lemma cumulative_counts_step (values : list F) (a b : F) (bins : list F) :
  map (searchsorted_left values) (removelast (a :: b :: bins))
    ++ map (searchsorted_right values)
         (skipn (length (a :: b :: bins) - 1) (a :: b :: bins))
  = searchsorted_left values a ::
      (map (searchsorted_left values) (removelast (b :: bins))
         ++ map (searchsorted_right values)
              (skipn (length (b :: bins) - 1) (b :: bins))).
Proof.
  change (removelast (a :: b :: bins)) with (a :: removelast (b :: bins)).
  cbn [length Nat.sub skipn map app]. now rewrite Nat.sub_0_r.
Qed.

(** What [np.histogram] counts: whenever it accepts the edges, and neither
    a value nor an edge is not-a-number, entry [k] of its result is the
    number of values in bin [k]. *)
Lemma np_histogram_counts_in (values bins : list F) (counts : list Z) :
  Forall (fun v => f_isnan v = false) values ->
  Forall (fun e => f_isnan e = false) bins ->
  np_histogram values bins = Returned counts ->
  counts = counts_in values bins.
Proof.
  intros Hvalues Hbins. unfold np_histogram.
  destruct (decreases_somewhere bins) eqn:Hdec; [discriminate |].
  intros [= <-]. revert Hdec.
  induction Hbins as [|a bins Ha Hbins IH]; [reflexivity |].
  destruct bins as [|b bins]; [reflexivity |]. intros Hdec.
  change (decreases_somewhere (a :: b :: bins))
    with (f_ltb b a || decreases_somewhere (b :: bins)) in Hdec.
  apply orb_false_elim in Hdec. destruct Hdec as [Hab Hdec].
  specialize (IH Hdec).
  pose proof (Forall_inv Hbins) as Hb.
  rewrite cumulative_counts_step.
  destruct bins as [|c bins].
  - cbn. rewrite searchsorted_left_count, searchsorted_right_count by assumption.
    now rewrite count_closed_where.
  - change (counts_in values (a :: b :: c :: bins))
      with (count_where (fun v => f_leb a v && f_ltb v b) values
              :: counts_in values (b :: c :: bins)).
    rewrite <- IH.
    rewrite !(cumulative_counts_step values b c), np_diff_cons.
    f_equal. rewrite !searchsorted_left_count by assumption.
    now apply count_half_open_where.
Qed.

Lemma counts_in_length (values bins : list F) :
  length (counts_in values bins) = length bins - 1.
Proof.
  induction bins as [|a [|b bins] IH]; [reflexivity | reflexivity |].
  change (counts_in values (a :: b :: bins))
    with (match bins with
          | [] => count_where (fun v => f_leb a v && f_leb v b) values
          | _ => count_where (fun v => f_leb a v && f_ltb v b) values
          end :: counts_in values (b :: bins)).
  cbn [length] in *. rewrite IH. lia.
Qed.

Lemma heatmap_rows_counts_in data score_name keys (collections : list (list F))
    (bins : list F) (rows : list (list Z)) :
  Forall (fun e => f_isnan e = false) bins ->
  Forall2 (holds_values data score_name) keys collections ->
  heatmap_rows data score_name bins keys = Returned rows ->
  rows = map (fun values => counts_in values bins) collections.
Proof.
  intros Hbins Hall. revert rows.
  induction Hall as [|key values keys collections [_ [Hvalues Hscores]] _ IH];
    intros rows.
  - now intros [= <-].
  - cbn [heatmap_rows]. rewrite Hscores. cbn [obind].
    destruct (np_histogram values bins) as [counts|e] eqn:Hcounts; [| discriminate].
    cbn [obind].
    destruct (heatmap_rows data score_name bins keys) as [rows'|e]; [| discriminate].
    cbn [obind]. intros [= <-]. cbn [map]. f_equal.
    + now apply np_histogram_counts_in.
    + now apply IH.
Qed.
End OrderedCounts.

(** In exact arithmetic the function reaches the plotting calls, and the
    edges are the least score, the greatest score and the nine points that
    cut the range between them into ten equal parts. *)
Lemma create_heatmap_shared_bins_exact :
  forall (data : gmap string (gmap string (list xreal)))
         (keys yticks : list string) (score_name title path : string)
         (collections : list (list R)),
    1 <= length keys ->
    Forall2 (holds_scores data score_name) keys collections ->
    exists (lo hi : R) (figure : heatmap_figure xreal),
      create_heatmap data keys yticks score_name title path = Returned figure /\
      is_minimum_of lo (concat collections) /\
      is_maximum_of hi (concat collections) /\
      hm_bins figure = map Fin (shared_edges lo hi) /\
      length (hm_bins figure) = 11 /\
      bin_edge lo hi 0 = lo /\
      bin_edge lo hi 10 = hi /\
      (forall k, bin_edge lo hi (S k) - bin_edge lo hi k = (hi - lo) / 10)%R /\
      hm_grid figure = map (fun rs => bin_counts rs (shared_edges lo hi)) collections /\
      length (hm_grid figure) = length keys /\
      (forall i key,
          keys !! i = Some key ->
          exists rs,
            holds_scores data score_name key rs /\
            hm_grid figure !! i = Some (bin_counts rs (shared_edges lo hi)) /\
            length (bin_counts rs (shared_edges lo hi)) = 10).
Proof.
  intros data keys yticks score_name title path collections Hlen Hall.
  assert (Hne : keys <> []) by (destruct keys; [simpl in Hlen; lia | congruence]).
  destruct (heatmap_limits_global data score_name keys collections Hne Hall)
    as [lo [hi [Hlimits [Hmin Hmax]]]].
  assert (Hle : (lo <= hi)%R) by (destruct Hmin as [_ Hmin], Hmax as [Hin _]; auto).
  pose proof (shared_edges_nondecreasing lo hi Hle) as Hnd.
  exists lo, hi. eexists. unfold create_heatmap.
  rewrite Hlimits. cbn [obind fst snd]. rewrite np_linspace_edges.
  rewrite (heatmap_rows_counts data score_name keys collections _ Hnd Hall).
  cbn [obind].
  split; [reflexivity |]. cbn [hm_bins hm_grid].
  split; [exact Hmin |]. split; [exact Hmax |].
  split; [reflexivity |]. split; [reflexivity |].
  split; [apply bin_edge_first |]. split; [apply bin_edge_last |].
  split; [apply bin_edge_width |]. split; [reflexivity |].
  split; [rewrite length_map; symmetry; exact (Forall2_length _ _ _ Hall) |].
  intros i key Hkey.
  destruct (Forall2_lookup_l _ _ _ _ _ Hall Hkey) as [rs [Hrs Hholds]].
  exists rs. split; [exact Hholds |]. split; [| reflexivity].
  now rewrite list_lookup_fmap, Hrs.
Qed.


Lemma create_heatmap_shared_bins_ordered
    (F : Type) (A : Arith F) (Hord : ordered_arith F)
    (data : gmap string (gmap string (list F)))
    (keys yticks : list string) (score_name title path : string)
    (collections : list (list F)) (figure : heatmap_figure F) :
  1 <= length keys ->
  Forall2 (holds_values data score_name) keys collections ->
  create_heatmap data keys yticks score_name title path = Returned figure ->
  Forall (fun e => f_isnan e = false) (hm_bins figure) ->
  exists lo hi : F,
    least_of lo (concat collections) /\
    greatest_of hi (concat collections) /\
    hm_bins figure = np_linspace lo hi 11 /\
    length (hm_bins figure) = 11 /\
    last (hm_bins figure) = Some hi /\
    hm_grid figure
      = map (fun values => counts_in values (hm_bins figure)) collections /\
    length (hm_grid figure) = length keys /\
    (forall i key,
        keys !! i = Some key ->
        exists values,
          holds_values data score_name key values /\
          hm_grid figure !! i = Some (counts_in values (hm_bins figure)) /\
          length (counts_in values (hm_bins figure)) = 10).
Proof.
  intros Hlen Hall Hfig Hbins.
  assert (Hne : keys <> []) by (destruct keys; [simpl in Hlen; lia | congruence]).
  destruct (heatmap_limits_ordered Hord data score_name keys collections Hne Hall)
    as [lo [hi [Hlimits [Hmin Hmax]]]].
  unfold create_heatmap in Hfig. rewrite Hlimits in Hfig. cbn [obind fst snd] in Hfig.
  destruct (heatmap_rows data score_name (np_linspace lo hi 11) keys)
    as [rows|e] eqn:Hrows; [| discriminate].
  cbn [obind] in Hfig. injection Hfig as <-. cbn [hm_bins hm_grid] in *.
  assert (Hlen11 : length (np_linspace lo hi 11) = 11)
    by (unfold np_linspace; destruct (f_eqb _ _); reflexivity).
  pose proof (heatmap_rows_counts_in Hord data score_name keys collections
                _ rows Hbins Hall Hrows) as ->.
  exists lo, hi.
  split; [exact Hmin |]. split; [exact Hmax |]. split; [reflexivity |].
  split; [exact Hlen11 |].
  split; [unfold np_linspace; apply last_snoc |].
  split; [reflexivity |].
  split; [rewrite length_map; symmetry; exact (Forall2_length _ _ _ Hall) |].
  intros i key Hkey.
  destruct (Forall2_lookup_l _ _ _ _ _ Hall Hkey) as [values [Hvalues Hholds]].
  exists values. split; [exact Hholds |]. split.
  - now rewrite list_lookup_fmap, Hvalues.
  - rewrite counts_in_length, Hlen11. reflexivity.
Qed.

(** C8. [create_heatmap] computes one list of eleven bin edges, shared by
    all groups, and one row of ten counts per listed key, in the order of
    the keys.

    On binary64 as in exact arithmetic, for a list of at least one key
    (so for every list of at least two), each naming a non-empty collection
    of scores: whenever the function reaches the plotting calls and no edge
    is not-a-number, the edges are the eleven samples [np.linspace] takes
    from the least to the greatest score of the listed groups, the last
    edge being that greatest score, and row [i] of the grid holds, for the
    collection of key [i], the number of scores in each of the ten bins
    between consecutive edges (a bin includes its left edge, the last bin
    both edges).

    In exact arithmetic the function does reach the plotting calls, the
    first edge is the least score, and consecutive edges are one tenth of
    the range apart. *)
Theorem create_heatmap_shared_bins :
  (forall (F : Type) (A : Arith F),
      ordered_arith F ->
      forall (data : gmap string (gmap string (list F)))
             (keys yticks : list string) (score_name title path : string)
             (collections : list (list F)) (figure : heatmap_figure F),
        1 <= length keys ->
        Forall2 (holds_values data score_name) keys collections ->
        create_heatmap data keys yticks score_name title path = Returned figure ->
        Forall (fun e => f_isnan e = false) (hm_bins figure) ->
        exists lo hi : F,
          least_of lo (concat collections) /\
          greatest_of hi (concat collections) /\
          hm_bins figure = np_linspace lo hi 11 /\
          length (hm_bins figure) = 11 /\
          last (hm_bins figure) = Some hi /\
          hm_grid figure
            = map (fun values => counts_in values (hm_bins figure)) collections /\
          length (hm_grid figure) = length keys /\
          (forall i key,
              keys !! i = Some key ->
              exists values,
                holds_values data score_name key values /\
                hm_grid figure !! i = Some (counts_in values (hm_bins figure)) /\
                length (counts_in values (hm_bins figure)) = 10)) /\
  @ordered_arith float float_arith /\
  @ordered_arith xreal xreal_arith /\
  (forall (data : gmap string (gmap string (list xreal)))
          (keys yticks : list string) (score_name title path : string)
          (collections : list (list R)),
      1 <= length keys ->
      Forall2 (holds_scores data score_name) keys collections ->
      exists (lo hi : R) (figure : heatmap_figure xreal),
        create_heatmap data keys yticks score_name title path = Returned figure /\
        is_minimum_of lo (concat collections) /\
        is_maximum_of hi (concat collections) /\
        hm_bins figure = map Fin (shared_edges lo hi) /\
        bin_edge lo hi 0 = lo /\
        bin_edge lo hi 10 = hi /\
        (forall k, bin_edge lo hi (S k) - bin_edge lo hi k = (hi - lo) / 10)%R /\
        hm_grid figure = map (fun rs => bin_counts rs (shared_edges lo hi)) collections).
Proof.
  split; [exact create_heatmap_shared_bins_ordered |].
  split; [exact ordered_binary64 |]. split; [exact ordered_exact |].
  intros data keys yticks score_name title path collections Hlen Hall.
  destruct (create_heatmap_shared_bins_exact data keys yticks score_name title path
              collections Hlen Hall)
    as [lo [hi [figure [Hfig [Hmin [Hmax [Hbins [_ [H0 [H10 [Hw [Hgrid _]]]]]]]]]]]].
  exists lo, hi, figure. repeat (split; [assumption |]). assumption.
Qed.

Lemma create_heatmap_shared_bins_witness :
  exists (figure : heatmap_figure float) (lo hi : float),
    create_heatmap two_groups ["a"; "b"] ["A"; "B"]
      "Accuracy" "Frequency heatmap" "heatmap" = Returned figure /\
    least_of lo [0.1; 0.5; 0.9; 0.2; 0.3]%float /\
    greatest_of hi [0.1; 0.5; 0.9; 0.2; 0.3]%float /\
    hm_bins figure = np_linspace lo hi 11 /\
    last (hm_bins figure) = Some hi /\
    hm_grid figure
      = [ counts_in [0.1; 0.5]%float (hm_bins figure);
          counts_in [0.9; 0.2; 0.3]%float (hm_bins figure) ].
Proof.
  destruct (create_heatmap two_groups ["a"; "b"] ["A"; "B"]
              "Accuracy" "Frequency heatmap" "heatmap") as [figure|e] eqn:Hfig.
  - assert (Hbins : Forall (fun e => f_isnan e = false) (hm_bins figure)).
    { pose proof Hfig as Hvalue. vm_compute in Hvalue. injection Hvalue as <-.
      vm_compute. repeat constructor. }
    destruct (proj1 create_heatmap_shared_bins float float_arith
                (proj1 (proj2 create_heatmap_shared_bins))
                two_groups ["a"; "b"] ["A"; "B"]
                "Accuracy" "Frequency heatmap" "heatmap"
                [[0.1; 0.5]; [0.9; 0.2; 0.3]]%float figure)
      as [lo [hi [Hmin [Hmax [Hedges [_ [Hlast [Hgrid _]]]]]]]].
    + simpl. lia.
    + constructor; [| constructor; [| constructor]];
        (split; [discriminate | split; [repeat constructor | vm_compute; reflexivity]]).
    + exact Hfig.
    + exact Hbins.
    + exists figure, lo, hi. split; [reflexivity |].
      repeat (split; [assumption |]). exact Hgrid.
  - vm_compute in Hfig. discriminate.
Defined.

(** On binary64 the edges are rounded, and the counts are taken against the
    rounded edges: between 0 and 0.9 the second edge is the binary64 number
    0.09 itself, so that the score 0.09 falls into the second bin. *)
Example create_heatmap_rounded_edge_binary64 :
  exists figure,
    create_heatmap near_edge_group ["a"] ["A"] "Accuracy" "Frequency heatmap" "heatmap"
      = Returned figure /\
    hm_bins figure !! 1 = Some 0.09%float /\
    hm_grid figure = [ [1; 1; 0; 0; 0; 0; 0; 0; 0; 1] ]%Z /\
    hm_grid figure = [ counts_in [0; 0.09; 0.9]%float (hm_bins figure) ].
Proof. eexists. repeat split; vm_compute; reflexivity. Qed.

(** * Further properties of the scoring helpers *)

(** ** Decoded labels are class indices *)

Lemma argmax_scan_bound (F : Type) (A : Arith F) (row : list F) :
  forall (mp : F) (best i : nat),
    best < i -> argmax_scan mp best i row < i + length row.
Proof.
  induction row as [|x row IH]; intros mp best i Hbest; cbn [argmax_scan length].
  - lia.
  - destruct (f_leb x mp).
    + specialize (IH mp best (S i)). lia.
    + destruct (f_isnan x); [lia |].
      specialize (IH x i (S i)). lia.
Qed.

Lemma argmax_row_bound (F : Type) (A : Arith F) (row : list F) :
  row <> [] -> argmax_row row < length row.
Proof.
  destruct row as [|x row]; [congruence |]. intros _.
  unfold argmax_row. destruct (f_isnan x); [simpl; lia |].
  pose proof (argmax_scan_bound F A row x 0 1). simpl. lia.
Qed.

(** On every arithmetic, whatever the entries (not-a-number included): a
    matrix with [ncols >= 1] columns decodes to one label per row, and every
    label is a column index, from 0 to [ncols - 1]. *)
Theorem decode_labels_in_range :
  forall (F : Type) (A : Arith F) (ncols : nat) (rows : list (list F)),
    0 < ncols ->
    Forall (fun row => length row = ncols) rows ->
    exists labels : list Z,
      decode (Array2 ncols rows) = Returned labels /\
      length labels = length rows /\
      Forall (fun label => 0 <= label < Z.of_nat ncols)%Z labels.
Proof.
  intros F A ncols rows Hc Hrows.
  exists (map Z.of_nat (map argmax_row rows)). split; [| split].
  - unfold decode, np_argmax_axis1.
    destruct (Nat.eqb_spec ncols 0) as [E|_]; [lia | reflexivity].
  - now rewrite !length_map.
  - induction Hrows as [|row rows Hlen _ IH]; cbn [map]; constructor; [| exact IH].
    assert (argmax_row row < length row).
    { apply argmax_row_bound. destruct row; [simpl in Hlen; lia | congruence]. }
    lia.
Qed.

Lemma decode_labels_in_range_witness :
  exists labels : list Z,
    decode four_examples = Returned labels /\
    length labels = 4 /\
    Forall (fun label => 0 <= label < 2)%Z labels.
Proof.
  apply (decode_labels_in_range float float_arith 2
           [ [0.9; 0.1]; [0.2; 0.8]; [0.4; 0.6]; [0.7; 0.3] ]%float).
  - lia.
  - repeat constructor.
Defined.

(** ** The four scores come together or not at all *)

Lemma score_functions_after_decoding
    (F : Type) (A : Arith F) (y_true : list Z) (y_pred : ndarray F) :
  (exists e, decode y_pred = Raised e /\
             accuracy y_true y_pred = Raised e /\
             macro_f1_score y_true y_pred = Raised e /\
             macro_precision y_true y_pred = Raised e /\
             macro_recall y_true y_pred = Raised e) \/
  (exists labels cause,
      decode y_pred = Returned labels /\
      (length y_true <> length labels \/ y_true = []) /\
      accuracy y_true y_pred = Raised (ScoreError "accuracy" cause) /\
      macro_f1_score y_true y_pred = Raised (ScoreError "macro_f1_score" cause) /\
      macro_precision y_true y_pred = Raised (ScoreError "macro_precision" cause) /\
      macro_recall y_true y_pred = Raised (ScoreError "macro_recall" cause)) \/
  (exists labels a f p r,
      decode y_pred = Returned labels /\
      length y_true = length labels /\
      accuracy y_true y_pred = Returned a /\
      macro_f1_score y_true y_pred = Returned f /\
      macro_precision y_true y_pred = Returned p /\
      macro_recall y_true y_pred = Returned r).
Proof.
  unfold accuracy, macro_f1_score, macro_precision, macro_recall.
  destruct (decode y_pred) as [labels|e].
  - right. cbn [obind].
    unfold accuracy_score, f1_score, precision_score, recall_score,
      macro_average, checked_lengths.
    destruct (Nat.eqb_spec (length y_true) (length labels)) as [E|E]; cbn [negb].
    + destruct y_true as [|t y_true]; cbn [length Nat.eqb].
      * left. exists labels, empty_input. split; [reflexivity |].
        split; [now right |]. repeat split; reflexivity.
      * right. do 5 eexists. split; [reflexivity |]. split; [exact E |].
        repeat split; reflexivity.
    + left. exists labels, (inconsistent_lengths (length y_true) (length labels)).
      split; [reflexivity |].
      split; [now left |]. repeat split; reflexivity.
  - left. exists e. repeat split; reflexivity.
Qed.

(** On every arithmetic: [compute_all_scores] either raises, and then with
    the very error [accuracy] raises on the same input, or returns a mapping
    that has all four keys; it never returns a mapping with fewer. *)
Theorem compute_all_scores_all_or_nothing :
  forall (F : Type) (A : Arith F) (y_true : list Z) (y_pred : ndarray F),
    (exists e, accuracy y_true y_pred = Raised e /\
               compute_all_scores y_true y_pred = Raised e) \/
    (exists scores : gmap string F,
        compute_all_scores y_true y_pred = Returned scores /\
        dom scores =
          ({["Accuracy"; "Macro F1 Score"; "Macro Precision"; "Macro Recall"]}
             : gset string)).
Proof.
  intros F A y_true y_pred.
  unfold compute_all_scores, scoring, score_one. cbn [fold_left fst snd obind].
  destruct (score_functions_after_decoding F A y_true y_pred)
    as [[e [_ [Ha _]]] | [[labels [cause [_ [_ [Ha _]]]]]
                          | [labels [a [f [p [r [_ [_ [Ha [Hf [Hp Hr]]]]]]]]]]]].
  - left. exists e. rewrite Ha. split; reflexivity.
  - left. eexists. rewrite Ha. split; reflexivity.
  - right. rewrite Ha. cbn [obind]. rewrite Hf. cbn [obind].
    rewrite Hp. cbn [obind]. rewrite Hr. cbn [obind].
    eexists. split; [reflexivity |].
    rewrite !dom_insert_L, dom_empty_L. set_solver.
Qed.

(** ** [create_heatmap]: missing groups and the shape of the grid *)

Lemma heatmap_limits_first_failure
    (F : Type) (A : Arith F) (data : gmap string (gmap string (list F)))
    (score_name : string) (before : list string) (key : string)
    (after : list string) (e : exn) :
  forall minimum maximum : F,
    Forall (fun k => exists v values,
                scores_of data k score_name = Returned (v :: values)) before ->
    scores_of data key score_name = Raised e ->
    heatmap_limits data score_name (before ++ key :: after) minimum maximum = Raised e.
Proof.
  induction before as [|k before IH]; intros minimum maximum Hbefore Hkey.
  - cbn [app heatmap_limits]. now rewrite Hkey.
  - apply Forall_cons in Hbefore. destruct Hbefore as [[v [values Hk]] Hbefore].
    cbn [app heatmap_limits]. rewrite Hk. cbn [obind np_min np_max].
    now apply IH.
Qed.

(** On every arithmetic: when a listed key is missing from [data], or its
    entry has no collection under the score name, and the keys listed
    before it hold non-empty collections, [create_heatmap] raises the
    [KeyError] of that look-up (for the key, or for the score name). *)
Theorem create_heatmap_missing_key :
  forall (F : Type) (A : Arith F) (data : gmap string (gmap string (list F)))
         (before : list string) (key : string) (after yticks : list string)
         (score_name title path : string),
    Forall (fun k => exists v values,
                scores_of data k score_name = Returned (v :: values)) before ->
    (data !! key = None ->
     create_heatmap data (before ++ key :: after) yticks score_name title path
       = Raised (KeyError key)) /\
    (forall per_score,
        data !! key = Some per_score -> per_score !! score_name = None ->
        create_heatmap data (before ++ key :: after) yticks score_name title path
          = Raised (KeyError score_name)).
Proof.
  intros F A data before key after yticks score_name title path Hbefore. split.
  - intros Hnone. unfold create_heatmap.
    rewrite (heatmap_limits_first_failure F A data score_name before key after
               (KeyError key)); [reflexivity | assumption |].
    unfold scores_of. now rewrite Hnone.
  - intros per_score Hsome Hnone. unfold create_heatmap.
    rewrite (heatmap_limits_first_failure F A data score_name before key after
               (KeyError score_name)); [reflexivity | assumption |].
    unfold scores_of. now rewrite Hsome, Hnone.
Qed.

Lemma create_heatmap_missing_key_witness :
  create_heatmap two_groups ["a"; "c"; "b"] ["A"; "C"; "B"]
    "Accuracy" "Frequency heatmap" "heatmap" = Raised (KeyError "c") /\
  create_heatmap two_groups ["a"; "b"] ["A"; "B"]
    "Macro Recall" "Frequency heatmap" "heatmap" = Raised (KeyError "Macro Recall").
Proof.
  split.
  - apply (create_heatmap_missing_key float float_arith two_groups
             ["a"] "c" ["b"] ["A"; "C"; "B"] "Accuracy" "Frequency heatmap" "heatmap").
    + repeat constructor. do 2 eexists. vm_compute. reflexivity.
    + vm_compute. reflexivity.
  - apply (create_heatmap_missing_key float float_arith two_groups
             [] "a" ["b"] ["A"; "B"] "Macro Recall" "Frequency heatmap" "heatmap")
      with (per_score := {["Accuracy" := [0.1; 0.5]%float]}).
    + constructor.
    + vm_compute. reflexivity.
    + vm_compute. reflexivity.
Defined.

Lemma np_diff_length (a : list Z) : length (np_diff a) = length a - 1.
Proof.
  induction a as [|x [|y a] IH]; [reflexivity | reflexivity |].
  rewrite np_diff_cons. cbn [length] in *. lia.
Qed.

Lemma np_histogram_length
    (F : Type) (A : Arith F) (values bins : list F) (counts : list Z) :
  np_histogram values bins = Returned counts ->
  length counts = length bins - 1.
Proof.
  unfold np_histogram. destruct (decreases_somewhere bins); [discriminate |].
  intros [= <-]. rewrite np_diff_length, length_app, !length_map.
  rewrite removelast_firstn_len, length_firstn, length_skipn. lia.
Qed.

(** On every arithmetic, binary64 included: whenever [create_heatmap]
    reaches the renderer, the grid has one row per listed key (repeated keys
    included) and ten counts in every row, against eleven bin edges; the
    list of tick labels is passed on as given, whatever its length. *)
Theorem create_heatmap_grid_shape :
  forall (F : Type) (A : Arith F) (data : gmap string (gmap string (list F)))
         (keys yticks : list string) (score_name title path : string)
         (figure : heatmap_figure F),
    create_heatmap data keys yticks score_name title path = Returned figure ->
    length (hm_grid figure) = length keys /\
    Forall (fun row => length row = 10) (hm_grid figure) /\
    length (hm_bins figure) = 11 /\
    hm_yticklabels figure = yticks.
Proof.
  intros F A data keys yticks score_name title path figure Hfig.
  destruct (create_heatmap_structure F A data keys yticks score_name title path figure Hfig)
    as [lo [hi [_ [_ [Hbins Hrows]]]]].
  split; [symmetry; exact (Forall2_length _ _ _ Hrows) |].
  split; [| split; [exact Hbins |]].
  - clear Hfig. induction Hrows as [|key row keys rows [values [_ Hrow]] _ IH];
      constructor; [| exact IH].
    apply (np_histogram_length F A) in Hrow. lia.
  - unfold create_heatmap in Hfig.
    destruct (heatmap_limits data score_name keys f_inf f_neg_inf); [| discriminate].
    cbn [obind] in Hfig.
    destruct (heatmap_rows data score_name _ keys); [| discriminate].
    cbn [obind] in Hfig. now injection Hfig as <-.
Qed.

Lemma create_heatmap_grid_shape_witness :
  exists figure : heatmap_figure float,
    create_heatmap two_groups ["b"; "a"; "b"] ["only one label"]
      "Accuracy" "Frequency heatmap" "heatmap" = Returned figure /\
    length (hm_grid figure) = 3 /\
    Forall (fun row => length row = 10) (hm_grid figure) /\
    length (hm_bins figure) = 11 /\
    hm_yticklabels figure = ["only one label"].
Proof.
  destruct (create_heatmap two_groups ["b"; "a"; "b"] ["only one label"]
              "Accuracy" "Frequency heatmap" "heatmap") as [figure|e] eqn:Hfig.
  - exists figure. split; [reflexivity |].
    exact (create_heatmap_grid_shape float float_arith two_groups
             ["b"; "a"; "b"] ["only one label"]
             "Accuracy" "Frequency heatmap" "heatmap" figure Hfig).
  - vm_compute in Hfig. discriminate.
Defined.

(** ** [get_score]: what of [scores.txt] is read *)

Lemma readline_first_line (line rest : string) (eol : ascii) :
  string_forall (fun c => negb (is_line_end c)) line = true ->
  is_line_end eol = true ->
  readline (line ++ String eol rest) = (line ++ String "010" EmptyString)%string.
Proof.
  intros Hline Heol. induction line as [|c line IH].
  - change (readline (String eol rest) = String "010" EmptyString).
    cbn [readline]. now rewrite Heol.
  - change (readline (String c (line ++ String eol rest))
            = String c (line ++ String "010" EmptyString)).
    simpl in Hline. apply andb_prop in Hline. destruct Hline as [Hc Hline].
    apply negb_true_iff in Hc. cbn [readline]. rewrite Hc. now rewrite IH.
Qed.

Lemma readline_no_line_end (line : string) :
  string_forall (fun c => negb (is_line_end c)) line = true ->
  readline line = line.
Proof.
  induction line as [|c line IH]; intros Hline; cbn [readline]; [reflexivity |].
  simpl in Hline. apply andb_prop in Hline. destruct Hline as [Hc Hline].
  apply negb_true_iff in Hc. rewrite Hc. now rewrite IH.
Qed.

Lemma lstrip_spaces (pre s : string) :
  string_forall is_space pre = true -> lstrip (pre ++ s) = lstrip s.
Proof.
  induction pre as [|c pre IH]; intros Hpre; simpl; [reflexivity |].
  simpl in Hpre. apply andb_prop in Hpre. destruct Hpre as [Hc Hpre].
  rewrite Hc. now apply IH.
Qed.

Lemma rstrip_all_spaces (s : string) :
  string_forall is_space s = true -> rstrip s = EmptyString.
Proof.
  induction s as [|c s IH]; simpl; [reflexivity |].
  intros H. apply andb_prop in H. destruct H as [Hc Hs]. now rewrite (IH Hs), Hc.
Qed.

Lemma rstrip_spaces (s post : string) :
  string_forall is_space post = true -> rstrip (s ++ post) = rstrip s.
Proof.
  intros Hpost. induction s as [|c s IH]; simpl.
  - now apply rstrip_all_spaces.
  - now rewrite IH.
Qed.

Lemma lstrip_all_spaces (s : string) :
  string_forall is_space s = true -> lstrip s = EmptyString.
Proof.
  induction s as [|c s IH]; simpl; [reflexivity |].
  intros H. apply andb_prop in H. destruct H as [Hc Hs]. rewrite Hc. now apply IH.
Qed.

Lemma rstrip_lstrip_spaces (s post : string) :
  string_forall is_space post = true ->
  rstrip (lstrip (s ++ post)) = rstrip (lstrip s).
Proof.
  intros Hpost. induction s as [|c s IH].
  - simpl. now rewrite lstrip_all_spaces.
  - simpl. destruct (is_space c); [exact IH |].
    change (String c (s ++ post)) with (String c s ++ post)%string.
    now apply rstrip_spaces.
Qed.

Lemma strip_surrounding_spaces (pre s post : string) :
  string_forall is_space pre = true ->
  string_forall is_space post = true ->
  strip (pre ++ s ++ post) = strip s.
Proof.
  intros Hpre Hpost. unfold strip.
  rewrite lstrip_spaces by assumption. now apply rstrip_lstrip_spaces.
Qed.

Lemma string_forall_app p (a b : string) :
  string_forall p (a ++ b) = string_forall p a && string_forall p b.
Proof.
  induction a as [|c a IH]; simpl; [reflexivity |].
  now rewrite IH, andb_assoc.
Qed.

Lemma string_forall_weaken (p q : ascii -> bool) (s : string) :
  (forall c, p c = true -> q c = true) ->
  string_forall p s = true -> string_forall q s = true.
Proof.
  intros Hpq. induction s as [|c s IH]; simpl; [reflexivity |].
  intros H. apply andb_prop in H. destruct H as [Hc Hs].
  now rewrite (Hpq c Hc), IH.
Qed.

Lemma string_app_assoc (a b c : string) : ((a ++ b) ++ c = a ++ (b ++ c))%string.
Proof.
  induction a as [|x a IH]; [reflexivity |].
  change (String x a ++ b)%string with (String x (a ++ b)).
  change (String x (a ++ b) ++ c)%string with (String x ((a ++ b) ++ c)).
  change (String x a ++ (b ++ c))%string with (String x (a ++ (b ++ c))).
  now rewrite IH.
Qed.

(** Only the first line of [scores.txt] is read, and white space around the
    name on it does not count: a file made of blanks, a name, blanks, a line
    ending (a line feed or a carriage return) and anything after it resolves
    as the name alone would.  (With an empty name: a file whose first line
    is blank is refused with NotImplementedError, whatever the lines after
    it say.) *)
Theorem get_score_reads_first_line :
  forall (pre name post rest : string) (eol : ascii),
    string_forall is_blank pre = true ->
    string_forall (fun c => negb (is_line_end c)) name = true ->
    string_forall is_blank post = true ->
    is_line_end eol = true ->
    get_score (pre ++ name ++ post ++ String eol rest) = get_score name.
Proof.
  intros pre name post rest eol Hpre Hname Hpost Heol.
  assert (Hblank_space : forall c, is_blank c = true -> is_space c = true).
  { intros c Hc. unfold is_blank in Hc. now apply andb_prop in Hc. }
  assert (Hblank_end : forall c, is_blank c = true -> negb (is_line_end c) = true).
  { intros c Hc. unfold is_blank in Hc. now apply andb_prop in Hc. }
  assert (Hline : string_forall (fun c => negb (is_line_end c)) (pre ++ name ++ post) = true).
  { rewrite !string_forall_app, Hname.
    rewrite (string_forall_weaken _ _ pre Hblank_end Hpre).
    now rewrite (string_forall_weaken _ _ post Hblank_end Hpost). }
  assert (Hstrip : strip (readline (pre ++ name ++ post ++ String eol rest))
                   = strip (readline name)).
  { replace (pre ++ name ++ post ++ String eol rest)%string
      with ((pre ++ name ++ post) ++ String eol rest)%string
      by (now rewrite !string_app_assoc).
    rewrite readline_first_line by assumption.
    rewrite readline_no_line_end by assumption.
    replace ((pre ++ name ++ post) ++ String "010" EmptyString)%string
      with (pre ++ name ++ (post ++ String "010" EmptyString))%string
      by (now rewrite !string_app_assoc).
    apply strip_surrounding_spaces.
    - exact (string_forall_weaken _ _ pre Hblank_space Hpre).
    - rewrite string_forall_app.
      now rewrite (string_forall_weaken _ _ post Hblank_space Hpost). }
  unfold get_score. now rewrite Hstrip.
Qed.

Lemma get_score_reads_first_line_witness :
  get_score ("  " ++ "macro_f1_score" ++ " " ++ String "010" "accuracy")
    = get_score "macro_f1_score" /\
  get_score ("" ++ "" ++ " " ++ String "013" (String "010" "accuracy")) = get_score "".
Proof.
  split; apply get_score_reads_first_line; reflexivity.
Defined.

(** A carriage return ends the first line as a line feed does: a file that
    begins with one has an empty first line, whatever follows. *)
Example get_score_carriage_return :
  get_score (String "013" ("macro_recall" ++ String "010" EmptyString))
    = Raised (NotImplementedError "In get_score, '' not found").
Proof. vm_compute. reflexivity. Qed.

(** A name a module object inherits from its type resolves too. *)
Example get_score_inherited_attribute :
  get_score "__class__" = Returned ("  Class  ", InheritedAttribute "__class__").
Proof. vm_compute. reflexivity. Qed.

(** ** [natural_sort] *)

Lemma string_app_empty (s : string) : (s ++ "")%string = s.
Proof.
  induction s as [|c s IH]; [reflexivity |].
  change (String c s ++ "")%string with (String c (s ++ "")). now rewrite IH.
Qed.

Lemma re_split_digits_nonempty (text : string) : re_split_digits text <> [].
Proof.
  destruct text as [|c text]; [discriminate |]. cbn [re_split_digits].
  destruct (is_decimal c).
  - destruct (re_split_digits text) as [|[|] [|]]; discriminate.
  - destruct (re_split_digits text); discriminate.
Qed.

(** Nothing is lost in the split: the pieces, put together, are the text. *)
Lemma re_split_digits_concat (text : string) :
  fold_right String.append EmptyString (re_split_digits text) = text.
Proof.
  induction text as [|c text IH]; [reflexivity |].
  cbn [re_split_digits]. destruct (is_decimal c).
  - destruct (re_split_digits text) as [|[|x t] [|d pieces]];
      cbn [fold_right] in *; rewrite <- IH; reflexivity.
  - destruct (re_split_digits text) as [|t pieces]; cbn [fold_right] in *;
      rewrite <- IH; reflexivity.
Qed.

Lemma re_split_text_prefix (p x : string) :
  string_forall (fun c => negb (is_decimal c)) p = true ->
  re_split_digits (p ++ x)
  = match re_split_digits x with
    | t :: pieces => (p ++ t)%string :: pieces
    | [] => [p]
    end.
Proof.
  induction p as [|c p IH]; intros Hp.
  - change ("" ++ x)%string with x. destruct (re_split_digits x) eqn:E; [| reflexivity].
    now apply re_split_digits_nonempty in E.
  - cbn [string_forall] in Hp. apply andb_prop in Hp. destruct Hp as [Hc Hp].
    change (String c p ++ x)%string with (String c (p ++ x)).
    cbn [re_split_digits]. apply negb_true_iff in Hc. rewrite Hc, (IH Hp).
    destruct (re_split_digits x); reflexivity.
Qed.

Lemma re_split_no_leading_decimal (s : string) :
  no_leading_decimal s = true ->
  match re_split_digits s with
  | EmptyString :: _ :: _ => False
  | _ => True
  end.
Proof.
  destruct s as [|c s]; [intros _; exact I |].
  cbn [no_leading_decimal re_split_digits]. intros Hc.
  apply negb_true_iff in Hc. rewrite Hc.
  destruct (re_split_digits s); exact I.
Qed.

Lemma re_split_digit_run (d s : string) :
  string_forall is_decimal d = true -> d <> EmptyString ->
  no_leading_decimal s = true ->
  re_split_digits (d ++ s) = EmptyString :: d :: re_split_digits s.
Proof.
  intros Hd Hne Hs. induction d as [|c d IH]; [congruence |].
  cbn [string_forall] in Hd. apply andb_prop in Hd. destruct Hd as [Hc Hd].
  change (String c d ++ s)%string with (String c (d ++ s)).
  cbn [re_split_digits]. rewrite Hc.
  destruct d as [|c' d].
  - change ("" ++ s)%string with s.
    pose proof (re_split_no_leading_decimal s Hs) as Hform.
    destruct (re_split_digits s) as [|[|x t] [|d' pieces]];
      try reflexivity; contradiction.
  - rewrite IH by (assumption || discriminate). reflexivity.
Qed.

Lemma re_split_name_number (p d s : string) :
  string_forall (fun c => negb (is_decimal c)) p = true ->
  string_forall is_decimal d = true -> d <> EmptyString ->
  no_leading_decimal s = true ->
  re_split_digits (p ++ d ++ s) = p :: d :: re_split_digits s.
Proof.
  intros Hp Hd Hne Hs.
  rewrite re_split_text_prefix by assumption.
  rewrite re_split_digit_run by assumption. now rewrite string_app_empty.
Qed.

Lemma str_isdigit_decimals (d : string) :
  string_forall is_decimal d = true -> d <> EmptyString -> str_isdigit d = true.
Proof.
  intros Hd Hne. destruct d as [|c d]; [congruence |].
  unfold str_isdigit. apply (string_forall_weaken is_decimal); [| assumption].
  intros x Hx. unfold is_digit_char. now rewrite Hx.
Qed.

Lemma atoi_decimals (d : string) :
  string_forall is_decimal d = true -> d <> EmptyString ->
  (N.of_nat (String.length d) <= int_max_str_digits)%N ->
  atoi d = Returned (KeyInt (int_of_decimals 0 d)).
Proof.
  intros Hd Hne Hlen. unfold atoi, py_int.
  rewrite str_isdigit_decimals, Hd by assumption.
  destruct (N.ltb_spec int_max_str_digits (N.of_nat (String.length d))) as [E|_];
    [lia | reflexivity].
Qed.

Lemma atoi_decimals_returned (d : string) (item : key_item) :
  string_forall is_decimal d = true -> d <> EmptyString ->
  atoi d = Returned item -> item = KeyInt (int_of_decimals 0 d).
Proof.
  intros Hd Hne. unfold atoi, py_int.
  rewrite str_isdigit_decimals, Hd by assumption.
  destruct (N.ltb int_max_str_digits (N.of_nat (String.length d))); [discriminate |].
  now intros [= <-].
Qed.

Lemma atoi_text (t : string) (item : key_item) :
  string_forall (fun c => negb (is_decimal c)) t = true ->
  atoi t = Returned item -> item = KeyText t.
Proof.
  intros Ht. unfold atoi, py_int. destruct (str_isdigit t) eqn:E.
  - destruct t as [|c t]; [discriminate |].
    cbn [string_forall] in *. apply andb_prop in Ht. destruct Ht as [Hc _].
    apply negb_true_iff in Hc. rewrite Hc. discriminate.
  - now intros [= <-].
Qed.

Lemma re_split_digits_shape (text : string) :
  pieces_shape (re_split_digits text) = true.
Proof.
  induction text as [|c text IH]; [reflexivity |].
  cbn [re_split_digits]. destruct (is_decimal c) eqn:Hc.
  - destruct (re_split_digits text) as [|[|x t] [|d pieces]];
      try discriminate; cbn [pieces_shape string_forall] in *;
      rewrite ?Hc; rewrite ?andb_true_iff in *; cbn; tauto.
  - destruct (re_split_digits text) as [|t [|d pieces]];
      try discriminate; cbn [pieces_shape string_forall] in *;
      rewrite ?Hc; rewrite ?andb_true_iff in *; cbn; tauto.
Qed.

Lemma list_pair_ind {A : Type} (P : list A -> Prop) :
  P [] -> (forall x, P [x]) -> (forall x y l, P l -> P (x :: y :: l)) ->
  forall l, P l.
Proof.
  intros Hnil Hone Hstep.
  assert (Hboth : forall l, P l /\ forall x, P (x :: l)).
  { induction l as [|y l [IH1 IH2]]; split; auto. }
  intros l. apply Hboth.
Qed.

Lemma atoi_each_shape (pieces : list string) :
  forall key : list key_item,
    pieces_shape pieces = true ->
    atoi_each pieces = Returned key ->
    key_shape key = true.
Proof.
  induction pieces as [| t | t d pieces IH] using list_pair_ind; intros key Hshape Hkey.
  - discriminate.
  - cbn [pieces_shape] in Hshape. cbn [atoi_each] in Hkey.
    destruct (atoi t) as [item|e] eqn:Et; [| discriminate].
    cbn [obind] in Hkey. injection Hkey as <-.
    apply (atoi_text t item Hshape) in Et. subst item. exact Hshape.
  - cbn [pieces_shape] in Hshape. rewrite !andb_true_iff in Hshape.
    destruct Hshape as [[[Ht Hd] Hne] Hrest].
    apply negb_true_iff, String.eqb_neq in Hne.
    cbn [atoi_each] in Hkey.
    destruct (atoi t) as [item|e] eqn:Et; [| discriminate].
    apply (atoi_text t item Ht) in Et. subst item. cbn [obind] in Hkey.
    destruct (atoi d) as [number|e] eqn:Ed; [| discriminate].
    apply (atoi_decimals_returned d number Hd Hne) in Ed. subst number.
    cbn [obind] in Hkey.
    destruct (atoi_each pieces) as [key'|e] eqn:Erest; [| discriminate].
    cbn [obind] in Hkey. injection Hkey as <-.
    cbn [key_shape]. rewrite Ht. now apply IH.
Qed.

(** Whenever [natural_sort] returns a key, the key has an odd number of
    elements that alternate between text and number, text first and last,
    and no text in it holds a decimal digit. *)
Theorem natural_sort_key_shape :
  forall (text : string) (key : list key_item),
    natural_sort text = Returned key ->
    key_shape key = true /\ Nat.odd (length key) = true.
Proof.
  intros text key Hkey.
  assert (Hshape : key_shape key = true).
  { apply (atoi_each_shape (re_split_digits text)); [| exact Hkey].
    apply re_split_digits_shape. }
  split; [exact Hshape |]. clear Hkey.
  induction key as [| x | x y key IH] using list_pair_ind.
  - discriminate.
  - reflexivity.
  - destruct x as [s|]; [| discriminate]. destruct y as [|n]; [discriminate |].
    cbn [key_shape] in Hshape. apply andb_prop in Hshape.
    destruct Hshape as [_ Hshape]. cbn [length]. rewrite Nat.odd_succ_succ.
    now apply IH.
Qed.

Lemma natural_sort_key_shape_witness :
  key_shape [KeyText "file"; KeyInt 10; KeyText "b"] = true /\
  Nat.odd (length [KeyText "file"; KeyInt 10; KeyText "b"]) = true.
Proof.
  apply (natural_sort_key_shape "file10b"). vm_compute. reflexivity.
Defined.

Lemma key_shape_inv (key : list key_item) :
  key_shape key = true ->
  exists s, key = [KeyText s] \/
            exists n key', key = KeyText s :: KeyInt n :: key' /\ key_shape key' = true.
Proof.
  destruct key as [|[s|] [|[|n] key]]; cbn [key_shape]; try discriminate.
  - intros _. exists s. now left.
  - intros H. apply andb_prop in H. exists s. right. exists n, key. now split.
Qed.

Lemma key_lt_of_shaped_keys (a : list key_item) :
  forall b : list key_item,
    key_shape a = true -> key_shape b = true ->
    exists r, key_lt a b = Compared r.
Proof.
  induction a as [| x | x y a IH] using list_pair_ind; intros b Ha Hb.
  - discriminate.
  - apply key_shape_inv in Ha. destruct Ha as [s [[= ->] | [n [a' [[=] _]]]]].
    apply key_shape_inv in Hb. destruct Hb as [t [-> | [n [b' [-> _]]]]];
      cbn [key_lt item_eqb item_lt]; destruct (String.eqb s t); eauto.
  - apply key_shape_inv in Ha.
    destruct Ha as [s [[=] | [m [a' [[= -> -> ->] Ha]]]]].
    apply key_shape_inv in Hb. destruct Hb as [t [-> | [n [b' [-> Hb]]]]];
      cbn [key_lt item_eqb item_lt]; destruct (String.eqb s t); eauto.
    destruct (N.eqb m n); eauto.
Qed.

(** The keys of any two texts can be compared: [<] between them never meets
    a string with an integer, so sorting by [natural_sort] raises no
    [TypeError]. *)
Theorem natural_sort_keys_comparable :
  forall (text text' : string) (key key' : list key_item),
    natural_sort text = Returned key ->
    natural_sort text' = Returned key' ->
    exists r, key_lt key key' = Compared r.
Proof.
  intros text text' key key' Hkey Hkey'.
  apply key_lt_of_shaped_keys.
  - apply (atoi_each_shape (re_split_digits text)); [apply re_split_digits_shape | exact Hkey].
  - apply (atoi_each_shape (re_split_digits text')); [apply re_split_digits_shape | exact Hkey'].
Qed.

Lemma natural_sort_keys_comparable_witness :
  exists r,
    key_lt [KeyText ""; KeyInt 7; KeyText "up"] [KeyText "seven"] = Compared r.
Proof.
  apply (natural_sort_keys_comparable "7up" "seven"); vm_compute; reflexivity.
Defined.

Lemma re_split_digits_forall (p : ascii -> bool) (text : string) :
  string_forall p text = true ->
  Forall (fun piece => string_forall p piece = true) (re_split_digits text).
Proof.
  induction text as [|c text IH]; intros Htext.
  - repeat constructor.
  - cbn [string_forall] in Htext. apply andb_prop in Htext.
    destruct Htext as [Hc Htext]. specialize (IH Htext).
    cbn [re_split_digits]. destruct (is_decimal c).
    + destruct (re_split_digits text) as [|[|x t] [|d pieces]].
      * repeat constructor. cbn. now rewrite Hc.
      * repeat constructor; cbn; now rewrite ?Hc.
      * inversion IH as [|? ? _ IH']. inversion IH' as [|? ? Hd IH''].
        repeat constructor; [cbn [string_forall]; now rewrite Hc | exact IH''].
      * constructor; [reflexivity |]. constructor; [cbn; now rewrite Hc | exact IH].
      * constructor; [reflexivity |]. constructor; [cbn; now rewrite Hc | exact IH].
    + destruct (re_split_digits text) as [|t pieces].
      * repeat constructor. cbn. now rewrite Hc.
      * inversion IH as [|? ? Ht IH']. constructor; [| exact IH'].
        cbn [string_forall]. now rewrite Hc.
Qed.

Lemma atoi_plain_text (t : string) :
  string_forall (fun c => negb (is_decimal c)) t = true ->
  string_forall (fun c => negb (is_superscript_digit c)) t = true ->
  atoi t = Returned (KeyText t).
Proof.
  intros Hdec Hsup. unfold atoi.
  destruct t as [|c t]; [reflexivity |].
  cbn [str_isdigit string_forall] in *.
  apply andb_prop in Hdec. destruct Hdec as [Hdec _].
  apply andb_prop in Hsup. destruct Hsup as [Hsup _].
  apply negb_true_iff in Hdec, Hsup. unfold is_digit_char.
  now rewrite Hdec, Hsup.
Qed.

Lemma leading_digits_first_piece (text : string) :
  leading_digits text
  = match re_split_digits text with
    | EmptyString :: d :: _ => String.length d
    | _ => 0
    end.
Proof.
  induction text as [|c text IH]; [reflexivity |].
  cbn [leading_digits re_split_digits]. destruct (is_decimal c).
  - rewrite IH. destruct (re_split_digits text) as [|[|x t] [|d pieces]]; reflexivity.
  - destruct (re_split_digits text); reflexivity.
Qed.

(** The runs of digits [re.split] cuts out are runs of the text. *)
Lemma re_split_digits_within (limit : N) (text : string) :
  digit_runs_within limit text = true ->
  Forall (fun piece => (N.of_nat (String.length piece) <= limit)%N
                       \/ string_forall is_decimal piece = false)
    (re_split_digits text).
Proof.
  induction text as [|c text IH]; intros Hruns.
  - constructor; [left; simpl; lia | constructor].
  - cbn [digit_runs_within] in Hruns. apply andb_prop in Hruns.
    destruct Hruns as [Hrun Hruns]. specialize (IH Hruns).
    apply N.leb_le in Hrun. rewrite leading_digits_first_piece in Hrun.
    assert (Hempty : (N.of_nat (String.length EmptyString) <= limit)%N)
      by (simpl; lia).
    cbn [re_split_digits] in *. destruct (is_decimal c) eqn:Hc.
    + destruct (re_split_digits text) as [|[|x t] [|d pieces]].
      * constructor; [now left |]. constructor; [now left | constructor].
      * constructor; [now left |]. constructor; [now left | exact IH].
      * inversion IH as [|? ? _ IH']. inversion IH' as [|? ? _ IH''].
        constructor; [now left |]. constructor; [now left | exact IH''].
      * constructor; [now left |]. constructor; [now left | exact IH].
      * constructor; [now left |]. constructor; [now left | exact IH].
    + assert (Hnot : forall piece, string_forall is_decimal (String c piece) = false)
        by (intros piece; cbn [string_forall]; now rewrite Hc).
      destruct (re_split_digits text) as [|t pieces].
      * constructor; [now right | constructor].
      * inversion IH as [|? ? _ IH']. constructor; [now right | exact IH'].
Qed.

Lemma atoi_each_returns (pieces : list string) :
  pieces_shape pieces = true ->
  Forall (fun piece => string_forall (fun c => negb (is_superscript_digit c)) piece = true)
    pieces ->
  Forall (fun piece => (N.of_nat (String.length piece) <= int_max_str_digits)%N
                       \/ string_forall is_decimal piece = false) pieces ->
  exists key, atoi_each pieces = Returned key.
Proof.
  induction pieces as [| t | t d pieces IH] using list_pair_ind;
    intros Hshape Hsup Hruns.
  - discriminate.
  - cbn [pieces_shape] in Hshape. inversion Hsup as [|? ? Ht _].
    cbn [atoi_each]. rewrite (atoi_plain_text t Hshape Ht). cbn [obind]. eauto.
  - cbn [pieces_shape] in Hshape. rewrite !andb_true_iff in Hshape.
    destruct Hshape as [[[Ht Hd] Hne] Hrest].
    apply negb_true_iff, String.eqb_neq in Hne.
    inversion Hsup as [|? ? Hts Hsup']. inversion Hsup' as [|? ? _ Hsup''].
    inversion Hruns as [|? ? _ Hruns']. inversion Hruns' as [|? ? Hrun Hruns''].
    destruct Hrun as [Hrun | Hrun]; [| congruence].
    destruct (IH Hrest Hsup'' Hruns'') as [key Hkey].
    cbn [atoi_each]. rewrite (atoi_plain_text t Ht Hts). cbn [obind].
    rewrite (atoi_decimals d Hd Hne Hrun). cbn [obind]. rewrite Hkey. cbn [obind]. eauto.
Qed.

(** On a text without superscript digits, so on every ASCII text, in which
    no run of decimal digits is longer than [int] reads, [natural_sort]
    returns a key. *)
Theorem natural_sort_returns :
  forall text : string,
    string_forall (fun c => negb (is_superscript_digit c)) text = true ->
    digit_runs_within int_max_str_digits text = true ->
    exists key, natural_sort text = Returned key.
Proof.
  intros text Htext Hruns. apply atoi_each_returns.
  - apply re_split_digits_shape.
  - now apply re_split_digits_forall.
  - now apply re_split_digits_within.
Qed.

Lemma natural_sort_returns_witness :
  exists key, natural_sort "episode_12_run-3.txt" = Returned key.
Proof. apply natural_sort_returns; reflexivity. Defined.

(** A run of more digits than [int] reads is refused: after a beginning
    without digits, it makes [natural_sort] raise [ValueError]. *)
Theorem natural_sort_digit_limit :
  forall p d s : string,
    string_forall (fun c => negb (is_digit_char c)) p = true ->
    string_forall is_decimal d = true ->
    (int_max_str_digits < N.of_nat (String.length d))%N ->
    no_leading_decimal s = true ->
    natural_sort (p ++ d ++ s)
      = Raised (ValueError
                  ("Exceeds the limit (4300 digits) for integer string conversion: value has "
                   ++ pretty (N.of_nat (String.length d))
                   ++ " digits; use sys.set_int_max_str_digits() to increase the limit")).
Proof.
  intros p d s Hp Hd Hlen Hs.
  assert (Hne : d <> EmptyString) by (intros ->; simpl in Hlen; lia).
  assert (Hdec : string_forall (fun c => negb (is_decimal c)) p = true).
  { apply (string_forall_weaken (fun c => negb (is_digit_char c))); [| exact Hp].
    intros c Hc. unfold is_digit_char in Hc. now destruct (is_decimal c). }
  assert (Hsup : string_forall (fun c => negb (is_superscript_digit c)) p = true).
  { apply (string_forall_weaken (fun c => negb (is_digit_char c))); [| exact Hp].
    intros c Hc. unfold is_digit_char in Hc.
    destruct (is_decimal c); [discriminate | exact Hc]. }
  unfold natural_sort. rewrite re_split_name_number by assumption.
  cbn [atoi_each]. rewrite (atoi_plain_text p Hdec Hsup). cbn [obind].
  unfold atoi, py_int. rewrite str_isdigit_decimals, Hd by assumption.
  destruct (N.ltb_spec int_max_str_digits (N.of_nat (String.length d))) as [_|E];
    [reflexivity | lia].
Qed.

Lemma natural_sort_digit_limit_witness :
  exists msg,
    natural_sort ("file" ++ string_repeat "9" 4301 ++ ".txt") = Raised (ValueError msg).
Proof.
  eexists.
  apply (natural_sort_digit_limit "file" (string_repeat "9" 4301) ".txt");
    vm_compute; reflexivity.
Defined.

Lemma superscript_not_decimal (c : ascii) :
  is_superscript_digit c = true -> is_decimal c = false.
Proof.
  unfold is_superscript_digit, is_decimal.
  destruct (Nat.eqb_spec (nat_of_ascii c) 178) as [->|_]; [reflexivity |].
  destruct (Nat.eqb_spec (nat_of_ascii c) 179) as [->|_]; [reflexivity |].
  destruct (Nat.eqb_spec (nat_of_ascii c) 185) as [->|_]; [reflexivity | discriminate].
Qed.

(** A text that is made of superscript digits only (and is not empty) passes
    [isdigit] as a whole, and [int] refuses it: [natural_sort] raises
    [ValueError], whose message quotes the text, cut after 200 characters. *)
Theorem natural_sort_superscript_digits :
  forall text : string,
    text <> EmptyString ->
    string_forall is_superscript_digit text = true ->
    natural_sort text
      = Raised (ValueError ("invalid literal for int() with base 10: "
                            ++ str_take 200 ("'" ++ text ++ "'"))).
Proof.
  intros text Hne Hsup.
  assert (Hnodec : string_forall (fun c => negb (is_decimal c)) text = true).
  { apply (string_forall_weaken is_superscript_digit); [| exact Hsup].
    intros c Hc. now rewrite (superscript_not_decimal c Hc). }
  unfold natural_sort.
  rewrite <- (string_app_empty text) at 1.
  rewrite (re_split_text_prefix text EmptyString Hnodec).
  cbn [re_split_digits]. rewrite string_app_empty.
  cbn [atoi_each]. unfold atoi, py_int.
  assert (Hdigit : str_isdigit text = true).
  { destruct text as [|c text]; [congruence |]. unfold str_isdigit.
    apply (string_forall_weaken is_superscript_digit); [| exact Hsup].
    intros x Hx. unfold is_digit_char. rewrite Hx. apply orb_true_r. }
  assert (Hdec : string_forall is_decimal text = false).
  { destruct text as [|c text]; [congruence |]. cbn [string_forall] in *.
    apply andb_prop in Hsup. destruct Hsup as [Hc _].
    now rewrite (superscript_not_decimal c Hc). }
  now rewrite Hdigit, Hdec.
Qed.

Lemma natural_sort_superscript_digits_witness :
  natural_sort (String (ascii_of_nat 178) EmptyString)
    = Raised (ValueError ("invalid literal for int() with base 10: "
                            ++ str_take 200
                                 ("'" ++ String (ascii_of_nat 178) EmptyString ++ "'"))).
Proof.
  apply natural_sort_superscript_digits; [discriminate | reflexivity].
Defined.

(** Where two names agree on a digit-free beginning and go on with a
    number, the key with the smaller number is the smaller, however many
    digits the numbers have (so file2 comes before file10, which as plain
    strings compare the other way round). *)
Theorem natural_sort_numeric_order :
  forall (p d d' s s' : string) (key key' : list key_item),
    string_forall (fun c => negb (is_decimal c)) p = true ->
    string_forall is_decimal d = true -> d <> EmptyString ->
    string_forall is_decimal d' = true -> d' <> EmptyString ->
    no_leading_decimal s = true -> no_leading_decimal s' = true ->
    natural_sort (p ++ d ++ s) = Returned key ->
    natural_sort (p ++ d' ++ s') = Returned key' ->
    (int_of_decimals 0 d < int_of_decimals 0 d')%N ->
    key_lt key key' = Compared true /\ key_lt key' key = Compared false.
Proof.
  intros p d d' s s' key key' Hp Hd Hne Hd' Hne' Hs Hs' Hkey Hkey' Hlt.
  unfold natural_sort in Hkey, Hkey'.
  rewrite re_split_name_number in Hkey, Hkey' by assumption.
  cbn [atoi_each] in Hkey, Hkey'.
  destruct (atoi p) as [item|e] eqn:Ep; [| discriminate].
  apply (atoi_text p item Hp) in Ep. subst item. cbn [obind] in Hkey, Hkey'.
  destruct (atoi d) as [number|e] eqn:Ed; [| discriminate].
  apply (atoi_decimals_returned d number Hd Hne) in Ed. subst number.
  destruct (atoi d') as [number|e] eqn:Ed'; [| discriminate].
  apply (atoi_decimals_returned d' number Hd' Hne') in Ed'. subst number.
  cbn [obind] in Hkey, Hkey'.
  destruct (atoi_each (re_split_digits s)) as [rest|e]; [| discriminate].
  destruct (atoi_each (re_split_digits s')) as [rest'|e]; [| discriminate].
  cbn [obind] in Hkey, Hkey'. injection Hkey as <-. injection Hkey' as <-.
  cbn [key_lt item_eqb item_lt]. rewrite String.eqb_refl.
  assert (Hne1 : N.eqb (int_of_decimals 0 d) (int_of_decimals 0 d') = false)
    by (apply N.eqb_neq; lia).
  assert (Hne2 : N.eqb (int_of_decimals 0 d') (int_of_decimals 0 d) = false)
    by (apply N.eqb_neq; lia).
  rewrite Hne1, Hne2. split; f_equal.
  - apply N.ltb_lt. exact Hlt.
  - apply N.ltb_ge. lia.
Qed.

Lemma natural_sort_numeric_order_witness :
  key_lt [KeyText "file"; KeyInt 2; KeyText ".txt"]
         [KeyText "file"; KeyInt 10; KeyText ""] = Compared true /\
  key_lt [KeyText "file"; KeyInt 10; KeyText ""]
         [KeyText "file"; KeyInt 2; KeyText ".txt"] = Compared false.
Proof.
  apply (natural_sort_numeric_order "file" "2" "10" ".txt" "");
    try reflexivity; try discriminate.
Defined.

Example plain_strings_order_by_character :
  str_ltb "file10" "file2.txt" = true.
Proof. reflexivity. Qed.

(** Zeros in front of a number do not show in the key: after a digit-free
    beginning, a number and the same number with one more leading zero give
    the same outcome (file007 and file07 have equal keys), as long as the
    longer of the two stays within the number of digits [int] reads. *)
Theorem natural_sort_leading_zero :
  forall p d s : string,
    string_forall (fun c => negb (is_decimal c)) p = true ->
    string_forall is_decimal d = true -> d <> EmptyString ->
    no_leading_decimal s = true ->
    (N.of_nat (String.length (String "0" d)) <= int_max_str_digits)%N ->
    natural_sort (p ++ String "0" d ++ s) = natural_sort (p ++ d ++ s).
Proof.
  intros p d s Hp Hd Hne Hs Hlen. unfold natural_sort.
  assert (Hd0 : string_forall is_decimal (String "0" d) = true)
    by (cbn [string_forall]; now rewrite Hd).
  assert (Hne0 : String "0" d <> EmptyString) by discriminate.
  assert (Hlen' : (N.of_nat (String.length d) <= int_max_str_digits)%N)
    by (cbn [String.length] in Hlen; lia).
  rewrite (re_split_name_number p (String "0" d) s Hp Hd0 Hne0 Hs).
  rewrite (re_split_name_number p d s Hp Hd Hne Hs).
  cbn [atoi_each].
  rewrite (atoi_decimals (String "0" d) Hd0 Hne0 Hlen), (atoi_decimals d Hd Hne Hlen').
  reflexivity.
Qed.

Lemma natural_sort_leading_zero_witness :
  natural_sort ("file" ++ String "0" "07" ++ ".txt") = natural_sort ("file" ++ "07" ++ ".txt").
Proof.
  apply natural_sort_leading_zero; try reflexivity; try discriminate.
Defined.

(** One digit more than [int] reads makes the difference: a run of 4300
    nines is read, and the same run after a zero is refused. *)
Example natural_sort_leading_zero_at_the_limit :
  (exists key, natural_sort (string_repeat "9" 4300) = Returned key) /\
  (exists msg, natural_sort (String "0" (string_repeat "9" 4300))
               = Raised (ValueError msg)).
Proof. split; eexists; vm_compute; reflexivity. Qed.

(** ** Scores of a perfect prediction *)

Lemma insert_label_In (z l : Z) (labels : list Z) :
  In l (insert_label z labels) <-> l = z \/ In l labels.
Proof.
  induction labels as [|y labels IH]; cbn [insert_label].
  - simpl. intuition congruence.
  - destruct (Z.ltb z y); [simpl; intuition congruence |].
    destruct (Z.eqb_spec z y) as [->|_]; simpl in *; intuition congruence.
Qed.

Lemma unique_labels_In (l : Z) (y_true y_pred : list Z) :
  In l (unique_labels y_true y_pred) <-> In l (y_true ++ y_pred).
Proof.
  unfold unique_labels. induction (y_true ++ y_pred) as [|z xs IH]; cbn [fold_right].
  - reflexivity.
  - rewrite insert_label_In, IH. simpl. intuition congruence.
Qed.

Lemma tp_sum_same (l : Z) (labels : list Z) :
  tp_sum l labels labels = true_sum l labels.
Proof.
  unfold tp_sum, true_sum. induction labels as [|x labels IH]; [reflexivity |].
  cbn [combine List.filter fst snd]. destruct (Z.eqb x l); cbn [andb length]; now rewrite ?IH.
Qed.

Lemma true_sum_pos (l : Z) (labels : list Z) : In l labels -> 0 < true_sum l labels.
Proof.
  unfold true_sum. induction labels as [|x labels IH]; [intros [] |].
  intros [-> | Hin]; cbn [List.filter].
  - rewrite Z.eqb_refl. simpl. lia.
  - destruct (Z.eqb x l); simpl; [lia | auto].
Qed.

Lemma prf_divide_same (k : nat) : 0 < k -> @prf_divide xreal _ k k = Fin 1.
Proof.
  intros Hk. unfold prf_divide.
  destruct (Nat.eqb_spec k 0) as [E|_]; [lia |]. xreal_ops.
  rewrite xdiv_fin by (apply INR_pos_nonzero; lia). f_equal.
  apply Rinv_r, INR_pos_nonzero. lia.
Qed.

Lemma Rsum_ones (rs : list R) :
  Forall (fun r => r = 1%R) rs -> Rsum rs = INR (length rs).
Proof.
  induction 1 as [|r rs -> _ IH]; [reflexivity |].
  rewrite Rsum_cons, IH. change (length (1%R :: rs)) with (S (length rs)).
  rewrite S_INR. lra.
Qed.

Lemma np_mean_ones {A : Type} (f : A -> xreal) (l : list A) :
  l <> [] -> (forall a, In a l -> f a = Fin 1) -> np_mean (map f l) = Fin 1.
Proof.
  intros Hne Hf.
  assert (E : map f l = map Fin (map (fun _ => 1%R) l)).
  { rewrite map_map. apply map_ext_in. exact Hf. }
  rewrite E, np_mean_fin by (destruct l; [congruence | discriminate]).
  f_equal. unfold arithmetic_mean. rewrite Rsum_ones.
  - apply Rinv_r, INR_pos_nonzero. rewrite length_map.
    destruct l; [congruence | simpl; lia].
  - apply List.Forall_forall. intros r Hr. apply in_map_iff in Hr.
    now destruct Hr as [_ [<- _]].
Qed.

(** In exact arithmetic: when the prediction matrix decodes to the true
    labels themselves (of at least one example), accuracy, macro F1, macro
    precision and macro recall are all exactly 1. *)
Theorem perfect_prediction_scores_one :
  forall (y_true : list Z) (y_pred : ndarray xreal),
    y_true <> [] ->
    decode y_pred = Returned y_true ->
    accuracy y_true y_pred = Returned (Fin 1) /\
    macro_f1_score y_true y_pred = Returned (Fin 1) /\
    macro_precision y_true y_pred = Returned (Fin 1) /\
    macro_recall y_true y_pred = Returned (Fin 1).
Proof.
  intros y_true y_pred Hne Hdec.
  assert (Hclass : forall l, In l (unique_labels y_true y_true) ->
             @class_precision xreal _ y_true y_true l = Fin 1 /\
             @class_recall xreal _ y_true y_true l = Fin 1).
  { intros l Hl. apply unique_labels_In, in_app_iff in Hl.
    assert (Hin : In l y_true) by (destruct Hl; assumption).
    pose proof (true_sum_pos l y_true Hin) as Hpos.
    unfold class_precision, class_recall, pred_sum.
    rewrite tp_sum_same. fold (true_sum l y_true).
    split; now apply prf_divide_same. }
  assert (Hf1 : forall l, In l (unique_labels y_true y_true) ->
             @class_f1 xreal _ y_true y_true l = Fin 1).
  { intros l Hl. apply unique_labels_In, in_app_iff in Hl.
    assert (Hin : In l y_true) by (destruct Hl; assumption).
    pose proof (true_sum_pos l y_true Hin) as Hpos.
    unfold class_f1, pred_sum. rewrite tp_sum_same. fold (true_sum l y_true).
    replace (true_sum l y_true + true_sum l y_true) with (2 * true_sum l y_true) by lia.
    apply prf_divide_same. lia. }
  pose proof (unique_labels_nonempty y_true y_true Hne) as Hlabels.
  unfold accuracy, macro_f1_score, macro_precision, macro_recall.
  rewrite Hdec. cbn [obind].
  unfold f1_score, precision_score, recall_score, macro_average.
  rewrite !checked_lengths_valid by (reflexivity || assumption).
  cbn [reraise_as_score_error].
  split; [| split; [| split]].
  - rewrite accuracy_score_exact by (reflexivity || assumption).
    cbn [reraise_as_score_error]. do 2 f_equal. rewrite count_matches_same.
    apply Rinv_r, INR_pos_nonzero. destruct y_true; [congruence | simpl; lia].
  - f_equal. now apply np_mean_ones.
  - f_equal. apply np_mean_ones; [assumption |]. intros l Hl. now apply Hclass.
  - f_equal. apply np_mean_ones; [assumption |]. intros l Hl. now apply Hclass.
Qed.

Lemma perfect_prediction_scores_one_witness :
  accuracy [0; 1; 1; 0]%Z (Array2 2 four_exact_rows) = Returned (Fin 1) /\
  macro_f1_score [0; 1; 1; 0]%Z (Array2 2 four_exact_rows) = Returned (Fin 1) /\
  macro_precision [0; 1; 1; 0]%Z (Array2 2 four_exact_rows) = Returned (Fin 1) /\
  macro_recall [0; 1; 1; 0]%Z (Array2 2 four_exact_rows) = Returned (Fin 1).
Proof.
  apply perfect_prediction_scores_one; [discriminate | apply decode_four_exact_rows].
Defined.

(** The same batch on binary64. *)
Example perfect_prediction_binary64 :
  macro_f1_score [0; 1; 1; 0]%Z four_examples = Returned 1%float /\
  macro_precision [0; 1; 1; 0]%Z four_examples = Returned 1%float /\
  macro_recall [0; 1; 1; 0]%Z four_examples = Returned 1%float.
Proof. repeat split; vm_compute; reflexivity. Qed.

(** ** [create_heatmap] in exact arithmetic: what the grid counts *)

Lemma create_heatmap_exact
    (data : gmap string (gmap string (list xreal)))
    (keys yticks : list string) (score_name title path : string)
    (collections : list (list R)) :
  keys <> [] ->
  Forall2 (holds_scores data score_name) keys collections ->
  exists (lo hi : R) (figure : heatmap_figure xreal),
    create_heatmap data keys yticks score_name title path = Returned figure /\
    is_minimum_of lo (concat collections) /\
    is_maximum_of hi (concat collections) /\
    hm_bins figure = map Fin (shared_edges lo hi) /\
    hm_grid figure = map (fun rs => bin_counts rs (shared_edges lo hi)) collections.
Proof.
  intros Hne Hall.
  destruct (heatmap_limits_global data score_name keys collections Hne Hall)
    as [lo [hi [Hlimits [Hmin Hmax]]]].
  assert (Hle : (lo <= hi)%R) by (destruct Hmin as [_ Hmin], Hmax as [Hin _]; auto).
  pose proof (shared_edges_nondecreasing lo hi Hle) as Hnd.
  exists lo, hi. eexists. unfold create_heatmap.
  rewrite Hlimits. cbn [obind fst snd]. rewrite np_linspace_edges.
  rewrite (heatmap_rows_counts data score_name keys collections _ Hnd Hall).
  cbn [obind]. split; [reflexivity |]. cbn [hm_bins hm_grid]. auto.
Qed.

Lemma count_if_all (p : R -> bool) (rs : list R) :
  (forall r, r ∈ rs -> p r = true) -> count_if p rs = Z.of_nat (length rs).
Proof.
  intros Hp. induction rs as [|r rs IH]; [reflexivity |].
  rewrite count_if_cons, (Hp r) by now left.
  rewrite IH by (intros x Hx; apply Hp; now right). cbn [length]. lia.
Qed.

Lemma count_if_none (p : R -> bool) (rs : list R) :
  (forall r, r ∈ rs -> p r = false) -> count_if p rs = 0%Z.
Proof.
  intros Hp. induction rs as [|r rs IH]; [reflexivity |].
  rewrite count_if_cons, (Hp r) by now left.
  rewrite IH by (intros x Hx; apply Hp; now right). reflexivity.
Qed.

Lemma bin_counts_nonneg (rs edges : list R) :
  Forall (fun c => 0 <= c)%Z (bin_counts rs edges).
Proof.
  induction edges as [| a | a b edges IH] using list_pair_ind.
  - constructor.
  - constructor.
  - assert (Hboth : forall a b edges,
               Forall (fun c => 0 <= c)%Z (bin_counts rs (b :: edges)) ->
               Forall (fun c => 0 <= c)%Z (bin_counts rs (a :: b :: edges))).
    { intros a' b' edges' H. cbn [bin_counts]. constructor; [| exact H].
      destruct edges'; unfold count_if; lia. }
    apply Hboth. destruct edges as [|c edges]; [constructor |].
    apply Hboth. exact IH.
Qed.

Lemma Returned_inj {A : Type} (a b : A) : Returned a = Returned b -> a = b.
Proof. now intros [= ->]. Qed.

Lemma bin_counts_total (rs : list R) (lo hi : R) :
  (lo <= hi)%R ->
  (forall r, r ∈ rs -> (lo <= r <= hi)%R) ->
  Zsum (bin_counts rs (shared_edges lo hi)) = Z.of_nat (length rs).
Proof.
  intros Hle Hin.
  pose proof (np_histogram_counts rs (shared_edges lo hi)
                (shared_edges_nondecreasing lo hi Hle)) as Hhist.
  unfold np_histogram in Hhist.
  rewrite decreases_somewhere_fin in Hhist by now apply shared_edges_nondecreasing.
  apply Returned_inj in Hhist. rewrite <- Hhist.
  unfold shared_edges. cbn [seq map removelast length Nat.sub skipn app].
  rewrite !searchsorted_left_fin, searchsorted_right_fin.
  cbn [np_diff Zsum fold_right].
  rewrite bin_edge_first, bin_edge_last.
  rewrite (count_if_all (fun r => R_leb r hi) rs)
    by (intros r Hr; apply R_leb_true; now apply Hin).
  rewrite (count_if_none (fun r => R_ltb r lo) rs)
    by (intros r Hr; apply R_ltb_false; now apply Hin).
  lia.
Qed.

Lemma elem_of_concat_row (collections : list (list R)) (rs : list R) (r : R) :
  rs ∈ collections -> r ∈ rs -> r ∈ concat collections.
Proof.
  intros Hrs Hr. induction collections as [|x collections IH]; [inversion Hrs |].
  cbn [concat]. apply elem_of_app. apply elem_of_cons in Hrs.
  destruct Hrs as [-> | Hrs]; [now left | right; now apply IH].
Qed.

(** In exact arithmetic, for at least one listed key and non-empty
    collections of finite scores: every score of a group is counted in
    exactly one bin of the group's row, so the counts of a row are
    non-negative and add up to the size of the group's collection. *)
Theorem create_heatmap_counts_every_score :
  forall (data : gmap string (gmap string (list xreal)))
         (keys yticks : list string) (score_name title path : string)
         (collections : list (list R)),
    keys <> [] ->
    Forall2 (holds_scores data score_name) keys collections ->
    exists figure : heatmap_figure xreal,
      create_heatmap data keys yticks score_name title path = Returned figure /\
      Forall2 (fun rs row =>
                 Zsum row = Z.of_nat (length rs) /\ Forall (fun c => 0 <= c)%Z row)
        collections (hm_grid figure).
Proof.
  intros data keys yticks score_name title path collections Hne Hall.
  destruct (create_heatmap_exact data keys yticks score_name title path collections Hne Hall)
    as [lo [hi [figure [Hfig [[_ Hmin] [[Hhi Hmax] [_ Hgrid]]]]]]].
  exists figure. split; [exact Hfig |]. rewrite Hgrid.
  assert (Hle : (lo <= hi)%R) by auto.
  apply Forall2_fmap_r, Forall_Forall2_diag, List.Forall_forall.
  intros rs Hrs. apply list_elem_of_In in Hrs. split; [| apply bin_counts_nonneg].
  apply bin_counts_total; [exact Hle |].
  intros r Hr. pose proof (elem_of_concat_row collections rs r Hrs Hr). auto.
Qed.

Lemma create_heatmap_counts_every_score_witness :
  exists figure : heatmap_figure xreal,
    create_heatmap two_exact_groups ["a"; "b"] ["A"; "B"]
      "Accuracy" "Frequency heatmap" "heatmap" = Returned figure /\
    Forall2 (fun rs row =>
               Zsum row = Z.of_nat (length rs) /\ Forall (fun c => 0 <= c)%Z row)
      [[1; 5]; [9; 2; 3]]%R (hm_grid figure).
Proof.
  apply (create_heatmap_counts_every_score two_exact_groups ["a"; "b"] ["A"; "B"]
           "Accuracy" "Frequency heatmap" "heatmap" [[1; 5]; [9; 2; 3]]%R).
  - discriminate.
  - repeat constructor; discriminate.
Defined.

Lemma map_Fin_inj (rs rs' : list R) : map Fin rs = map Fin rs' -> rs = rs'.
Proof.
  revert rs'. induction rs as [|r rs IH]; intros [|r' rs']; try discriminate.
  - reflexivity.
  - cbn [map]. intros [= -> H]. f_equal. now apply IH.
Qed.

Lemma holds_scores_functional data score_name key (rs rs' : list R) :
  holds_scores data score_name key rs ->
  holds_scores data score_name key rs' -> rs = rs'.
Proof.
  intros [_ H] [_ H']. rewrite H in H'. apply Returned_inj in H'.
  now apply map_Fin_inj.
Qed.

Lemma elem_of_concat_inv (collections : list (list R)) (r : R) :
  r ∈ concat collections -> exists rs, rs ∈ collections /\ r ∈ rs.
Proof.
  induction collections as [|x collections IH]; cbn [concat]; [intros H; inversion H |].
  intros H. apply elem_of_app in H. destruct H as [H | H].
  - exists x. split; [now left | exact H].
  - destruct (IH H) as [rs [Hrs Hr]]. exists rs. split; [now right | exact Hr].
Qed.

Lemma collections_subset data score_name
    (keys keys' : list string) (collections collections' : list (list R)) :
  Forall2 (holds_scores data score_name) keys collections ->
  Forall2 (holds_scores data score_name) keys' collections' ->
  (forall key, key ∈ keys -> key ∈ keys') ->
  forall r, r ∈ concat collections -> r ∈ concat collections'.
Proof.
  intros Hall Hall' Hsub r Hr.
  destruct (elem_of_concat_inv collections r Hr) as [rs [Hrs Hin]].
  apply list_elem_of_lookup in Hrs. destruct Hrs as [i Hi].
  destruct (Forall2_lookup_r _ _ _ _ _ Hall Hi) as [key [Hkey Hholds]].
  assert (Hkey' : key ∈ keys') by (apply Hsub, list_elem_of_lookup; eauto).
  apply list_elem_of_lookup in Hkey'. destruct Hkey' as [j Hj].
  destruct (Forall2_lookup_l _ _ _ _ _ Hall' Hj) as [rs' [Hrs' Hholds']].
  rewrite (holds_scores_functional data score_name key rs rs' Hholds Hholds') in Hin.
  apply (elem_of_concat_row collections' rs'); [| exact Hin].
  apply list_elem_of_lookup. eauto.
Qed.

(** In exact arithmetic: two lists of keys that name the same groups, in any
    order and with any repetitions, give the same bin edges, and the row of
    a key holds the same counts wherever the key stands in either list. *)
Theorem create_heatmap_key_order :
  forall (data : gmap string (gmap string (list xreal)))
         (keys keys' yticks yticks' : list string) (score_name title path : string)
         (collections collections' : list (list R)),
    keys <> [] ->
    Forall2 (holds_scores data score_name) keys collections ->
    Forall2 (holds_scores data score_name) keys' collections' ->
    (forall key, key ∈ keys <-> key ∈ keys') ->
    exists figure figure' : heatmap_figure xreal,
      create_heatmap data keys yticks score_name title path = Returned figure /\
      create_heatmap data keys' yticks' score_name title path = Returned figure' /\
      hm_bins figure = hm_bins figure' /\
      (forall i j key,
          keys !! i = Some key -> keys' !! j = Some key ->
          hm_grid figure !! i = hm_grid figure' !! j).
Proof.
  intros data keys keys' yticks yticks' score_name title path collections collections'
    Hne Hall Hall' Hsame.
  assert (Hne' : keys' <> []).
  { destruct keys as [|k keys]; [congruence |].
    assert (Hk : k ∈ keys') by (apply Hsame; now left).
    intros ->. inversion Hk. }
  destruct (create_heatmap_exact data keys yticks score_name title path collections Hne Hall)
    as [lo [hi [figure [Hfig [[Hlo Hmin] [[Hhi Hmax] [Hbins Hgrid]]]]]]].
  destruct (create_heatmap_exact data keys' yticks' score_name title path collections' Hne' Hall')
    as [lo' [hi' [figure' [Hfig' [[Hlo' Hmin'] [[Hhi' Hmax'] [Hbins' Hgrid']]]]]]].
  assert (Hto : forall r, r ∈ concat collections -> r ∈ concat collections')
    by (apply (collections_subset data score_name keys keys'); auto; intros; now apply Hsame).
  assert (Hfrom : forall r, r ∈ concat collections' -> r ∈ concat collections)
    by (apply (collections_subset data score_name keys' keys); auto; intros; now apply Hsame).
  assert (Elo : lo = lo').
  { pose proof (Hmin lo' (Hfrom lo' Hlo')). pose proof (Hmin' lo (Hto lo Hlo)). lra. }
  assert (Ehi : hi = hi').
  { pose proof (Hmax hi' (Hfrom hi' Hhi')). pose proof (Hmax' hi (Hto hi Hhi)). lra. }
  subst lo' hi'. exists figure, figure'.
  split; [exact Hfig |]. split; [exact Hfig' |]. split; [now rewrite Hbins, Hbins' |].
  intros i j key Hi Hj. rewrite Hgrid, Hgrid'.
  destruct (Forall2_lookup_l _ _ _ _ _ Hall Hi) as [rs [Hrs Hholds]].
  destruct (Forall2_lookup_l _ _ _ _ _ Hall' Hj) as [rs' [Hrs' Hholds']].
  change (map (fun rs => bin_counts rs (shared_edges lo hi)) collections !! i
          = map (fun rs => bin_counts rs (shared_edges lo hi)) collections' !! j).
  rewrite !list_lookup_fmap, Hrs, Hrs'. cbn.
  now rewrite (holds_scores_functional data score_name key rs rs' Hholds Hholds').
Qed.

Lemma create_heatmap_key_order_witness :
  exists figure figure' : heatmap_figure xreal,
    create_heatmap two_exact_groups ["a"; "b"] ["A"; "B"]
      "Accuracy" "Frequency heatmap" "heatmap" = Returned figure /\
    create_heatmap two_exact_groups ["b"; "a"; "b"] ["B"; "A"; "B"]
      "Accuracy" "Frequency heatmap" "heatmap" = Returned figure' /\
    hm_bins figure = hm_bins figure' /\
    (forall i j key,
        ["a"; "b"] !! i = Some key -> ["b"; "a"; "b"] !! j = Some key ->
        hm_grid figure !! i = hm_grid figure' !! j).
Proof.
  apply (create_heatmap_key_order two_exact_groups ["a"; "b"] ["b"; "a"; "b"]
           ["A"; "B"] ["B"; "A"; "B"] "Accuracy" "Frequency heatmap" "heatmap"
           [[1; 5]; [9; 2; 3]]%R [[9; 2; 3]; [1; 5]; [9; 2; 3]]%R).
  - discriminate.
  - repeat constructor; discriminate.
  - repeat constructor; discriminate.
  - intros key. rewrite !elem_of_cons, !elem_of_nil. tauto.
Defined.

(** ** [create_histogram]: the range of the x-axis *)

Example isclose_tolerances_binary64 :
  @isclose_rtol float _ = 1e-05%float /\ @isclose_atol float _ = 1e-08%float.
Proof. split; vm_compute; reflexivity. Qed.

Lemma f_abs_fin (a : R) : f_abs (Fin a) = Fin (Rabs a).
Proof.
  unfold f_abs. xreal_ops. cbn [xltb xsub xneg xadd]. change (INR 0) with 0%R.
  unfold R_ltb, Rabs. destruct (Rlt_dec a 0), (Rcase_abs a); try lra; f_equal; lra.
Qed.

Lemma f_pow10_fin (k : nat) : f_pow10 k = Fin (10 ^ k).
Proof.
  induction k as [|k IH]; cbn [f_pow10]; xreal_ops.
  - reflexivity.
  - rewrite IH. cbn [xmul]. f_equal. inr_literals. simpl. lra.
Qed.

Lemma np_isclose_fin (a b : R) :
  np_isclose (Fin a) (Fin b) = true <-> close_reals a b.
Proof.
  unfold np_isclose, np_isfinite, isclose_atol, isclose_rtol, close_reals.
  assert (Esub : f_sub (Fin a) (Fin b) = Fin (a - b)) by reflexivity.
  rewrite Esub, !f_abs_fin, !f_pow10_fin. xreal_ops.
  rewrite !xdiv_fin by (apply pow_nonzero; lra).
  cbn [xmul xadd xleb xisnan xeqb negb andb].
  assert (E1 : INR 1 = 1%R) by reflexivity.
  assert (E5 : (10 ^ 5 = 100000)%R) by (simpl; lra).
  assert (E8 : (10 ^ 8 = 100000000)%R) by (simpl; lra).
  rewrite E1, E5, E8, andb_true_r, orb_true_iff, R_leb_true, R_eqb_true.
  split; [| now left].
  intros [Hclose | ->]; [exact Hclose |].
  replace (b - b)%R with 0%R by lra. rewrite Rabs_R0.
  pose proof (Rabs_pos b). lra.
Qed.

(** In exact arithmetic, for a non-empty collection of finite scores: the
    x-axis is either left alone, when the least and the greatest score are
    within the tolerance of [np.isclose] (as they are when all scores are
    equal), or set to exactly the least and the greatest score, which then
    differ: it is never given an empty or a reversed range. *)
Theorem histogram_xlim_range :
  forall scores : list R,
    scores <> [] ->
    exists lo hi : R,
      is_minimum_of lo scores /\ is_maximum_of hi scores /\
      (close_reals lo hi -> histogram_xlim (map Fin scores) = Returned None) /\
      (~ close_reals lo hi ->
       histogram_xlim (map Fin scores) = Returned (Some (Fin lo, Fin hi)) /\
       (lo < hi)%R).
Proof.
  intros scores Hne. destruct scores as [|r rs]; [congruence |].
  exists (fold_left Rmin rs r), (fold_left Rmax rs r).
  destruct (fold_Rmin_least rs r) as [Hle [Hall Hin]].
  destruct (fold_Rmax_greatest rs r) as [Hge [Hall' Hin']].
  set (lo := fold_left Rmin rs r) in *. set (hi := fold_left Rmax rs r) in *.
  assert (Hxlim : histogram_xlim (map Fin (r :: rs))
                  = if negb (np_isclose (Fin lo) (Fin hi))
                    then Returned (Some (Fin lo, Fin hi)) else Returned None).
  { unfold histogram_xlim. cbn [map np_min np_max obind].
    now rewrite fold_np_minimum_fin, fold_np_maximum_fin. }
  split; [| split; [| split]].
  - split.
    + destruct Hin as [-> | Hin]; [now left | now right].
    + intros x Hx. apply elem_of_cons in Hx. destruct Hx as [-> | Hx]; auto.
  - split.
    + destruct Hin' as [-> | Hin']; [now left | now right].
    + intros x Hx. apply elem_of_cons in Hx. destruct Hx as [-> | Hx]; auto.
  - intros Hclose. rewrite Hxlim.
    apply np_isclose_fin in Hclose. now rewrite Hclose.
  - intros Hfar. rewrite Hxlim.
    destruct (np_isclose (Fin lo) (Fin hi)) eqn:E.
    + apply np_isclose_fin in E. contradiction.
    + split; [reflexivity |].
      destruct (Rle_lt_or_eq_dec lo hi) as [Hlt | Heq]; [lra | exact Hlt |].
      exfalso. apply Hfar. unfold close_reals. rewrite Heq.
      replace (hi - hi)%R with 0%R by lra. rewrite Rabs_R0.
      pose proof (Rabs_pos hi). lra.
Qed.

Lemma histogram_xlim_range_witness :
  exists lo hi : R,
    is_minimum_of lo [5; 1; 9]%R /\ is_maximum_of hi [5; 1; 9]%R /\
    (close_reals lo hi -> histogram_xlim (map Fin [5; 1; 9]%R) = Returned None) /\
    (~ close_reals lo hi ->
     histogram_xlim (map Fin [5; 1; 9]%R) = Returned (Some (Fin lo, Fin hi)) /\
     (lo < hi)%R).
Proof. apply (histogram_xlim_range [5; 1; 9]%R). discriminate. Defined.

(** On binary64: equal scores leave the axis alone; distinct ones set it. *)
Example histogram_xlim_binary64 :
  histogram_xlim [0.5; 0.5; 0.5]%float = Returned None /\
  histogram_xlim [0.5; 0.25; 0.75]%float = Returned (Some (0.25, 0.75)%float) /\
  histogram_xlim [0.5; 0.500000001]%float = Returned None.
Proof. repeat split; vm_compute; reflexivity. Qed.

(** * [zipdir] *)

Lemma str_take_app (a b : string) : str_take (String.length a) (a ++ b) = a.
Proof.
  induction a as [|c a IH]; [destruct b; reflexivity |].
  change (String c a ++ b)%string with (String c (a ++ b)).
  cbn [String.length str_take]. now rewrite IH.
Qed.

Lemma str_drop_app (a b : string) : str_drop (String.length a) (a ++ b) = b.
Proof.
  induction a as [|c a IH]; [destruct b; reflexivity |].
  change (String c a ++ b)%string with (String c (a ++ b)).
  cbn [String.length str_drop]. exact IH.
Qed.

Lemma path_join_relative (a b : string) :
  starts_with_sep b = false -> path_join a b = (a ++ sep_after a ++ b)%string.
Proof.
  intros Hb. unfold path_join, sep_after. rewrite Hb.
  destruct (String.eqb a EmptyString || ends_with_sep a); reflexivity.
Qed.

Lemma file_name_no_leading_sep (fn : string) :
  file_name fn -> starts_with_sep fn = false.
Proof.
  intros [Hne Hall]. destruct fn as [|c fn]; [reflexivity |].
  cbn [string_forall] in Hall. apply andb_prop in Hall.
  destruct Hall as [Hc _]. now apply negb_true_iff in Hc.
Qed.

Lemma starts_with_sep_app (a b : string) :
  a <> EmptyString -> starts_with_sep (a ++ b) = starts_with_sep a.
Proof. destruct a; [congruence | reflexivity]. Qed.

(** The name in the archive: the part after [basedir], less one leading
    separator. *)
Lemma zip_file_name (basedir w : string) (written : list (string * string))
    (root fn : string) :
  w <> EmptyString -> starts_with_sep w = false ->
  str_endswith fn ".zip" = false ->
  path_join root fn = (basedir ++ sep_after basedir ++ w)%string ->
  zip_file basedir root fn written
    = ((path_join root fn, w) :: written, Completed).
Proof.
  intros Hne Hw Hzip Habs. unfold zip_file. rewrite Hzip. cbn [negb].
  rewrite Habs, str_take_app, str_drop_app, String.eqb_refl. cbn [negb].
  unfold sep_after. destruct (String.eqb basedir EmptyString || ends_with_sep basedir).
  - change ("" ++ w)%string with w. destruct w as [|c w]; [congruence |].
    cbn [starts_with_sep] in Hw. now rewrite Hw.
  - reflexivity.
Qed.

Lemma zip_file_below_basedir (basedir root fn : string)
    (written : list (string * string)) :
  below_basedir basedir root -> file_name fn ->
  str_endswith fn ".zip" = false ->
  exists zfn,
    zip_file basedir root fn written = ((path_join root fn, zfn) :: written, Completed) /\
    path_join basedir zfn = path_join root fn.
Proof.
  intros Hroot Hfn Hzip.
  pose proof (file_name_no_leading_sep fn Hfn) as Hlead.
  destruct Hroot as [-> | [rel [Hrel [Hrel_lead ->]]]].
  - exists fn. split; [| reflexivity].
    apply zip_file_name; [apply Hfn | exact Hlead | exact Hzip |].
    now apply path_join_relative.
  - set (root := path_join basedir rel).
    set (w := (rel ++ sep_after root ++ fn)%string).
    assert (Hw_ne : w <> EmptyString) by (subst w; destruct rel; [congruence | discriminate]).
    assert (Hw_lead : starts_with_sep w = false)
      by (subst w; now rewrite starts_with_sep_app).
    assert (Habs : path_join root fn = (basedir ++ sep_after basedir ++ w)%string).
    { rewrite (path_join_relative root fn Hlead). subst root w.
      rewrite (path_join_relative basedir rel Hrel_lead).
      now rewrite !string_app_assoc. }
    exists w. split.
    + now apply zip_file_name.
    + rewrite Habs. now apply path_join_relative.
Qed.

Lemma zip_files_below_basedir (basedir root : string) (files : list string) :
  below_basedir basedir root -> Forall file_name files ->
  forall written : list (string * string),
    exists added : list (string * string),
      zip_files basedir root files written = (rev added ++ written, Completed) /\
      map fst added
        = map (path_join root)
            (List.filter (fun fn => negb (str_endswith fn ".zip")) files) /\
      Forall (fun e => path_join basedir (snd e) = fst e) added.
Proof.
  intros Hroot Hfiles. induction Hfiles as [|fn files Hfn _ IH]; intros written.
  - exists []. repeat split. constructor.
  - cbn [zip_files List.filter]. destruct (str_endswith fn ".zip") eqn:Hzip.
    + assert (E : zip_file basedir root fn written = (written, Completed))
        by (unfold zip_file; now rewrite Hzip).
      rewrite E. cbn [negb]. apply IH.
    + destruct (zip_file_below_basedir basedir root fn written Hroot Hfn Hzip)
        as [zfn [E Hjoin]].
      rewrite E. destruct (IH ((path_join root fn, zfn) :: written))
        as [added [Eadded [Hsrc Hok]]].
      exists ((path_join root fn, zfn) :: added). cbn [negb map fst rev].
      rewrite Eadded, Hsrc, <- app_assoc. repeat split.
      constructor; [exact Hjoin | exact Hok].
Qed.

Lemma zip_walk_below_basedir (basedir : string) (walk : list (string * list string)) :
  walked_from basedir walk ->
  forall written : list (string * string),
    exists added : list (string * string),
      zip_walk basedir walk written = (rev added ++ written, Completed) /\
      map fst added = files_to_archive walk /\
      Forall (fun e => path_join basedir (snd e) = fst e) added.
Proof.
  induction 1 as [|[root files] walk [Hroot Hfiles] _ IH]; intros written.
  - exists []. repeat split. constructor.
  - cbn [zip_walk]. cbn [fst snd] in Hroot, Hfiles.
    destruct (zip_files_below_basedir basedir root files Hroot Hfiles written)
      as [first [E [Hsrc Hok]]].
    rewrite E. destruct (IH (rev first ++ written)) as [others [E' [Hsrc' Hok']]].
    exists (first ++ others). rewrite E', rev_app_distr, <- app_assoc.
    split; [reflexivity |]. split.
    + rewrite map_app, Hsrc, Hsrc'. reflexivity.
    + apply Forall_app. now split.
Qed.

(** On a tree as [os.walk(basedir)] reports it, [zipdir] runs to the end
    without failing an assertion or an index; it archives the files whose
    names do not end in .zip, all of them and in the order of the walk, and
    names each one by its path relative to [basedir]: joining [basedir] and
    the name in the archive gives back the path of the file. *)
Theorem zipdir_relative_names :
  forall (archivename basedir : string) (walk : list (string * list string)),
    walked_from basedir walk ->
    exists entries : list (string * string),
      zipdir true archivename basedir walk = Archive entries Completed /\
      map fst entries = files_to_archive walk /\
      Forall (fun e => path_join basedir (snd e) = fst e) entries.
Proof.
  intros archivename basedir walk Hwalk.
  destruct (zip_walk_below_basedir basedir walk Hwalk []) as [added [E [Hsrc Hok]]].
  exists added. unfold zipdir. cbn [negb]. rewrite E, app_nil_r, rev_involutive.
  auto.
Qed.

Lemma zipdir_relative_names_witness :
  exists entries : list (string * string),
    zipdir true "mysubmission.zip" "model"
      [("model", ["model.py"; "old.zip"]); ("model/weights", ["w.bin"])]
      = Archive entries Completed /\
    map fst entries = ["model/model.py"; "model/weights/w.bin"] /\
    Forall (fun e => path_join "model" (snd e) = fst e) entries.
Proof.
  apply (zipdir_relative_names "mysubmission.zip" "model"
           [("model", ["model.py"; "old.zip"]); ("model/weights", ["w.bin"])]).
  assert (Hname : forall fn, fn <> EmptyString ->
             string_forall (fun c => negb (is_sep c)) fn = true -> file_name fn)
    by (intros fn H1 H2; now split).
  constructor; [| constructor; [| constructor]].
  - split; [now left |].
    constructor; [apply Hname; [discriminate | reflexivity] |].
    constructor; [apply Hname; [discriminate | reflexivity] | constructor].
  - split.
    + right. exists "weights". split; [discriminate |]. split; reflexivity.
    + constructor; [apply Hname; [discriminate | reflexivity] | constructor].
Defined.

(** * [get_score] and [compute_all_scores] together *)

Lemma getattr_score_function (name : string) (m : metric) :
  getattr module_namespace name = Some (ScoreFunction m) ->
  (name = "accuracy" /\ m = Accuracy) \/
  (name = "macro_f1_score" /\ m = MacroF1Score) \/
  (name = "macro_precision" /\ m = MacroPrecision) \/
  (name = "macro_recall" /\ m = MacroRecall).
Proof.
  unfold module_namespace. cbn [map app getattr].
  repeat match goal with
         | |- context [String.eqb ?s name] =>
             destruct (String.eqb_spec s name) as [<- | _];
             [ intros [= <-] || discriminate; tauto | ]
         end.
  discriminate.
Qed.

(** On every arithmetic: when [get_score] resolves the configured name to
    one of the score functions, the label it returns is a key of the
    mapping [compute_all_scores] returns, bound to the value of that very
    function on the same input. *)
Theorem get_score_label_indexes_scores :
  forall (F : Type) (A : Arith F) (scores_txt label : string) (m : metric)
         (y_true : list Z) (y_pred : ndarray F) (scores : gmap string F),
    get_score scores_txt = Returned (label, ScoreFunction m) ->
    compute_all_scores y_true y_pred = Returned scores ->
    exists value,
      metric_function m y_true y_pred = Returned value /\
      scores !! label = Some value.
Proof.
  intros F A scores_txt label m y_true y_pred scores Hget Hall.
  unfold get_score in Hget.
  destruct (getattr module_namespace (strip (readline scores_txt))) as [a|] eqn:Ha;
    [| discriminate].
  injection Hget as Hlabel ->.
  unfold compute_all_scores, scoring, score_one in Hall.
  cbn [fold_left fst snd obind] in Hall.
  destruct (score_functions_after_decoding F A y_true y_pred)
    as [[e [_ [Hacc _]]] | [[labels [cause [_ [_ [Hacc _]]]]]
        | [labels [a [f [p [r [_ [_ [Hacc [Hf [Hp Hr]]]]]]]]]]]].
  - rewrite Hacc in Hall. discriminate.
  - rewrite Hacc in Hall. discriminate.
  - rewrite Hacc, Hf, Hp, Hr in Hall. cbn [obind] in Hall.
    apply Returned_inj in Hall. subst scores.
    destruct (getattr_score_function _ m Ha)
      as [[E ->] | [[E ->] | [[E ->] | [E ->]]]];
      rewrite E in Hlabel; vm_compute in Hlabel; subst label; cbn [metric_function];
      eexists; (split; [eassumption |]); by simplify_map_eq.
Qed.

Lemma get_score_label_indexes_scores_witness :
  exists (scores : gmap string float) (value : float),
    compute_all_scores [0; 1; 0; 2]%Z four_examples = Returned scores /\
    macro_recall [0; 1; 0; 2]%Z four_examples = Returned value /\
    scores !! "Macro Recall" = Some value.
Proof.
  destruct (compute_all_scores [0; 1; 0; 2]%Z four_examples) as [scores|e] eqn:Hall.
  - destruct (get_score_label_indexes_scores float float_arith
                "macro_recall" "Macro Recall" MacroRecall
                [0; 1; 0; 2]%Z four_examples scores) as [value [Hvalue Hlookup]].
    + vm_compute. reflexivity.
    + exact Hall.
    + exists scores, value. split; [reflexivity |]. split; assumption.
  - vm_compute in Hall. discriminate.
Defined.

(** * The mean of scores stays a score *)

(** In exact arithmetic, for any confidence level and quantile function:
    the mean [mean_confidence_interval] returns for a non-empty collection
    of scores of the interval [0, 1] lies in [0, 1] itself. *)
Theorem mean_of_unit_scores :
  forall (ss_t_ppf : xreal -> nat -> xreal) (scores : list R) (confidence : xreal),
    scores <> [] ->
    Forall (fun r => 0 <= r <= 1)%R scores ->
    exists m,
      fst (mean_confidence_interval ss_t_ppf (map Fin scores) confidence) = Some (Fin m) /\
      (0 <= m <= 1)%R.
Proof.
  intros ss_t_ppf scores confidence Hne Hunit.
  destruct scores as [|x [|y scores]]; [congruence | |].
  - exists x. split; [reflexivity |]. now inversion Hunit.
  - set (rs := x :: y :: scores) in *.
    rewrite mean_confidence_interval_exact by (simpl; lia).
    exists (arithmetic_mean rs). split; [reflexivity |].
    now apply arithmetic_mean_unit.
Qed.

Lemma mean_of_unit_scores_witness :
  exists m,
    fst (mean_confidence_interval t_quantile_two_dof
           (map Fin [1 / 2; 1; 0]%R) default_confidence) = Some (Fin m) /\
    (0 <= m <= 1)%R.
Proof.
  apply (mean_of_unit_scores t_quantile_two_dof [1 / 2; 1; 0]%R default_confidence).
  - discriminate.
  - repeat constructor; lra.
Defined.
